(** * RetroArch GL core driver and slang filter chain: a shallow embedding

    Sources embedded here:
    - [gfx/drivers_shader/shader_gl_core.cpp]: [num_miplevels],
      [wrap_to_address], [address_to_gl], [convert_glslang_format],
      [gl_core_filter_chain_load_lut(s)],
      [gl_core_filter_chain_create_from_preset];
    - [gfx/drivers/gl_core.c]: [gl_core_set_projection],
      [gl_core_set_viewport], [gl_core_init_default_filter_chain],
      [gl_core_init_filter_chain_preset], [gl_core_init_filter_chain],
      [gl_core_set_shader], [gl_core_update_cpu_texture], [gl_core_frame],
      [num_miplevels], [video_texture_load_gl_core].  The file holds two
      revisions of the driver.  The functions listed are the same text in
      both, except that the later [gl_core_set_projection] also keeps a
      flipped copy of the unrotated matrix and the later [gl_core_frame]
      also draws the menu and on-screen messages between [end_frame] and
      the buffer swap; these two are followed in their first form.  The
      texture loader and its own [num_miplevels] exist in the later
      revision only.  Beside these: [gl_core_set_rotation],
      [gl_core_set_viewport_wrapper], [gl_core_viewport_info] and
      [gl_core_alive] (the same text in both revisions, and
      [gl_core_alive] in [gfx/drivers/gl_modern.c] too),
      [gl_core_free], and from the later revision
      [gl_core_destroy_resources], [gl_core_init_pipelines],
      [gl_core_load_texture] with its two thread wrappers and
      [gl_core_unload_texture].

    The classes of shader_gl_core.cpp ([Framebuffer], [Pass],
    [gl_core_filter_chain]) are declared there without the bodies of their
    members; where a property needs such a member it is modelled from the
    specification and marked so.

    Conventions.  [unsigned] values are [Z] with the 32-bit wrap-around
    written out where an operation can leave the range.  C [float]s are
    IEEE binary32 values ([spec_float] with precision 24).  C strings are
    [string]s (no embedded NUL).  Calls that leave the two translation
    units are recorded, in order, in a log carried by a small
    state-and-error monad. *)

From Stdlib Require Import ZArith Lia List Bool String Ascii.
From Stdlib Require Import Floats.SpecFloat.
From stdpp Require Import base option list gmap strings.

#[local] Set Warnings "-clear-no-such-hyp".

Local Open Scope Z_scope.

(** ** Machine integers *)

Definition UINT_BITS : Z := 32.
Definition UINT_MOD : Z := 2 ^ UINT_BITS.

(** Reduction of a mathematical result to an [unsigned]. *)
Definition wrap32 (z : Z) : Z := z mod UINT_MOD.

(** Conversion of an [unsigned] result to [int] (two's complement). *)
Definition to_int (z : Z) : Z :=
  (z + UINT_MOD / 2) mod UINT_MOD - UINT_MOD / 2.

(** ** IEEE binary32 ([float]) *)

Module Float32.
Definition prec : Z := 24.
Definition emax : Z := 128.

Definition float := spec_float.

(** [float(n)] for an unsigned [n]. *)
Definition of_unsigned (n : Z) : float := binary_normalize prec emax n 0 false.

Definition zero : float := S754_zero false.   (* 0.0f *)
Definition one : float := of_unsigned 1.      (* 1.0f *)
Definition nan : float := S754_nan.

Definition mul (x y : float) : float := SFmul prec emax x y.
Definition div (x y : float) : float := SFdiv prec emax x y.
Definition add (x y : float) : float := SFadd prec emax x y.
Definition sub (x y : float) : float := SFsub prec emax x y.
Definition fabsf (x : float) : float := SFabs x.
Definition ltb (x y : float) : bool := SFltb x y.

Definition two : float := of_unsigned 2.                      (* 2.0f *)
Definition half : float := div (of_unsigned 1) (of_unsigned 2). (* 0.5f *)
(** [0.0001f]: the binary32 value nearest to 1/10000. *)
Definition tenth_of_milli : float := div (of_unsigned 1) (of_unsigned 10000).

(** C [==] and [!=] on floats. *)
Definition eqb (x y : float) : bool := SFeqb x y.
Definition neqb (x y : float) : bool := negb (SFeqb x y).

(** [roundf]: nearest integer, halfway cases away from zero; taken here
    directly to the integer it denotes.  Not-a-number and the infinities
    have no integer value. *)
Definition roundf (x : float) : option Z :=
  match x with
  | S754_zero _ => Some 0
  | S754_finite s m e =>
      let mag :=
        if 0 <=? e then Z.pos m * 2 ^ e
        else
          let d := 2 ^ (- e) in
          let q := Z.pos m / d in
          let r := Z.pos m mod d in
          if d <=? 2 * r then q + 1 else q in
      Some (if s then - mag else mag)
  | _ => None
  end.

(** [unsigned(roundf(x))]: defined by C only when the rounded value fits. *)
Definition round_to_unsigned (x : float) : option Z :=
  match roundf x with
  | Some z => if (0 <=? z) && (z <? UINT_MOD) then Some z else None
  | None => None
  end.

(** [(int)roundf(x)], likewise. *)
Definition round_to_int (x : float) : option Z :=
  match roundf x with
  | Some z =>
      if (- (UINT_MOD / 2) <=? z) && (z <? UINT_MOD / 2) then Some z
      else None
  | None => None
  end.
End Float32.

Abbreviation float := Float32.float.

(** ** OpenGL: enumerants, calls, and the monad that logs them *)

Inductive GLenum : Type :=
| GL_ZERO_ENUM            (* the literal 0 used for "no format" *)
| GL_R8 | GL_R8I | GL_R8UI | GL_RG8 | GL_RG8I | GL_RG8UI
| GL_RGBA8 | GL_RGBA8I | GL_RGBA8UI | GL_SRGB8
| GL_RGB10_A2 | GL_RGB10_A2UI
| GL_R16UI | GL_R16I | GL_R16F | GL_RG16UI | GL_RG16I | GL_RG16F
| GL_RGBA16UI | GL_RGBA16I | GL_RGBA16F
| GL_R32UI | GL_R32I | GL_R32F | GL_RG32UI | GL_RG32I | GL_RG32F
| GL_RGBA32UI | GL_RGBA32I | GL_RGBA32F
| GL_RGB565
| GL_CLAMP_TO_EDGE | GL_CLAMP_TO_BORDER | GL_REPEAT | GL_MIRRORED_REPEAT
| GL_LINEAR | GL_NEAREST | GL_LINEAR_MIPMAP_NEAREST | GL_LINEAR_MIPMAP_LINEAR
| GL_RGBA | GL_RGB | GL_UNSIGNED_BYTE | GL_UNSIGNED_SHORT_5_6_5
| GL_TEXTURE_2D | GL_TEXTURE_SWIZZLE_R | GL_TEXTURE_SWIZZLE_B
| GL_TEXTURE_WRAP_S | GL_TEXTURE_WRAP_T
| GL_TEXTURE_MAG_FILTER | GL_TEXTURE_MIN_FILTER
| GL_BLUE | GL_RED
| GL_PIXEL_UNPACK_BUFFER | GL_UNPACK_ROW_LENGTH | GL_UNPACK_ALIGNMENT
| GL_FRAMEBUFFER | GL_COLOR_BUFFER_BIT
| GL_VERTEX_SHADER | GL_FRAGMENT_SHADER.

#[global] Instance GLenum_eq_dec : EqDecision GLenum.
Proof. solve_decision. Defined.

(** A texture name; 0 is "no texture". *)
Definition GLuint := Z.

(** The pixel data handed to an upload: opaque to the driver. *)
Definition pixels := list Z.

(** Calls that leave the two translation units: into OpenGL, into the
    filter chain's entry points, and into the context driver. *)

Inductive extern_call : Type :=
| glGenTextures (name : GLuint)             (* the name the GL returned *)
| glDeleteTextures (name : GLuint)
| glBindTexture (target : GLenum) (name : GLuint)
| glTexStorage2D (target : GLenum) (levels : Z) (internalformat : GLenum)
                 (width height : Z)
| glTexSubImage2D (target : GLenum) (level xoffset yoffset : Z)
                  (width height : Z) (format type : GLenum) (data : pixels)
| glTexParameteri (target pname param : GLenum)
| glGenerateMipmap (target : GLenum)
| glBindBuffer (target : GLenum) (name : GLuint)
| glPixelStorei (pname : GLenum) (param : Z)
| glBindFramebuffer (target : GLenum) (name : GLuint)
| glClearColor
| glClear (mask : GLenum)
| glViewport (x y : Z) (width height : Z)
(* entry points of the filter chain, as the driver calls them *)
| filter_chain_free
| filter_chain_set_input_texture (image : GLuint) (width height : Z)
                                 (format : GLenum)
| filter_chain_build_offscreen_passes
| filter_chain_build_viewport_pass
| filter_chain_end_frame
(* one pass recording and issuing its draw *)
| pass_build_commands (pass : nat)
(* callbacks of the context driver *)
| cb_update_window_title
| cb_swap_buffers.

(** The GL context as the driver sees it: the next fresh texture name and
    the calls issued so far, oldest first. *)
Record gl_context : Type := mk_gl_context {
  gl_next_name : Z;
  gl_calls : list extern_call
}.

(** Outcome of a routine: a value, a reported failure (a null pointer or an
    early [return]), or behaviour C leaves undefined. *)
Inductive result (A : Type) : Type :=
| Done (a : A)
| Failed
| Undefined.
Arguments Done {A} a.
Arguments Failed {A}.
Arguments Undefined {A}.

Definition GL (A : Type) : Type := gl_context -> result A * gl_context.

Definition gl_ret {A} (a : A) : GL A := fun c => (Done a, c).
Definition gl_fail {A} : GL A := fun c => (Failed, c).
Definition gl_undefined {A} : GL A := fun c => (Undefined, c).

Definition gl_bind {A B} (m : GL A) (k : A -> GL B) : GL B :=
  fun c =>
    match m c with
    | (Done a, c') => k a c'
    | (Failed, c') => (Failed, c')
    | (Undefined, c') => (Undefined, c')
    end.

Declare Scope gl_scope.
Delimit Scope gl_scope with gl.
Notation "'do' x <- m ; k" := (gl_bind m (fun x => k))
  (at level 20, x name, m at level 100, k at level 200,
   format "'[v' 'do'  x  <-  m ; '/' k ']'") : gl_scope.
Notation "'do_' m ; k" := (gl_bind m (fun _ => k))
  (at level 20, m at level 100, k at level 200,
   format "'[v' 'do_'  m ; '/' k ']'") : gl_scope.

(** Issue one call. *)
Definition call (g : extern_call) : GL unit :=
  fun c => (Done tt, mk_gl_context (gl_next_name c) (gl_calls c ++ [g])).

(** [glGenTextures(1, &tex)]: the GL hands out a fresh non-zero name. *)
Definition gen_texture : GL GLuint :=
  fun c =>
    let n := gl_next_name c in
    (Done n, mk_gl_context (n + 1) (gl_calls c ++ [glGenTextures n])).

(** Lift an optional value: absent means the routine reports failure. *)
Definition gl_lift {A} (o : option A) : GL A :=
  match o with Some a => gl_ret a | None => gl_fail end.

(** ** [num_miplevels] (shader_gl_core.cpp)

    [while (size) { levels++; size >>= 1; }] run with a bound on the
    number of iterations; [UINT_BITS] iterations empty any [unsigned]. *)

Fixpoint miplevels_loop (fuel : nat) (size levels : Z) : Z :=
  match fuel with
  | O => levels
  | S fuel' =>
      if size =? 0 then levels
      else miplevels_loop fuel' (Z.shiftr size 1) (wrap32 (levels + 1))
  end.

Definition num_miplevels (width height : Z) : Z :=
  let size := Z.max width height in
  miplevels_loop (Z.to_nat UINT_BITS) size 0.

(** ** [num_miplevels] (gl_core.c)

    [levels = 1; if (width < height) width = height;
     while (width > 1) { levels++; width >>= 1; }] *)

Fixpoint miplevels_loop_gt1 (fuel : nat) (width levels : Z) : Z :=
  match fuel with
  | O => levels
  | S fuel' =>
      if 1 <? width
      then miplevels_loop_gt1 fuel' (Z.shiftr width 1) (wrap32 (levels + 1))
      else levels
  end.

Definition driver_num_miplevels (width height : Z) : Z :=
  let width := if width <? height then height else width in
  miplevels_loop_gt1 (Z.to_nat UINT_BITS) width 1.

(** ** Preset data ([video_shader] and friends)

    The structures of [video_shader_parse.h] and [glslang_util.h], with the
    fields the filter chain reads.  Arrays with a separate element count
    ([pass]/[passes], [lut]/[luts], [parameters]/[num_parameters]) are
    lists; the count is the length. *)

Inductive gfx_wrap_type : Type :=
| RARCH_WRAP_BORDER | RARCH_WRAP_EDGE | RARCH_WRAP_REPEAT
| RARCH_WRAP_MIRRORED_REPEAT.

Inductive gfx_filter_type : Type :=
| RARCH_FILTER_UNSPEC | RARCH_FILTER_LINEAR | RARCH_FILTER_NEAREST.

Inductive gfx_scale_type : Type :=
| RARCH_SCALE_INPUT | RARCH_SCALE_ABSOLUTE | RARCH_SCALE_VIEWPORT.

#[global] Instance gfx_filter_type_eq_dec : EqDecision gfx_filter_type.
Proof. solve_decision. Defined.

Record gfx_fbo_scale : Type := {
  fp_fbo : bool;
  srgb_fbo : bool;
  type_x : gfx_scale_type;
  type_y : gfx_scale_type;
  fbo_scale_x : float;
  fbo_scale_y : float;
  abs_x : Z;
  abs_y : Z;
  valid : bool
}.

Record video_shader_pass : Type := {
  source_path : string;
  alias : string;
  fbo : gfx_fbo_scale;
  filter : gfx_filter_type;
  wrap : gfx_wrap_type;
  frame_count_mod : Z;
  mipmap : bool
}.

Record video_shader_lut : Type := {
  lut_id : string;
  lut_path : string;
  lut_filter : gfx_filter_type;
  lut_wrap : gfx_wrap_type;
  lut_mipmap : bool
}.

Record video_shader_parameter : Type := {
  id : string;
  desc : string;
  current : float;
  minimum : float;
  initial : float;
  maximum : float;
  step : float
}.

Record video_shader : Type := {
  pass : list video_shader_pass;
  lut : list video_shader_lut;
  parameters : list video_shader_parameter
}.

Definition passes (s : video_shader) : nat := length (pass s).
Definition luts (s : video_shader) : nat := length (lut s).
Definition num_parameters (s : video_shader) : nat := length (parameters s).

Inductive glslang_format : Type :=
| SLANG_FORMAT_UNKNOWN
| SLANG_FORMAT_R8_UNORM | SLANG_FORMAT_R8_SINT | SLANG_FORMAT_R8_UINT
| SLANG_FORMAT_R8G8_UNORM | SLANG_FORMAT_R8G8_SINT | SLANG_FORMAT_R8G8_UINT
| SLANG_FORMAT_R8G8B8A8_UNORM | SLANG_FORMAT_R8G8B8A8_SINT
| SLANG_FORMAT_R8G8B8A8_UINT | SLANG_FORMAT_R8G8B8A8_SRGB
| SLANG_FORMAT_A2B10G10R10_UNORM_PACK32 | SLANG_FORMAT_A2B10G10R10_UINT_PACK32
| SLANG_FORMAT_R16_UINT | SLANG_FORMAT_R16_SINT | SLANG_FORMAT_R16_SFLOAT
| SLANG_FORMAT_R16G16_UINT | SLANG_FORMAT_R16G16_SINT
| SLANG_FORMAT_R16G16_SFLOAT
| SLANG_FORMAT_R16G16B16A16_UINT | SLANG_FORMAT_R16G16B16A16_SINT
| SLANG_FORMAT_R16G16B16A16_SFLOAT
| SLANG_FORMAT_R32_UINT | SLANG_FORMAT_R32_SINT | SLANG_FORMAT_R32_SFLOAT
| SLANG_FORMAT_R32G32_UINT | SLANG_FORMAT_R32G32_SINT
| SLANG_FORMAT_R32G32_SFLOAT
| SLANG_FORMAT_R32G32B32A32_UINT | SLANG_FORMAT_R32G32B32A32_SINT
| SLANG_FORMAT_R32G32B32A32_SFLOAT.

#[global] Instance glslang_format_eq_dec : EqDecision glslang_format.
Proof. solve_decision. Defined.

(** One [#pragma parameter] line as the shader compiler reports it. *)
Record glslang_parameter : Type := {
  meta_id : string;
  meta_desc : string;
  meta_initial : float;
  meta_minimum : float;
  meta_maximum : float;
  meta_step : float
}.

Record glslang_meta : Type := {
  meta_parameters : list glslang_parameter;
  meta_name : string;
  meta_rt_format : glslang_format
}.

Record glslang_output : Type := {
  vertex : list Z;
  fragment : list Z;
  meta : glslang_meta
}.

Record texture_image : Type := {
  image_width : Z;
  image_height : Z;
  image_pixels : pixels
}.

(** ** Filter-chain data ([shader_gl_core.h] and the classes of
    [shader_gl_core.cpp]) *)

Inductive gl_core_filter_chain_filter : Type :=
| GL_CORE_FILTER_CHAIN_LINEAR | GL_CORE_FILTER_CHAIN_NEAREST.

Inductive gl_core_filter_chain_address : Type :=
| GL_CORE_FILTER_CHAIN_ADDRESS_REPEAT
| GL_CORE_FILTER_CHAIN_ADDRESS_MIRRORED_REPEAT
| GL_CORE_FILTER_CHAIN_ADDRESS_CLAMP_TO_EDGE
| GL_CORE_FILTER_CHAIN_ADDRESS_CLAMP_TO_BORDER.

Inductive gl_core_filter_chain_scale : Type :=
| GL_CORE_FILTER_CHAIN_SCALE_ORIGINAL
| GL_CORE_FILTER_CHAIN_SCALE_SOURCE
| GL_CORE_FILTER_CHAIN_SCALE_VIEWPORT
| GL_CORE_FILTER_CHAIN_SCALE_ABSOLUTE.

#[global] Instance gl_core_filter_chain_scale_eq_dec :
  EqDecision gl_core_filter_chain_scale.
Proof. solve_decision. Defined.

Record gl_core_filter_chain_pass_info : Type := {
  scale_type_x : gl_core_filter_chain_scale;
  scale_type_y : gl_core_filter_chain_scale;
  scale_x : float;
  scale_y : float;
  rt_format : GLenum;
  source_filter : gl_core_filter_chain_filter;
  mip_filter : gl_core_filter_chain_filter;
  address : gl_core_filter_chain_address;
  max_levels : Z
}.

Record Size2D : Type := { width : Z; height : Z }.

Record gl_core_filter_chain_texture : Type := {
  tex_image : GLuint;
  tex_width : Z;
  tex_height : Z;
  tex_format : GLenum
}.

Record gl_core_viewport : Type := {
  vp_x : Z;
  vp_y : Z;
  vp_width : Z;
  vp_height : Z
}.

(** [StaticTexture], by the arguments of its constructor. *)
Record StaticTexture : Type := {
  st_id : string;
  st_image : GLuint;
  st_width : Z;
  st_height : Z;
  st_linear : bool;
  st_mipmap : bool;
  st_address : GLenum
}.

(** [Pass::Parameter] without [semantic_index], which reflection fills in
    during [build]. *)
Record PassParameter : Type := {
  par_id : string;
  par_index : nat
}.

(** The members of [Pass] that the preset loader writes through the chain's
    setters. *)
Record Pass : Type := {
  vertex_shader : list Z;
  fragment_shader : list Z;
  frame_count_period : Z;
  pass_name : string;
  pass_parameters : list PassParameter
}.

Definition new_Pass : Pass :=
  {| vertex_shader := []; fragment_shader := []; frame_count_period := 0;
     pass_name := ""; pass_parameters := [] |}.

(** The per-frame members of the chain: [input_texture] and the history
    of original frames ([original_history]), newest first, with the number
    of history slots the chain was initialised with. *)
Record chain_frame_state : Type := {
  input_texture : option gl_core_filter_chain_texture;
  history_capacity : nat;
  original_history : list gl_core_filter_chain_texture
}.

Definition new_frame_state : chain_frame_state :=
  {| input_texture := None; history_capacity := 0; original_history := [] |}.

(** [gl_core_filter_chain]: [passes] and [pass_info] are indexed by pass
    number; [common.luts] and [common.shader_preset] are kept as they are
    in [CommonResources]. *)
Record gl_core_filter_chain : Type := {
  chain_passes : gmap nat Pass;
  chain_pass_info : gmap nat gl_core_filter_chain_pass_info;
  chain_luts : list StaticTexture;
  chain_shader_preset : option video_shader;
  chain_frame : chain_frame_state
}.

Definition new_gl_core_filter_chain : gl_core_filter_chain :=
  {| chain_passes := ∅; chain_pass_info := ∅; chain_luts := [];
     chain_shader_preset := None; chain_frame := new_frame_state |}.

(** Modelled from the spec: the bodies of the chain's setters are not in
    the sources (only the class declaration is).  The chain "owns all
    Passes" and keeps "per-pass naming/parameter metadata"; a setter
    addressed to pass number [i] writes the member of pass [i], which
    exists from then on. *)
Definition pass_at (c : gl_core_filter_chain) (i : nat) : Pass :=
  default new_Pass (chain_passes c !! i).

Definition with_pass (c : gl_core_filter_chain) (i : nat) (p : Pass)
  : gl_core_filter_chain :=
  {| chain_passes := <[i := p]> (chain_passes c);
     chain_pass_info := chain_pass_info c;
     chain_luts := chain_luts c;
     chain_shader_preset := chain_shader_preset c;
     chain_frame := chain_frame c |}.

Definition chain_set_shader (c : gl_core_filter_chain) (i : nat)
    (stage : GLenum) (spirv : list Z) : gl_core_filter_chain :=
  let p := pass_at c i in
  with_pass c i
    {| vertex_shader :=
         if decide (stage = GL_VERTEX_SHADER) then spirv else vertex_shader p;
       fragment_shader :=
         if decide (stage = GL_FRAGMENT_SHADER) then spirv
         else fragment_shader p;
       frame_count_period := frame_count_period p;
       pass_name := pass_name p;
       pass_parameters := pass_parameters p |}.

Definition chain_set_frame_count_period (c : gl_core_filter_chain) (i : nat)
    (period : Z) : gl_core_filter_chain :=
  let p := pass_at c i in
  with_pass c i
    {| vertex_shader := vertex_shader p;
       fragment_shader := fragment_shader p;
       frame_count_period := period;
       pass_name := pass_name p;
       pass_parameters := pass_parameters p |}.

Definition chain_set_pass_name (c : gl_core_filter_chain) (i : nat)
    (name : string) : gl_core_filter_chain :=
  let p := pass_at c i in
  with_pass c i
    {| vertex_shader := vertex_shader p;
       fragment_shader := fragment_shader p;
       frame_count_period := frame_count_period p;
       pass_name := name;
       pass_parameters := pass_parameters p |}.

Definition chain_add_parameter (c : gl_core_filter_chain) (i : nat)
    (parameter_index : nat) (name : string) : gl_core_filter_chain :=
  let p := pass_at c i in
  with_pass c i
    {| vertex_shader := vertex_shader p;
       fragment_shader := fragment_shader p;
       frame_count_period := frame_count_period p;
       pass_name := pass_name p;
       pass_parameters :=
         pass_parameters p
           ++ [{| par_id := name; par_index := parameter_index |}] |}.

Definition chain_set_pass_info (c : gl_core_filter_chain) (i : nat)
    (info : gl_core_filter_chain_pass_info) : gl_core_filter_chain :=
  {| chain_passes := chain_passes c;
     chain_pass_info := <[i := info]> (chain_pass_info c);
     chain_luts := chain_luts c;
     chain_shader_preset := chain_shader_preset c;
     chain_frame := chain_frame c |}.

Definition chain_add_static_texture (c : gl_core_filter_chain)
    (t : StaticTexture) : gl_core_filter_chain :=
  {| chain_passes := chain_passes c;
     chain_pass_info := chain_pass_info c;
     chain_luts := chain_luts c ++ [t];
     chain_shader_preset := chain_shader_preset c;
     chain_frame := chain_frame c |}.

Definition chain_set_shader_preset (c : gl_core_filter_chain)
    (s : video_shader) : gl_core_filter_chain :=
  {| chain_passes := chain_passes c;
     chain_pass_info := chain_pass_info c;
     chain_luts := chain_luts c;
     chain_shader_preset := Some s;
     chain_frame := chain_frame c |}.

Definition with_frame (c : gl_core_filter_chain) (f : chain_frame_state)
  : gl_core_filter_chain :=
  {| chain_passes := chain_passes c;
     chain_pass_info := chain_pass_info c;
     chain_luts := chain_luts c;
     chain_shader_preset := chain_shader_preset c;
     chain_frame := f |}.

(** ** Small conversions (shader_gl_core.cpp) *)

Definition wrap_to_address (type : gfx_wrap_type)
  : gl_core_filter_chain_address :=
  match type with
  | RARCH_WRAP_EDGE => GL_CORE_FILTER_CHAIN_ADDRESS_CLAMP_TO_EDGE
  | RARCH_WRAP_BORDER => GL_CORE_FILTER_CHAIN_ADDRESS_CLAMP_TO_BORDER
  | RARCH_WRAP_REPEAT => GL_CORE_FILTER_CHAIN_ADDRESS_REPEAT
  | RARCH_WRAP_MIRRORED_REPEAT => GL_CORE_FILTER_CHAIN_ADDRESS_MIRRORED_REPEAT
  end.

Definition address_to_gl (type : gl_core_filter_chain_address) : GLenum :=
  match type with
  | GL_CORE_FILTER_CHAIN_ADDRESS_CLAMP_TO_EDGE => GL_CLAMP_TO_EDGE
  | GL_CORE_FILTER_CHAIN_ADDRESS_CLAMP_TO_BORDER => GL_CLAMP_TO_BORDER
  | GL_CORE_FILTER_CHAIN_ADDRESS_REPEAT => GL_REPEAT
  | GL_CORE_FILTER_CHAIN_ADDRESS_MIRRORED_REPEAT => GL_MIRRORED_REPEAT
  end.

Definition convert_glslang_format (fmt : glslang_format) : GLenum :=
  match fmt with
  | SLANG_FORMAT_R8_UNORM => GL_R8
  | SLANG_FORMAT_R8_SINT => GL_R8I
  | SLANG_FORMAT_R8_UINT => GL_R8UI
  | SLANG_FORMAT_R8G8_UNORM => GL_RG8
  | SLANG_FORMAT_R8G8_SINT => GL_RG8I
  | SLANG_FORMAT_R8G8_UINT => GL_RG8UI
  | SLANG_FORMAT_R8G8B8A8_UNORM => GL_RGBA8
  | SLANG_FORMAT_R8G8B8A8_SINT => GL_RGBA8I
  | SLANG_FORMAT_R8G8B8A8_UINT => GL_RGBA8UI
  | SLANG_FORMAT_R8G8B8A8_SRGB => GL_SRGB8
  | SLANG_FORMAT_A2B10G10R10_UNORM_PACK32 => GL_RGB10_A2
  | SLANG_FORMAT_A2B10G10R10_UINT_PACK32 => GL_RGB10_A2UI
  | SLANG_FORMAT_R16_UINT => GL_R16UI
  | SLANG_FORMAT_R16_SINT => GL_R16I
  | SLANG_FORMAT_R16_SFLOAT => GL_R16F
  | SLANG_FORMAT_R16G16_UINT => GL_RG16UI
  | SLANG_FORMAT_R16G16_SINT => GL_RG16I
  | SLANG_FORMAT_R16G16_SFLOAT => GL_RG16F
  | SLANG_FORMAT_R16G16B16A16_UINT => GL_RGBA16UI
  | SLANG_FORMAT_R16G16B16A16_SINT => GL_RGBA16I
  | SLANG_FORMAT_R16G16B16A16_SFLOAT => GL_RGBA16F
  | SLANG_FORMAT_R32_UINT => GL_R32UI
  | SLANG_FORMAT_R32_SINT => GL_R32I
  | SLANG_FORMAT_R32_SFLOAT => GL_R32F
  | SLANG_FORMAT_R32G32_UINT => GL_RG32UI
  | SLANG_FORMAT_R32G32_SINT => GL_RG32I
  | SLANG_FORMAT_R32G32_SFLOAT => GL_RG32F
  | SLANG_FORMAT_R32G32B32A32_UINT => GL_RGBA32UI
  | SLANG_FORMAT_R32G32B32A32_SINT => GL_RGBA32I
  | SLANG_FORMAT_R32G32B32A32_SFLOAT => GL_RGBA32F
  | SLANG_FORMAT_UNKNOWN => GL_ZERO_ENUM
  end.

(** [strlcpy(dst, src, size)] as far as [dst] is concerned: at most
    [size - 1] characters of [src]. *)
Definition strlcpy (src : string) (size : nat) : string :=
  substring 0 (size - 1) src.

(** ** What the filter chain consumes from the rest of the program

    Functions, constants and tables that the sources call or include but
    that live elsewhere: the config parser, the preset reader, the image
    decoder, the slang compiler, the limits of [video_shader_parse.h], the
    SPIR-V of the built-in pass-through shader, and the members of the
    chain whose bodies are not part of the sources. *)
Record collaborators : Type := {
  config_file_t : Type;
  config_file_new : string -> option config_file_t;
  video_shader_read_conf_cgp : config_file_t -> option video_shader;
  video_shader_resolve_relative : video_shader -> string -> video_shader;
  video_shader_resolve_current_parameters :
    config_file_t -> video_shader -> option video_shader;
  image_texture_load : string -> option texture_image;
  glslang_compile_shader : string -> option glslang_output;
  (** [#define GFX_MAX_PARAMETERS] *)
  GFX_MAX_PARAMETERS : Z;
  (** [sizeof(param.id)] and [sizeof(param.desc)] *)
  sizeof_id : nat;
  sizeof_desc : nat;
  (** [opaque.vert.inc], [opaque.frag.inc] *)
  opaque_vert : list Z;
  opaque_frag : list Z;
  (** [gl_core_filter_chain::init]: null when a pass or a buffer could not
      be built, else the number of history frames the shaders ask for *)
  chain_init : gl_core_filter_chain -> option nat;
  (** [gl_core_filter_chain_create_default]: the stock chain, or null *)
  create_default :
    gl_core_filter_chain_filter -> option gl_core_filter_chain
}.

Section FilterChain.
Context (E : collaborators).

Local Open Scope gl_scope.

(** Modelled from the spec: [gl_core_filter_chain::init] has no body in
    the sources.  "init(): allocates CommonResources, history buffers,
    LUTs, builds every Pass (fatal on any failure)": it succeeds or
    fails as a whole, leaves the list of passes as it is, and leaves the
    chain with its history slots allocated and no frame recorded. *)
Definition gl_core_filter_chain_init (chain : gl_core_filter_chain)
  : option gl_core_filter_chain :=
  match chain_init E chain with
  | Some k =>
      Some (with_frame chain
              {| input_texture := None; history_capacity := k;
                 original_history := [] |})
  | None => None
  end.

(** *** [gl_core_filter_chain_load_lut] *)
Definition gl_core_filter_chain_load_lut (shader : video_shader_lut)
  : GL StaticTexture :=
  do image <- gl_lift (image_texture_load E (lut_path shader));
  let levels :=
    if lut_mipmap shader
    then num_miplevels (image_width image) (image_height image)
    else 1 in
  do tex <- gen_texture;
  do_ call (glBindTexture GL_TEXTURE_2D tex);
  do_ call (glTexStorage2D GL_TEXTURE_2D levels GL_RGBA8
              (image_width image) (image_height image));
  do_ call (glTexSubImage2D GL_TEXTURE_2D 0 0 0
              (image_width image) (image_height image)
              GL_RGBA GL_UNSIGNED_BYTE (image_pixels image));
  do_ (if 1 <? levels then call (glGenerateMipmap GL_TEXTURE_2D)
       else gl_ret tt);
  do_ call (glBindTexture GL_TEXTURE_2D 0);
  gl_ret
    {| st_id := lut_id shader;
       st_image := tex;
       st_width := image_width image;
       st_height := image_height image;
       st_linear :=
         bool_decide (lut_filter shader ≠ RARCH_FILTER_NEAREST);
       st_mipmap := 1 <? levels;
       st_address := address_to_gl (wrap_to_address (lut_wrap shader)) |}.

(** *** [gl_core_filter_chain_load_luts] *)
Fixpoint load_luts_from (ls : list video_shader_lut)
    (chain : gl_core_filter_chain) : GL gl_core_filter_chain :=
  match ls with
  | [] => gl_ret chain
  | l :: ls' =>
      do image <- gl_core_filter_chain_load_lut l;
      load_luts_from ls' (chain_add_static_texture chain image)
  end.

Definition gl_core_filter_chain_load_luts (chain : gl_core_filter_chain)
    (shader : video_shader) : GL gl_core_filter_chain :=
  load_luts_from (lut shader) chain.

(** *** The [#pragma parameter] loop body (lines 617-660)

    State: the preset (whose [parameters] table grows) and the chain. *)
Definition parameter_mismatch (meta_param : glslang_parameter)
    (itr : video_shader_parameter) : bool :=
  bool_decide (meta_desc meta_param ≠ desc itr)
  || Float32.neqb (meta_initial meta_param) (initial itr)
  || Float32.neqb (meta_minimum meta_param) (minimum itr)
  || Float32.neqb (meta_maximum meta_param) (maximum itr)
  || Float32.neqb (meta_step meta_param) (step itr).

Definition with_parameters (shader : video_shader)
    (ps : list video_shader_parameter) : video_shader :=
  {| pass := pass shader; lut := lut shader; parameters := ps |}.

(** The entry written at [shader->parameters[shader->num_parameters]]
    for a parameter not seen before (lines 649-656). *)
Definition new_parameter (meta_param : glslang_parameter)
  : video_shader_parameter :=
  {| id := strlcpy (meta_id meta_param) (sizeof_id E);
     desc := strlcpy (meta_desc meta_param) (sizeof_desc E);
     current := meta_initial meta_param;
     initial := meta_initial meta_param;
     minimum := meta_minimum meta_param;
     maximum := meta_maximum meta_param;
     step := meta_step meta_param |}.

Definition declare_parameter (i : nat) (meta_param : glslang_parameter)
    (st : video_shader * gl_core_filter_chain)
  : option (video_shader * gl_core_filter_chain) :=
  let '(shader, chain) := st in
  if GFX_MAX_PARAMETERS E <=? Z.of_nat (num_parameters shader) then None
  else
    match list_find (fun param => meta_id meta_param = id param)
                    (parameters shader) with
    | Some (k, itr) =>
        (* Allow duplicate #pragma parameter, but
           only if they are exactly the same. *)
        if parameter_mismatch meta_param itr then None
        else Some (shader,
                   chain_add_parameter chain i k (meta_id meta_param))
    | None =>
        Some (with_parameters shader
                (parameters shader ++ [new_parameter meta_param]),
              chain_add_parameter chain i (num_parameters shader)
                (meta_id meta_param))
    end.

Fixpoint declare_parameters (i : nat) (metas : list glslang_parameter)
    (st : video_shader * gl_core_filter_chain)
  : option (video_shader * gl_core_filter_chain) :=
  match metas with
  | [] => Some st
  | m :: metas' =>
      match declare_parameter i m st with
      | Some st' => declare_parameters i metas' st'
      | None => None
      end
  end.

(** *** The pass info of pass [i] (lines 600-608 and 681-782) *)
Definition scale_of (type : gfx_scale_type) (scale : float) (abs : Z)
  : float * gl_core_filter_chain_scale :=
  match type with
  | RARCH_SCALE_INPUT => (scale, GL_CORE_FILTER_CHAIN_SCALE_SOURCE)
  | RARCH_SCALE_ABSOLUTE =>
      (Float32.of_unsigned abs, GL_CORE_FILTER_CHAIN_SCALE_ABSOLUTE)
  | RARCH_SCALE_VIEWPORT => (scale, GL_CORE_FILTER_CHAIN_SCALE_VIEWPORT)
  end.

Definition pass_info_of (filter0 : gl_core_filter_chain_filter)
    (i : nat) (shader : video_shader) (p : video_shader_pass)
    (next_pass : option video_shader_pass) (output : glslang_output)
  : gl_core_filter_chain_pass_info :=
  let source_filter0 :=
    if decide (filter p = RARCH_FILTER_UNSPEC) then filter0
    else if decide (filter p = RARCH_FILTER_LINEAR)
         then GL_CORE_FILTER_CHAIN_LINEAR
         else GL_CORE_FILTER_CHAIN_NEAREST in
  let max_levels0 :=
    match next_pass with
    | Some np => if mipmap np then UINT_MOD - 1 (* ~0u *) else 1
    | None => 1
    end in
  let mip_filter0 :=
    if bool_decide (filter p ≠ RARCH_FILTER_NEAREST) && (1 <? max_levels0)
    then GL_CORE_FILTER_CHAIN_LINEAR else GL_CORE_FILTER_CHAIN_NEAREST in
  (* Set a reasonable default. *)
  let meta_format :=
    if decide (meta_rt_format (meta output) = SLANG_FORMAT_UNKNOWN)
    then SLANG_FORMAT_R8G8B8A8_UNORM
    else meta_rt_format (meta output) in
  let last := (i + 1 =? passes shader)%nat in
  if negb (valid (fbo p)) then
    let type := if last then GL_CORE_FILTER_CHAIN_SCALE_VIEWPORT
                else GL_CORE_FILTER_CHAIN_SCALE_SOURCE in
    {| scale_type_x := type;
       scale_type_y := type;
       scale_x := Float32.one;
       scale_y := Float32.one;
       rt_format :=
         if last then GL_ZERO_ENUM else convert_glslang_format meta_format;
       source_filter := source_filter0;
       mip_filter := mip_filter0;
       address := wrap_to_address (wrap p);
       max_levels := max_levels0 |}
  else
    (* Preset overrides shader. *)
    let fbo_format :=
      if srgb_fbo (fbo p) then SLANG_FORMAT_R8G8B8A8_SRGB
      else if fp_fbo (fbo p) then SLANG_FORMAT_R16G16B16A16_SFLOAT
      else meta_format in
    let sx := scale_of (type_x (fbo p)) (fbo_scale_x (fbo p))
                       (abs_x (fbo p)) in
    let sy := scale_of (type_y (fbo p)) (fbo_scale_y (fbo p))
                       (abs_y (fbo p)) in
    {| scale_type_x := snd sx;
       scale_type_y := snd sy;
       scale_x := fst sx;
       scale_y := fst sy;
       rt_format := convert_glslang_format fbo_format;
       source_filter := source_filter0;
       mip_filter := mip_filter0;
       address := wrap_to_address (wrap p);
       max_levels := max_levels0 |}.

(** *** One iteration of the loop over the passes (lines 592-785) *)
Definition configure_pass (filter0 : gl_core_filter_chain_filter) (i : nat)
    (st : video_shader * gl_core_filter_chain)
  : GL (video_shader * gl_core_filter_chain) :=
  let shader0 := fst st in
  match pass shader0 !! i with
  | None => gl_undefined
  | Some p =>
      let next_pass :=
        if (i + 1 <? passes shader0)%nat then pass shader0 !! (i + 1)%nat
        else None in
      do output <- gl_lift (glslang_compile_shader E (source_path p));
      do st1 <- gl_lift
          (declare_parameters i (meta_parameters (meta output)) st);
      let '(shader, chain) := st1 in
      let chain := chain_set_shader chain i GL_VERTEX_SHADER
                     (vertex output) in
      let chain := chain_set_shader chain i GL_FRAGMENT_SHADER
                     (fragment output) in
      let chain := chain_set_frame_count_period chain i
                     (frame_count_mod p) in
      let chain :=
        if bool_decide (meta_name (meta output) ≠ "")
        then chain_set_pass_name chain i (meta_name (meta output))
        else chain in
      (* Preset overrides. *)
      let chain :=
        if bool_decide (alias p ≠ "")
        then chain_set_pass_name chain i (alias p)
        else chain in
      let chain := chain_set_pass_info chain i
                     (pass_info_of filter0 i shader p next_pass output) in
      gl_ret (shader, chain)
  end.

Fixpoint configure_passes (filter0 : gl_core_filter_chain_filter)
    (todo : nat) (i : nat) (st : video_shader * gl_core_filter_chain)
  : GL (video_shader * gl_core_filter_chain) :=
  match todo with
  | O => gl_ret st
  | S todo' =>
      do st' <- configure_pass filter0 i st;
      configure_passes filter0 todo' (S i) st'
  end.

(** The pass info of the appended blit-to-viewport pass (lines 789-802). *)
Definition viewport_pass_info (filter0 : gl_core_filter_chain_filter)
  : gl_core_filter_chain_pass_info :=
  {| scale_type_x := GL_CORE_FILTER_CHAIN_SCALE_VIEWPORT;
     scale_type_y := GL_CORE_FILTER_CHAIN_SCALE_VIEWPORT;
     scale_x := Float32.one;
     scale_y := Float32.one;
     rt_format := GL_ZERO_ENUM;
     source_filter := filter0;
     mip_filter := GL_CORE_FILTER_CHAIN_NEAREST;
     address := GL_CORE_FILTER_CHAIN_ADDRESS_CLAMP_TO_EDGE;
     max_levels := 0 |}.

(** *** [gl_core_filter_chain_create_from_preset]

    [Failed] is the null pointer.  The [info] argument is never read and
    is left out; so are the log messages.  A preset without passes makes
    [shader->pass[shader->passes - 1]] a read outside the array. *)
Definition gl_core_filter_chain_create_from_preset
    (path : string) (filter0 : gl_core_filter_chain_filter)
  : GL gl_core_filter_chain :=
  do conf <- gl_lift (config_file_new E path);
  do shader <- gl_lift (video_shader_read_conf_cgp E conf);
  let shader := video_shader_resolve_relative E shader path in
  do last_pass_is_fbo <-
    match pass shader !! (passes shader - 1)%nat with
    | Some p =>
        if (0 <? passes shader)%nat then gl_ret (valid (fbo p))
        else gl_undefined
    | None => gl_undefined
    end;
  let chain := new_gl_core_filter_chain in
  do chain <-
    (if (0 <? luts shader)%nat
     then gl_core_filter_chain_load_luts chain shader
     else gl_ret chain);
  let shader := with_parameters shader [] in
  do st <- configure_passes filter0 (passes shader) 0 (shader, chain);
  let '(shader, chain) := st in
  let chain :=
    if (last_pass_is_fbo : bool) then
      let chain := chain_set_pass_info chain (passes shader)
                     (viewport_pass_info filter0) in
      let chain := chain_set_shader chain (passes shader) GL_VERTEX_SHADER
                     (opaque_vert E) in
      chain_set_shader chain (passes shader) GL_FRAGMENT_SHADER
        (opaque_frag E)
    else chain in
  do shader <-
    gl_lift (video_shader_resolve_current_parameters E conf shader);
  let chain := chain_set_shader_preset chain shader in
  do chain <- gl_lift (gl_core_filter_chain_init chain);
  gl_ret chain.
End FilterChain.

(** ** The driver ([gfx/drivers/gl_core.c]) *)

Definition GL_CORE_NUM_TEXTURES : Z := 4.

Record gl_core_streamed_texture : Type := {
  tex : GLuint;
  streamed_width : Z;
  streamed_height : Z
}.

Record video_viewport_t : Type := {
  x : Z;
  y : Z;
  viewport_width : Z;
  viewport_height : Z
}.

(** The fields of [video_info_t] the driver consults after [init]. *)
Record video_info_t : Type := {
  smooth : bool;
  rgb32 : bool
}.

(** The fields of [video_frame_info_t] read by [gl_core_frame] and
    [gl_core_set_viewport]. *)
Record video_frame_info_t : Type := {
  info_width : Z;
  info_height : Z;
  scale_integer : bool;
  aspect_ratio_idx : Z;
  custom_vp_x : Z;
  custom_vp_y : Z;
  custom_vp_width : Z;
  custom_vp_height : Z
}.

Inductive rarch_shader_type : Type :=
| RARCH_SHADER_NONE | RARCH_SHADER_CG | RARCH_SHADER_HLSL
| RARCH_SHADER_GLSL | RARCH_SHADER_SLANG.

#[global] Instance rarch_shader_type_eq_dec : EqDecision rarch_shader_type.
Proof. solve_decision. Defined.

Inductive texture_filter_type : Type :=
| TEXTURE_FILTER_LINEAR | TEXTURE_FILTER_NEAREST
| TEXTURE_FILTER_MIPMAP_LINEAR | TEXTURE_FILTER_MIPMAP_NEAREST.

(** What the driver consumes from the frontend: the matrix helpers of
    [gfx/math/matrix_4x4.h], the viewport helpers of [video_driver.c], the
    configured preset, and the build configuration. *)
Record frontend : Type := {
  math_matrix_4x4 : Type;
  matrix_zero : math_matrix_4x4;
  (** [matrix_4x4_ortho] applied to [default_ortho] *)
  matrix_4x4_ortho_default : math_matrix_4x4;
  (** [matrix_4x4_rotate_z(rot, M_PI * rotation / 180.0f)] *)
  matrix_4x4_rotate_z : Z -> math_matrix_4x4;
  matrix_4x4_multiply : math_matrix_4x4 -> math_matrix_4x4 -> math_matrix_4x4;
  (** the four [MAT_ELEM_4X4(m, 1, k) *= -1.0f] *)
  matrix_negate_row1 : math_matrix_4x4 -> math_matrix_4x4;
  video_context_driver_translate_aspect : float -> Z -> Z -> float;
  video_viewport_get_scaled_integer :
    video_viewport_t -> Z -> Z -> float -> bool -> video_viewport_t;
  video_driver_get_aspect_ratio : float;
  ASPECT_RATIO_CUSTOM : Z;
  retroarch_get_shader_preset : option string;
  video_shader_parse_type : option string -> rarch_shader_type;
  HAVE_MENU : bool;
  RARCH_MOBILE : bool
}.

Section Driver.
Context (E : collaborators) (F : frontend).

Local Open Scope gl_scope.

Record gl_core_t : Type := {
  ctx_driver : bool;          (* whether the pointer is set *)
  filter_chain : option gl_core_filter_chain;
  video_info : video_info_t;
  keep_aspect : bool;
  vp : video_viewport_t;
  filter_chain_vp : gl_core_viewport;
  vp_out_width : Z;
  vp_out_height : Z;
  mvp : math_matrix_4x4 F;
  mvp_yflip : math_matrix_4x4 F;
  mvp_no_rot : math_matrix_4x4 F;
  rotation : Z;
  textures : list gl_core_streamed_texture;
  textures_index : Z
}.

(** [calloc(1, sizeof(gl_core_t))] *)
Definition gl_core_calloc : gl_core_t :=
  {| ctx_driver := false; filter_chain := None;
     video_info := {| smooth := false; rgb32 := false |};
     keep_aspect := false;
     vp := {| x := 0; y := 0; viewport_width := 0; viewport_height := 0 |};
     filter_chain_vp :=
       {| vp_x := 0; vp_y := 0; vp_width := 0; vp_height := 0 |};
     vp_out_width := 0; vp_out_height := 0;
     mvp := matrix_zero F; mvp_yflip := matrix_zero F;
     mvp_no_rot := matrix_zero F; rotation := 0;
     textures :=
       replicate (Z.to_nat GL_CORE_NUM_TEXTURES)
         {| tex := 0; streamed_width := 0; streamed_height := 0 |};
     textures_index := 0 |}.

Definition set_filter_chain (gl : gl_core_t)
    (c : option gl_core_filter_chain) : gl_core_t :=
  {| ctx_driver := ctx_driver gl; filter_chain := c;
     video_info := video_info gl; keep_aspect := keep_aspect gl;
     vp := vp gl; filter_chain_vp := filter_chain_vp gl;
     vp_out_width := vp_out_width gl; vp_out_height := vp_out_height gl;
     mvp := mvp gl; mvp_yflip := mvp_yflip gl;
     mvp_no_rot := mvp_no_rot gl; rotation := rotation gl;
     textures := textures gl; textures_index := textures_index gl |}.

Definition set_textures (gl : gl_core_t)
    (ts : list gl_core_streamed_texture) : gl_core_t :=
  {| ctx_driver := ctx_driver gl; filter_chain := filter_chain gl;
     video_info := video_info gl; keep_aspect := keep_aspect gl;
     vp := vp gl; filter_chain_vp := filter_chain_vp gl;
     vp_out_width := vp_out_width gl; vp_out_height := vp_out_height gl;
     mvp := mvp gl; mvp_yflip := mvp_yflip gl;
     mvp_no_rot := mvp_no_rot gl; rotation := rotation gl;
     textures := ts; textures_index := textures_index gl |}.

Definition set_textures_index (gl : gl_core_t) (i : Z) : gl_core_t :=
  {| ctx_driver := ctx_driver gl; filter_chain := filter_chain gl;
     video_info := video_info gl; keep_aspect := keep_aspect gl;
     vp := vp gl; filter_chain_vp := filter_chain_vp gl;
     vp_out_width := vp_out_width gl; vp_out_height := vp_out_height gl;
     mvp := mvp gl; mvp_yflip := mvp_yflip gl;
     mvp_no_rot := mvp_no_rot gl; rotation := rotation gl;
     textures := textures gl; textures_index := i |}.

(** The members [gl_core_set_viewport] and [gl_core_set_projection]
    assign. *)
Definition set_view (gl : gl_core_t) (v : video_viewport_t)
    (out : Z * Z) (m : math_matrix_4x4 F * math_matrix_4x4 F
                       * math_matrix_4x4 F) : gl_core_t :=
  {| ctx_driver := ctx_driver gl; filter_chain := filter_chain gl;
     video_info := video_info gl; keep_aspect := keep_aspect gl;
     vp := v;
     filter_chain_vp :=
       {| vp_x := x v; vp_y := y v; vp_width := viewport_width v;
          vp_height := viewport_height v |};
     vp_out_width := fst out; vp_out_height := snd out;
     mvp := fst (fst m); mvp_yflip := snd m;
     mvp_no_rot := snd (fst m); rotation := rotation gl;
     textures := textures gl; textures_index := textures_index gl |}.

(** *** [gl_core_set_projection] *)
Definition gl_core_set_projection (gl : gl_core_t) (allow_rotate : bool)
  : math_matrix_4x4 F * math_matrix_4x4 F * math_matrix_4x4 F :=
  let no_rot := matrix_4x4_ortho_default F in
  if negb allow_rotate then (no_rot, no_rot, mvp_yflip gl)
  else
    let rot := matrix_4x4_rotate_z F (rotation gl) in
    let m := matrix_4x4_multiply F rot no_rot in
    (m, no_rot, matrix_negate_row1 F m).

(** *** [gl_core_set_viewport]: the rectangle it settles on

    The result is [gl->vp] and the final [viewport_width] and
    [viewport_height]; there is none where a float-to-integer conversion
    has no defined value. *)
Definition viewport_rect (gl : gl_core_t) (video_info : video_frame_info_t)
    (width0 height0 : Z) (force_full : bool)
  : option (video_viewport_t * (Z * Z)) :=
  let device_aspect :=
    video_context_driver_translate_aspect F
      (Float32.div (Float32.of_unsigned width0)
                   (Float32.of_unsigned height0))
      width0 height0 in
  let height := info_height video_info in
  rect ←
    (if scale_integer video_info && negb force_full then
       let v := video_viewport_get_scaled_integer F (vp gl) width0 height0
                  (video_driver_get_aspect_ratio F) (keep_aspect gl) in
       Some (v, (viewport_width v, viewport_height v))
     else if keep_aspect gl && negb force_full then
       let desired_aspect := video_driver_get_aspect_ratio F in
       if HAVE_MENU F
          && (aspect_ratio_idx video_info =? ASPECT_RATIO_CUSTOM F)
       then
         (* GL has bottom-left origin viewport. *)
         let w := custom_vp_width video_info in
         let h := custom_vp_height video_info in
         Some ({| x := custom_vp_x video_info;
                  y := to_int (height - custom_vp_y video_info - h);
                  viewport_width := w; viewport_height := h |}, (w, h))
       else if Float32.ltb
                 (Float32.fabsf (Float32.sub device_aspect desired_aspect))
                 Float32.tenth_of_milli
       then
         Some ({| x := 0; y := 0; viewport_width := width0;
                  viewport_height := height0 |}, (width0, height0))
       else if Float32.ltb desired_aspect device_aspect then
         let delta :=
           Float32.add
             (Float32.div
                (Float32.sub (Float32.div desired_aspect device_aspect)
                             Float32.one)
                Float32.two)
             Float32.half in
         x' ← Float32.round_to_int
                (Float32.mul (Float32.of_unsigned width0)
                             (Float32.sub Float32.half delta));
         w ← Float32.round_to_unsigned
                (Float32.mul
                   (Float32.mul Float32.two (Float32.of_unsigned width0))
                   delta);
         Some ({| x := x'; y := 0; viewport_width := w;
                  viewport_height := height0 |}, (w, height0))
       else
         let delta :=
           Float32.add
             (Float32.div
                (Float32.sub (Float32.div device_aspect desired_aspect)
                             Float32.one)
                Float32.two)
             Float32.half in
         y' ← Float32.round_to_int
                (Float32.mul (Float32.of_unsigned height0)
                             (Float32.sub Float32.half delta));
         h ← Float32.round_to_unsigned
                (Float32.mul
                   (Float32.mul Float32.two (Float32.of_unsigned height0))
                   delta);
         Some ({| x := 0; y := y'; viewport_width := width0;
                  viewport_height := h |}, (width0, h))
     else
       Some ({| x := 0; y := 0; viewport_width := width0;
                viewport_height := height0 |}, (width0, height0)));
  let '(v, out) := rect in
  (* In portrait mode, we want viewport to gravitate to top of screen. *)
  if RARCH_MOBILE F && Float32.ltb device_aspect Float32.one then
    if (- (UINT_MOD / 2) <=? 2 * y v) && (2 * y v <? UINT_MOD / 2) then
      Some ({| x := x v; y := 2 * y v; viewport_width := viewport_width v;
               viewport_height := viewport_height v |}, out)
    else None
  else Some (v, out).

(** *** [gl_core_set_viewport] *)
Definition gl_core_set_viewport (gl : gl_core_t)
    (video_info : video_frame_info_t) (width0 height0 : Z)
    (force_full allow_rotate : bool) : GL gl_core_t :=
  match viewport_rect gl video_info width0 height0 force_full with
  | None => gl_undefined
  | Some (v, out) =>
      do_ call (glViewport (x v) (y v) (viewport_width v)
                           (viewport_height v));
      (* Set last backbuffer viewport. *)
      let out' :=
        if negb force_full then out
        else (vp_out_width gl, vp_out_height gl) in
      gl_ret (set_view gl v out' (gl_core_set_projection gl allow_rotate))
  end.

(** *** The chain's per-frame entry points

    Modelled from the spec: the bodies of [set_input_texture],
    [build_offscreen_passes], [build_viewport_pass] and [end_frame] are
    not in the sources.  "setInputTexture(tex): records the new frame's
    source texture and dimensions; does not render."
    "buildOffscreenPasses(viewport): for each non-terminal pass in order
    ... execute buildCommands".  "buildViewportPass(viewport, mvp):
    executes the terminal pass".  "endFrame(): updates the history ring
    by shifting and inserting the current input texture"; the ring is a
    "fixed-length sequence of previous original input frames (oldest
    overwritten)". *)
Definition num_passes (c : gl_core_filter_chain) : nat :=
  size (chain_passes c).

Definition chain_set_input_texture (c : gl_core_filter_chain)
    (t : gl_core_filter_chain_texture) : GL gl_core_filter_chain :=
  do_ call (filter_chain_set_input_texture (tex_image t) (tex_width t)
              (tex_height t) (tex_format t));
  gl_ret (with_frame c
            {| input_texture := Some t;
               history_capacity := history_capacity (chain_frame c);
               original_history := original_history (chain_frame c) |}).

Fixpoint build_passes (ps : list nat) : GL unit :=
  match ps with
  | [] => gl_ret tt
  | i :: ps' => do_ call (pass_build_commands i); build_passes ps'
  end.

Definition chain_build_offscreen_passes (c : gl_core_filter_chain)
    (v : gl_core_viewport) : GL gl_core_filter_chain :=
  do_ call filter_chain_build_offscreen_passes;
  do_ build_passes (seq 0 (num_passes c - 1));
  gl_ret c.

Definition chain_build_viewport_pass (c : gl_core_filter_chain)
    (v : gl_core_viewport) (m : math_matrix_4x4 F)
  : GL gl_core_filter_chain :=
  do_ call filter_chain_build_viewport_pass;
  do_ build_passes (seq (num_passes c - 1) (min 1 (num_passes c)));
  gl_ret c.

Definition update_history (f : chain_frame_state) : chain_frame_state :=
  match input_texture f with
  | Some t =>
      {| input_texture := input_texture f;
         history_capacity := history_capacity f;
         original_history :=
           take (history_capacity f) (t :: original_history f) |}
  | None => f
  end.

Definition chain_end_frame (c : gl_core_filter_chain)
  : GL gl_core_filter_chain :=
  do_ call filter_chain_end_frame;
  gl_ret (with_frame c (update_history (chain_frame c))).

(** Modelled from the spec: "History ring ... after reset it is empty". *)
Definition clear_history (f : chain_frame_state) : chain_frame_state :=
  {| input_texture := input_texture f;
     history_capacity := history_capacity f;
     original_history := [] |}.

Definition filter_of_smooth (gl : gl_core_t) : gl_core_filter_chain_filter :=
  if smooth (video_info gl) then GL_CORE_FILTER_CHAIN_LINEAR
  else GL_CORE_FILTER_CHAIN_NEAREST.

(** *** [gl_core_init_default_filter_chain] *)
Definition gl_core_init_default_filter_chain (gl : gl_core_t)
  : GL (bool * gl_core_t) :=
  if negb (ctx_driver gl) then gl_ret (false, gl)
  else
    let gl := set_filter_chain gl (create_default E (filter_of_smooth gl)) in
    match filter_chain gl with
    | None => gl_ret (false, gl)
    | Some _ => gl_ret (true, gl)
    end.

(** *** [gl_core_init_filter_chain_preset]

    The null pointer of [gl_core_filter_chain_create_from_preset] is a
    value here, not a failure of this function. *)
Definition gl_core_init_filter_chain_preset (gl : gl_core_t)
    (shader_path : string) : GL (bool * gl_core_t) :=
  fun c =>
    match gl_core_filter_chain_create_from_preset E shader_path
            (filter_of_smooth gl) c with
    | (Done chain, c') => (Done (true, set_filter_chain gl (Some chain)), c')
    | (Failed, c') => (Done (false, set_filter_chain gl None), c')
    | (Undefined, c') => (Undefined, c')
    end.

(** *** [gl_core_init_filter_chain] *)
Definition gl_core_init_filter_chain (gl : gl_core_t)
  : GL (bool * gl_core_t) :=
  let shader_path := retroarch_get_shader_preset F in
  let type := video_shader_parse_type F shader_path in
  if decide (type = RARCH_SHADER_NONE) then
    gl_core_init_default_filter_chain gl
  else if decide (type ≠ RARCH_SHADER_SLANG) then
    gl_core_init_default_filter_chain gl
  else
    match shader_path with
    | None =>
        do r <- gl_core_init_default_filter_chain gl;
        gl_ret (true, snd r)
    | Some path =>
        do r <- gl_core_init_filter_chain_preset gl path;
        if fst r then gl_ret (true, snd r)
        else
          do r' <- gl_core_init_default_filter_chain (snd r);
          gl_ret (true, snd r')
    end.

(** *** [gl_core_set_shader]; [data] is null when [None]. *)
Definition gl_core_set_shader (data : option gl_core_t)
    (type : rarch_shader_type) (path : option string)
  : GL (bool * option gl_core_t) :=
  match data with
  | None => gl_ret (false, None)
  | Some gl =>
      let path :=
        if bool_decide (type ≠ RARCH_SHADER_SLANG) && bool_decide (is_Some path)
        then None else path in
      do_ (if bool_decide (is_Some (filter_chain gl))
           then call filter_chain_free else gl_ret tt);
      let gl := set_filter_chain gl None in
      match path with
      | None =>
          do r <- gl_core_init_default_filter_chain gl;
          gl_ret (true, Some (snd r))
      | Some path =>
          do r <- gl_core_init_filter_chain_preset gl path;
          if negb (fst r) then
            do r' <- gl_core_init_default_filter_chain (snd r);
            gl_ret (false, Some (snd r'))
          else gl_ret (true, Some (snd r))
      end
  end.

(** *** [gl_core_update_cpu_texture] *)
Definition gl_core_update_cpu_texture (gl : gl_core_t)
    (streamed : gl_core_streamed_texture) (frame : pixels)
    (width0 height0 pitch : Z) : GL gl_core_streamed_texture :=
  do streamed <-
    (if bool_decide (width0 ≠ streamed_width streamed)
        || bool_decide (height0 ≠ streamed_height streamed)
     then
       do_ (if bool_decide (tex streamed ≠ 0)
            then call (glDeleteTextures (tex streamed)) else gl_ret tt);
       do name <- gen_texture;
       do_ call (glBindTexture GL_TEXTURE_2D name);
       do_ call (glTexStorage2D GL_TEXTURE_2D 1
                   (if rgb32 (video_info gl) then GL_RGBA8 else GL_RGB565)
                   width0 height0);
       do_ (if rgb32 (video_info gl) then
              do_ call (glTexParameteri GL_TEXTURE_2D GL_TEXTURE_SWIZZLE_R
                          GL_BLUE);
              call (glTexParameteri GL_TEXTURE_2D GL_TEXTURE_SWIZZLE_B
                      GL_RED)
            else gl_ret tt);
       gl_ret {| tex := name; streamed_width := width0;
                 streamed_height := height0 |}
     else
       do_ call (glBindTexture GL_TEXTURE_2D (tex streamed));
       gl_ret streamed);
  do_ call (glBindBuffer GL_PIXEL_UNPACK_BUFFER 0);
  do_ (if rgb32 (video_info gl) then
         do_ call (glPixelStorei GL_UNPACK_ROW_LENGTH (Z.shiftr pitch 2));
         do_ call (glPixelStorei GL_UNPACK_ALIGNMENT 4);
         call (glTexSubImage2D GL_TEXTURE_2D 0 0 0 width0 height0
                 GL_RGBA GL_UNSIGNED_BYTE frame)
       else
         do_ call (glPixelStorei GL_UNPACK_ROW_LENGTH (Z.shiftr pitch 1));
         do_ call (glPixelStorei GL_UNPACK_ALIGNMENT 2);
         call (glTexSubImage2D GL_TEXTURE_2D 0 0 0 width0 height0
                 GL_RGB GL_UNSIGNED_SHORT_5_6_5 frame));
  gl_ret streamed.

(** *** [gl_core_frame]

    [gl->textures[gl->textures_index]] outside the array, and a call
    through a null [gl->filter_chain], have no defined behaviour. *)
Definition gl_core_frame (data : option gl_core_t) (frame : pixels)
    (frame_width frame_height : Z) (frame_count : Z) (pitch : Z)
    (msg : string) (video_info0 : video_frame_info_t)
  : GL (bool * option gl_core_t) :=
  match data with
  | None => gl_ret (false, None)
  | Some gl =>
      let slot := Z.to_nat (textures_index gl) in
      match textures gl !! slot with
      | None => gl_undefined
      | Some streamed =>
          do streamed <- gl_core_update_cpu_texture gl streamed frame
                           frame_width frame_height pitch;
          let gl := set_textures gl (<[slot := streamed]> (textures gl)) in
          do gl <- gl_core_set_viewport gl video_info0
                     (info_width video_info0) (info_height video_info0)
                     false true;
          let texture :=
            {| tex_image := tex streamed;
               tex_width := streamed_width streamed;
               tex_height := streamed_height streamed;
               tex_format :=
                 if rgb32 (video_info gl) then GL_RGBA8 else GL_RGB565 |} in
          match filter_chain gl with
          | None => gl_undefined
          | Some chain =>
              do chain <- chain_set_input_texture chain texture;
              do chain <- chain_build_offscreen_passes chain
                            (filter_chain_vp gl);
              do_ call (glBindFramebuffer GL_FRAMEBUFFER 0);
              do_ call glClearColor;
              do_ call (glClear GL_COLOR_BUFFER_BIT);
              do chain <- chain_build_viewport_pass chain
                            (filter_chain_vp gl) (mvp_yflip gl);
              do chain <- chain_end_frame chain;
              let gl := set_filter_chain gl (Some chain) in
              do_ call cb_update_window_title;
              do_ call cb_swap_buffers;
              let gl :=
                set_textures_index gl
                  (Z.land (wrap32 (textures_index gl + 1))
                          (GL_CORE_NUM_TEXTURES - 1)) in
              gl_ret (true, Some gl)
          end
      end
  end.

(** *** [video_texture_load_gl_core] *)
Definition video_texture_load_gl_core (ti : texture_image)
    (filter_type : texture_filter_type) : GL GLuint :=
  do name <- gen_texture;
  do_ call (glBindTexture GL_TEXTURE_2D name);
  let levels :=
    match filter_type with
    | TEXTURE_FILTER_MIPMAP_LINEAR | TEXTURE_FILTER_MIPMAP_NEAREST =>
        driver_num_miplevels (image_width ti) (image_height ti)
    | _ => 1
    end in
  do_ call (glTexStorage2D GL_TEXTURE_2D levels GL_RGBA8
              (image_width ti) (image_height ti));
  do_ call (glTexParameteri GL_TEXTURE_2D GL_TEXTURE_WRAP_S
              GL_CLAMP_TO_EDGE);
  do_ call (glTexParameteri GL_TEXTURE_2D GL_TEXTURE_WRAP_T
              GL_CLAMP_TO_EDGE);
  let '(mag_filter, min_filter) :=
    match filter_type with
    | TEXTURE_FILTER_LINEAR => (GL_LINEAR, GL_LINEAR)
    | TEXTURE_FILTER_NEAREST => (GL_NEAREST, GL_NEAREST)
    | TEXTURE_FILTER_MIPMAP_NEAREST => (GL_LINEAR, GL_LINEAR_MIPMAP_NEAREST)
    | TEXTURE_FILTER_MIPMAP_LINEAR => (GL_LINEAR, GL_LINEAR_MIPMAP_LINEAR)
    end in
  do_ call (glTexParameteri GL_TEXTURE_2D GL_TEXTURE_MAG_FILTER mag_filter);
  do_ call (glTexParameteri GL_TEXTURE_2D GL_TEXTURE_MIN_FILTER min_filter);
  do_ call (glPixelStorei GL_UNPACK_ALIGNMENT 4);
  do_ call (glPixelStorei GL_UNPACK_ROW_LENGTH 0);
  do_ call (glTexSubImage2D GL_TEXTURE_2D 0 0 0
              (image_width ti) (image_height ti)
              GL_RGBA GL_UNSIGNED_BYTE (image_pixels ti));
  do_ (if 1 <? levels then call (glGenerateMipmap GL_TEXTURE_2D)
       else gl_ret tt);
  do_ call (glBindTexture GL_TEXTURE_2D 0);
  gl_ret name.
End Driver.

(** ** [Framebuffer] and the sizing of a [Pass]

    Modelled from the spec: [Framebuffer::set_size], [Pass::set_pass_info]
    and [Pass::get_output_size] are declared in shader_gl_core.cpp but their
    bodies are not part of the sources.  "setSize(size,
    optionalFormatOverride): no-op if size and format are unchanged;
    otherwise releases the old GPU image/surface binding and allocates a
    new one sized exactly to size".  "setPassInfo(maxOriginalSize,
    maxSourceSize, config) computes and returns this pass's OutputSize
    using the rule table ... Builds or resizes its own Framebuffer to
    OutputSize unless this is the terminal/viewport pass."  The scale
    factors are the [float]s of [gl_core_filter_chain_pass_info]; sizes
    are [unsigned]. *)
Module PassSizing.
Local Open Scope gl_scope.

Record Framebuffer : Type := {
  image : GLuint;
  size : Size2D;
  format : GLenum;
  fb_max_levels : Z;
  levels : Z
}.

#[global] Instance Size2D_eq_dec : EqDecision Size2D.
Proof. solve_decision. Defined.

(** Allocate the image of a framebuffer: one texture with its storage. *)
Definition Framebuffer_init (sz : Size2D) (fmt : GLenum) (max_lv : Z)
  : GL Framebuffer :=
  let lv :=
    if 1 <? max_lv then Z.min (num_miplevels (width sz) (height sz)) max_lv
    else 1 in
  do name <- gen_texture;
  do_ call (glBindTexture GL_TEXTURE_2D name);
  do_ call (glTexStorage2D GL_TEXTURE_2D lv fmt (width sz) (height sz));
  do_ call (glBindTexture GL_TEXTURE_2D 0);
  gl_ret {| image := name; size := sz; format := fmt;
            fb_max_levels := max_lv; levels := lv |}.

(** [Framebuffer::set_size(size, format = 0)] *)
Definition Framebuffer_set_size (fb : Framebuffer) (sz : Size2D)
    (fmt : GLenum) : GL Framebuffer :=
  let fmt' := if decide (fmt = GL_ZERO_ENUM) then format fb else fmt in
  if bool_decide (sz = size fb) && bool_decide (fmt' = format fb)
  then gl_ret fb
  else
    do_ call (glDeleteTextures (image fb));
    Framebuffer_init sz fmt' (fb_max_levels fb).

(** The members of [Pass] that sizing reads and writes. *)
Record PassState : Type := {
  final_pass : bool;
  pass_info_of_pass : option gl_core_filter_chain_pass_info;
  current_framebuffer_size : Size2D;
  current_viewport : gl_core_viewport;
  framebuffer : option Framebuffer
}.

(** One axis of the rule table. *)
Definition scaled (type : gl_core_filter_chain_scale) (scale : float)
    (source viewport : Z) : option Z :=
  match type with
  | GL_CORE_FILTER_CHAIN_SCALE_SOURCE =>
      Float32.round_to_unsigned
        (Float32.mul (Float32.of_unsigned source) scale)
  | GL_CORE_FILTER_CHAIN_SCALE_VIEWPORT =>
      Float32.round_to_unsigned
        (Float32.mul (Float32.of_unsigned viewport) scale)
  | GL_CORE_FILTER_CHAIN_SCALE_ABSOLUTE => Float32.round_to_unsigned scale
  | GL_CORE_FILTER_CHAIN_SCALE_ORIGINAL => Some viewport
  end.

(** [Pass::get_output_size] *)
Definition get_output_size (p : PassState)
    (info : gl_core_filter_chain_pass_info)
    (original_size max_source : Size2D) : option Size2D :=
  w ← scaled (scale_type_x info) (scale_x info) (width max_source)
             (vp_width (current_viewport p));
  h ← scaled (scale_type_y info) (scale_y info) (height max_source)
             (vp_height (current_viewport p));
  Some {| width := w; height := h |}.

(** [Pass::set_pass_info] *)
Definition set_pass_info (p : PassState) (max_original max_source : Size2D)
    (info : gl_core_filter_chain_pass_info) : GL (Size2D * PassState) :=
  match get_output_size p info max_original max_source with
  | None => gl_undefined
  | Some sz =>
      do fb <-
        (if final_pass p then gl_ret None
         else
           match framebuffer p with
           | Some fb =>
               do fb' <- Framebuffer_set_size fb sz (rt_format info);
               gl_ret (Some fb')
           | None =>
               do fb' <- Framebuffer_init sz (rt_format info)
                           (max_levels info);
               gl_ret (Some fb')
           end);
      gl_ret (sz,
              {| final_pass := final_pass p;
                 pass_info_of_pass := Some info;
                 current_framebuffer_size := sz;
                 current_viewport := current_viewport p;
                 framebuffer := fb |})
  end.
End PassSizing.

(** ** Observing a run *)

(** The calls a computation issues when started in context [c]. *)
Definition calls_of {A} (m : GL A) (c : gl_context) : list extern_call :=
  drop (length (gl_calls c)) (gl_calls (snd (m c))).

(** Whether a run handed back a value, or the null pointer. *)
Definition returns_value {A} (r : result A * gl_context) : bool :=
  match fst r with Done _ => true | _ => false end.

Definition returns_null {A} (r : result A * gl_context) : bool :=
  match fst r with Failed => true | _ => false end.

(** The level counts of the texture storages allocated in a log. *)
Definition storage_levels (log : list extern_call) : list Z :=
  omap (fun e => match e with
                 | glTexStorage2D _ levels _ _ _ => Some levels
                 | _ => None
                 end) log.

(** The calls into the filter chain's entry points in a log. *)
Definition is_chain_call (e : extern_call) : bool :=
  match e with
  | filter_chain_free | filter_chain_set_input_texture _ _ _ _
  | filter_chain_build_offscreen_passes | filter_chain_build_viewport_pass
  | filter_chain_end_frame => true
  | _ => false
  end.

Definition chain_calls (log : list extern_call) : list extern_call :=
  List.filter is_chain_call log.

(** Draws recorded by passes, and texture bindings. *)
Definition is_pass_call (e : extern_call) : bool :=
  match e with pass_build_commands _ => true | _ => false end.

Definition is_bind_texture (e : extern_call) : bool :=
  match e with glBindTexture _ _ => true | _ => false end.

(** ** Consecutive frames *)

(** The arguments of one call of the frame callback. *)
Record frame_args : Type := {
  arg_frame : pixels;
  arg_width : Z;
  arg_height : Z;
  arg_frame_count : Z;
  arg_pitch : Z;
  arg_msg : string;
  arg_info : video_frame_info_t
}.

(** The frontend calling [gl_core_frame] once per element of [inputs], on
    the same handle; the result lists, per frame, the slot of
    [gl->textures] the frame streamed into. *)
Fixpoint gl_core_frames (F : frontend) (gl : gl_core_t F)
    (inputs : list frame_args) : GL (list nat * gl_core_t F) :=
  match inputs with
  | [] => gl_ret ([], gl)
  | a :: inputs' =>
      gl_bind
        (gl_core_frame F (Some gl) (arg_frame a) (arg_width a) (arg_height a)
           (arg_frame_count a) (arg_pitch a) (arg_msg a) (arg_info a))
        (fun r =>
           match snd r with
           | Some gl' =>
               gl_bind (gl_core_frames F gl' inputs')
                 (fun r' =>
                    gl_ret (Z.to_nat (textures_index F gl) :: fst r', snd r'))
           | None => gl_fail
           end)
  end.

(** One presented frame as the history sees it: the input texture is
    recorded, and [end_frame] moves it into the ring. *)
Definition present (f : chain_frame_state) (t : gl_core_filter_chain_texture)
  : chain_frame_state :=
  update_history
    {| input_texture := Some t;
       history_capacity := history_capacity f;
       original_history := original_history f |}.

(** ** The parameter table on its own

    What the [#pragma parameter] loop does to [shader->parameters], with
    the chain left out: used to follow the table across passes. *)
Section ParameterTable.
Context (E : collaborators).

Definition table_step (table : list video_shader_parameter)
    (meta_param : glslang_parameter) : option (list video_shader_parameter) :=
  if GFX_MAX_PARAMETERS E <=? Z.of_nat (length table) then None
  else
    match list_find (fun param => meta_id meta_param = id param) table with
    | Some (_, itr) =>
        if parameter_mismatch meta_param itr then None else Some table
    | None => Some (table ++ [new_parameter E meta_param])
    end.

Fixpoint table_run (table : list video_shader_parameter)
    (metas : list glslang_parameter) : option (list video_shader_parameter) :=
  match metas with
  | [] => Some table
  | m :: metas' =>
      match table_step table m with
      | Some table' => table_run table' metas'
      | None => None
      end
  end.

(** The parameters a pass declares: those of its compiled shader. *)
Definition declared_by (p : video_shader_pass) : list glslang_parameter :=
  match glslang_compile_shader E (source_path p) with
  | Some output => meta_parameters (meta output)
  | None => []
  end.

(** All declarations of a preset, in the order the loader meets them. *)
Definition all_declared (shader : video_shader) : list glslang_parameter :=
  flat_map declared_by (pass shader).

(** An id or description that [strlcpy] stores whole. *)
Definition fits (meta_param : glslang_parameter) : Prop :=
  (String.length (meta_id meta_param) < sizeof_id E)%nat
  /\ (String.length (meta_desc meta_param) < sizeof_desc E)%nat.

(** The five fields agree: the descriptions are the same string and the
    four numbers compare equal as [float]s. *)
Definition same_arguments (a b : glslang_parameter) : Prop :=
  meta_desc a = meta_desc b
  /\ Float32.eqb (meta_initial a) (meta_initial b) = true
  /\ Float32.eqb (meta_minimum a) (meta_minimum b) = true
  /\ Float32.eqb (meta_maximum a) (meta_maximum b) = true
  /\ Float32.eqb (meta_step a) (meta_step b) = true.
End ParameterTable.

(** ** Malformed presets

    The ways a preset can be unusable before [init] is reached: the file
    is missing or unreadable, its contents are rejected by the preset
    reader, a shader of a pass does not compile, or a parameter is declared
    again with a different [minimum] than its first declaration. *)
Inductive malformed (E : collaborators) (path : string) : Prop :=
| malformed_missing :
    config_file_new E path = None -> malformed E path
| malformed_config conf :
    config_file_new E path = Some conf ->
    video_shader_read_conf_cgp E conf = None -> malformed E path
| malformed_shader conf shader0 p :
    config_file_new E path = Some conf ->
    video_shader_read_conf_cgp E conf = Some shader0 ->
    p ∈ pass (video_shader_resolve_relative E shader0 path) ->
    glslang_compile_shader E (source_path p) = None -> malformed E path
| malformed_parameter conf shader0 pre d1 mid d2 post :
    config_file_new E path = Some conf ->
    video_shader_read_conf_cgp E conf = Some shader0 ->
    all_declared E (video_shader_resolve_relative E shader0 path)
      = pre ++ d1 :: mid ++ d2 :: post ->
    Forall (fun m => (String.length (meta_id m) < sizeof_id E)%nat)
           (all_declared E (video_shader_resolve_relative E shader0 path)) ->
    Forall (fun d => meta_id d ≠ meta_id d1) pre ->
    meta_id d2 = meta_id d1 ->
    Float32.neqb (meta_minimum d2) (meta_minimum d1) = true ->
    malformed E path.

(** ** More entry points of the driver ([gfx/drivers/gl_core.c])

    The functions of [video_gl_core] and of its poke interface that sit
    beside the frame callback: rotation, the viewport wrapper and the
    viewport query, the window poll, texture loading and unloading, and
    the release of the handle. *)

Section DriverEntryPoints.
Context (F : frontend).

Local Open Scope gl_scope.

(** The members [gl_core_set_rotation] assigns: [rotation], and through
    [gl_core_set_projection] the three matrices. *)
Definition set_rotation (gl : gl_core_t F) (r : Z) : gl_core_t F :=
  {| ctx_driver := ctx_driver F gl; filter_chain := filter_chain F gl;
     video_info := video_info F gl; keep_aspect := keep_aspect F gl;
     vp := vp F gl; filter_chain_vp := filter_chain_vp F gl;
     vp_out_width := vp_out_width F gl; vp_out_height := vp_out_height F gl;
     mvp := mvp F gl; mvp_yflip := mvp_yflip F gl;
     mvp_no_rot := mvp_no_rot F gl; rotation := r;
     textures := textures F gl; textures_index := textures_index F gl |}.

Definition set_matrices (gl : gl_core_t F)
    (m : math_matrix_4x4 F * math_matrix_4x4 F * math_matrix_4x4 F)
  : gl_core_t F :=
  {| ctx_driver := ctx_driver F gl; filter_chain := filter_chain F gl;
     video_info := video_info F gl; keep_aspect := keep_aspect F gl;
     vp := vp F gl; filter_chain_vp := filter_chain_vp F gl;
     vp_out_width := vp_out_width F gl; vp_out_height := vp_out_height F gl;
     mvp := fst (fst m); mvp_yflip := snd m;
     mvp_no_rot := snd (fst m); rotation := rotation F gl;
     textures := textures F gl; textures_index := textures_index F gl |}.

(** *** [gl_core_set_rotation]; [data] is null when [None]. *)
Definition gl_core_set_rotation (data : option (gl_core_t F)) (rotation0 : Z)
  : option (gl_core_t F) :=
  match data with
  | None => None
  | Some gl =>
      let gl := set_rotation gl (wrap32 (90 * rotation0)) in
      Some (set_matrices gl (gl_core_set_projection F gl true))
  end.

(** *** [gl_core_set_viewport_wrapper]

    [build_info] is what [video_driver_build_info] fills in.  The handle is
    used without a null check. *)
Definition gl_core_set_viewport_wrapper (data : option (gl_core_t F))
    (build_info : video_frame_info_t) (width0 height0 : Z)
    (force_full allow_rotate : bool) : GL (gl_core_t F) :=
  match data with
  | None => gl_undefined
  | Some gl =>
      gl_core_set_viewport F gl build_info width0 height0 force_full
        allow_rotate
  end.

(** [struct video_viewport] as [gl_core_viewport_info] fills it: the four
    members of [gl->vp] modelled above and the full size. *)
Record video_viewport_report : Type := {
  reported : video_viewport_t;
  full_width : Z;
  full_height : Z
}.

(** *** [gl_core_viewport_info]

    [size] is what [video_driver_get_size] returns.  [top_y] and
    [top_dist] are [unsigned]; [vp->y] is an [int]. *)
Definition gl_core_viewport_info (gl : gl_core_t F) (size : Z * Z)
  : video_viewport_report :=
  let v := vp F gl in
  (* Adjust as GL viewport is bottom-up. *)
  let top_y := wrap32 (y v + viewport_height v) in
  let top_dist := wrap32 (snd size - top_y) in
  {| reported :=
       {| x := x v; y := to_int top_dist;
          viewport_width := viewport_width v;
          viewport_height := viewport_height v |};
     full_width := fst size;
     full_height := snd size |}.

(** *** [gl_core_unload_texture]; [id] is a [uintptr_t]. *)
Definition gl_core_unload_texture (id0 : Z) : GL unit :=
  if id0 =? 0 then gl_ret tt
  else call (glDeleteTextures (wrap32 id0)).

(** *** [video_texture_load_wrap_gl_core_mipmap] and
    [video_texture_load_wrap_gl_core] (with [HAVE_THREADS]); [data] is null
    when [None]. *)
Definition video_texture_load_wrap_gl_core_mipmap
    (data : option texture_image) : GL Z :=
  match data with
  | None => gl_ret 0
  | Some ti =>
      do id0 <- video_texture_load_gl_core ti TEXTURE_FILTER_MIPMAP_LINEAR;
      gl_ret (to_int id0)
  end.

Definition video_texture_load_wrap_gl_core
    (data : option texture_image) : GL Z :=
  match data with
  | None => gl_ret 0
  | Some ti =>
      do id0 <- video_texture_load_gl_core ti TEXTURE_FILTER_LINEAR;
      gl_ret (to_int id0)
  end.

(** *** [gl_core_load_texture]

    [video_thread_texture_load] runs the function it is handed on the
    video thread and returns what it returned.  Without threads the image
    is read through the pointer with no null check, after the texture name
    was generated. *)
Definition gl_core_load_texture (HAVE_THREADS : bool)
    (video_thread_texture_load :
       option texture_image -> (option texture_image -> GL Z) -> GL Z)
    (data : option texture_image) (threaded : bool)
    (filter_type : texture_filter_type) : GL Z :=
  if HAVE_THREADS && threaded then
    let func :=
      match filter_type with
      | TEXTURE_FILTER_MIPMAP_LINEAR | TEXTURE_FILTER_MIPMAP_NEAREST =>
          video_texture_load_wrap_gl_core_mipmap
      | _ => video_texture_load_wrap_gl_core
      end in
    video_thread_texture_load data func
  else
    match data with
    | None => do_ gen_texture; gl_undefined
    | Some ti => video_texture_load_gl_core ti filter_type
    end.

(** The window members of [gl_core_t], which the functions above leave
    alone. *)
Record gl_core_window : Type := {
  vsync : bool;
  fullscreen : bool;
  quitting : bool;
  should_resize : bool
}.

(** What [ctx_driver->check_window] leaves in its four out-parameters. *)
Record window_check : Type := {
  quit : bool;
  resize : bool;
  temp_width : Z;
  temp_height : Z
}.

(** *** [gl_core_alive]

    [size] is what [video_driver_get_size] returns; [check_window] is
    handed that size and [is_shutdown].  The result is the return value,
    the handle, and the size passed to [video_driver_set_size] if it is
    called. *)
Definition gl_core_alive (gl : gl_core_window) (is_shutdown : bool)
    (size : Z * Z) (check_window : Z * Z -> bool -> window_check)
  : bool * gl_core_window * option (Z * Z) :=
  let c := check_window size is_shutdown in
  let gl :=
    if quit c then
      {| vsync := vsync gl; fullscreen := fullscreen gl; quitting := true;
         should_resize := should_resize gl |}
    else if resize c then
      {| vsync := vsync gl; fullscreen := fullscreen gl;
         quitting := quitting gl; should_resize := true |}
    else gl in
  let ret := negb (quitting gl) in
  (ret, gl,
   if bool_decide (temp_width c ≠ 0) && bool_decide (temp_height c ≠ 0)
   then Some (temp_width c, temp_height c) else None).

(** The programs of [gl->pipelines], and the other GL objects the later
    revision of the handle owns. *)
Record gl_core_pipelines : Type := {
  alpha_blend : GLuint;
  font : GLuint;
  ribbon : GLuint;
  ribbon_simple : GLuint;
  snow_simple : GLuint;
  snow : GLuint;
  bokeh : GLuint
}.

Record gl_core_objects : Type := {
  vao : GLuint;
  menu_texture : GLuint;
  pipelines : gl_core_pipelines
}.

(** Calls made while a handle is released: those of the log above, and
    the ones only teardown makes. *)
Inductive teardown_call : Type :=
| logged (e : extern_call)
| glBindVertexArray (array : GLuint)
| glDeleteVertexArrays (array : GLuint)
| glDeleteProgram (program : GLuint)
| free_gl
| font_driver_free_osd
| video_context_driver_free.

Definition delete_program (program : GLuint) : list teardown_call :=
  if bool_decide (program ≠ 0) then [glDeleteProgram program] else [].

(** *** [gl_core_destroy_resources] (the later revision; the earlier one
    stops before [menu_texture]); [gl] is null when [None]. *)
Definition gl_core_destroy_resources
    (data : option (gl_core_t F * gl_core_objects)) : list teardown_call :=
  match data with
  | None => []
  | Some (gl, o) =>
      (if bool_decide (is_Some (filter_chain F gl))
       then [logged filter_chain_free] else [])
      ++ [glBindVertexArray 0]
      ++ (if bool_decide (vao o ≠ 0) then [glDeleteVertexArrays (vao o)]
          else [])
      ++ flat_map
           (fun t => if bool_decide (tex t ≠ 0)
                     then [logged (glDeleteTextures (tex t))] else [])
           (take (Z.to_nat GL_CORE_NUM_TEXTURES) (textures F gl))
      ++ (if bool_decide (menu_texture o ≠ 0)
          then [logged (glDeleteTextures (menu_texture o))] else [])
      ++ delete_program (alpha_blend (pipelines o))
      ++ delete_program (font (pipelines o))
      ++ delete_program (ribbon (pipelines o))
      ++ delete_program (ribbon_simple (pipelines o))
      ++ delete_program (snow_simple (pipelines o))
      ++ delete_program (snow (pipelines o))
      ++ delete_program (bokeh (pipelines o))
      ++ [free_gl]
  end.

(** *** [gl_core_free] *)
Definition gl_core_free (data : option (gl_core_t F * gl_core_objects))
  : list teardown_call :=
  match data with
  | None => []
  | Some _ =>
      [font_driver_free_osd; video_context_driver_free]
      ++ gl_core_destroy_resources data
  end.
End DriverEntryPoints.

(** The SPIR-V tables [gl_core_init_pipelines] includes. *)
Inductive pipeline_shader : Type :=
| alpha_blend_vert | alpha_blend_frag | font_frag
| pipeline_ribbon_vert | pipeline_ribbon_frag
| pipeline_ribbon_simple_vert | pipeline_ribbon_simple_frag
| pipeline_snow_simple_frag | pipeline_snow_frag | pipeline_bokeh_frag.

(** [calloc]'s [gl->pipelines]. *)
Definition no_pipelines : gl_core_pipelines :=
  {| alpha_blend := 0; font := 0; ribbon := 0; ribbon_simple := 0;
     snow_simple := 0; snow := 0; bokeh := 0 |}.

(** *** [gl_core_init_pipelines]

    [compile vert frag] is the program [gl_core_cross_compile_program]
    returns for the two tables, 0 when it fails.  The result is the return
    value, [gl->pipelines], and the programs the calls returned, in the
    order of the calls. *)
Definition gl_core_init_pipelines
    (compile : pipeline_shader -> pipeline_shader -> GLuint)
    (p : gl_core_pipelines) : bool * gl_core_pipelines * list GLuint :=
  let a := compile alpha_blend_vert alpha_blend_frag in
  let p := {| alpha_blend := a; font := font p; ribbon := ribbon p;
              ribbon_simple := ribbon_simple p; snow_simple := snow_simple p;
              snow := snow p; bokeh := bokeh p |} in
  if a =? 0 then (false, p, [a]) else
  let f := compile alpha_blend_vert font_frag in
  let p := {| alpha_blend := alpha_blend p; font := f; ribbon := ribbon p;
              ribbon_simple := ribbon_simple p; snow_simple := snow_simple p;
              snow := snow p; bokeh := bokeh p |} in
  if f =? 0 then (false, p, [a; f]) else
  let rs := compile pipeline_ribbon_simple_vert pipeline_ribbon_simple_frag in
  let p := {| alpha_blend := alpha_blend p; font := font p;
              ribbon := ribbon p; ribbon_simple := rs;
              snow_simple := snow_simple p; snow := snow p;
              bokeh := bokeh p |} in
  if rs =? 0 then (false, p, [a; f; rs]) else
  let r := compile pipeline_ribbon_vert pipeline_ribbon_frag in
  let p := {| alpha_blend := alpha_blend p; font := font p; ribbon := r;
              ribbon_simple := ribbon_simple p; snow_simple := snow_simple p;
              snow := snow p; bokeh := bokeh p |} in
  if r =? 0 then (false, p, [a; f; rs; r]) else
  let b := compile alpha_blend_vert pipeline_bokeh_frag in
  let p := {| alpha_blend := alpha_blend p; font := font p;
              ribbon := ribbon p; ribbon_simple := ribbon_simple p;
              snow_simple := snow_simple p; snow := snow p; bokeh := b |} in
  if b =? 0 then (false, p, [a; f; rs; r; b]) else
  let ss := compile alpha_blend_vert pipeline_snow_simple_frag in
  let p := {| alpha_blend := alpha_blend p; font := font p;
              ribbon := ribbon p; ribbon_simple := ribbon_simple p;
              snow_simple := ss; snow := snow p; bokeh := bokeh p |} in
  if ss =? 0 then (false, p, [a; f; rs; r; b; ss]) else
  let s := compile alpha_blend_vert pipeline_snow_frag in
  let p := {| alpha_blend := alpha_blend p; font := font p;
              ribbon := ribbon p; ribbon_simple := ribbon_simple p;
              snow_simple := snow_simple p; snow := s; bokeh := bokeh p |} in
  if s =? 0 then (false, p, [a; f; rs; r; b; ss; s]) else
  (true, p, [a; f; rs; r; b; ss; s]).

(** The programs a release deletes. *)
Definition deleted_programs (l : list teardown_call) : list GLuint :=
  omap (fun c => match c with glDeleteProgram p => Some p | _ => None end) l.

(** The texture names a log has generated and not deleted. *)
Definition live_step (names : gset Z) (e : extern_call) : gset Z :=
  match e with
  | glGenTextures n => {[n]} ∪ names
  | glDeleteTextures n => names ∖ {[n]}
  | _ => names
  end.

Definition live_textures (log : list extern_call) : gset Z :=
  foldl live_step ∅ log.

(** The calls of a release that the GL log records. *)
Definition logged_calls (l : list teardown_call) : list extern_call :=
  omap (fun c => match c with logged e => Some e | _ => None end) l.

(** Whether a call allocates or releases texture storage. *)
Definition is_texture_allocation (e : extern_call) : bool :=
  match e with
  | glGenTextures _ | glDeleteTextures _ | glTexStorage2D _ _ _ _ _ => true
  | _ => false
  end.

(** The frontend polling [gl_core_alive] once per element of [checks]. *)
Fixpoint gl_core_alive_polls (gl : gl_core_window)
    (checks : list window_check) : list bool :=
  match checks with
  | [] => []
  | c :: checks' =>
      let '(ret, gl', _) := gl_core_alive gl false (0, 0) (fun _ _ => c) in
      ret :: gl_core_alive_polls gl' checks'
  end.

(** ** Concrete collaborators for worked examples *)

Fixpoint assoc {A} (key : string) (table : list (string * A)) : option A :=
  match table with
  | [] => None
  | (k, a) :: table' => if String.eqb key k then Some a else assoc key table'
  end.

(** A frontend in which a config file is the preset it describes (one
    without passes is rejected by the reader), paths are already resolved,
    and shaders, images, the parameter limit, the outcome of [init] and the
    stock chain are given by tables and constants. *)
Definition demo_collaborators
    (presets : list (string * video_shader))
    (shaders : list (string * glslang_output))
    (images : list (string * texture_image))
    (max_parameters : Z) (history : option nat)
    (stock : option gl_core_filter_chain) : collaborators :=
  {| config_file_t := video_shader;
     config_file_new := fun path => assoc path presets;
     video_shader_read_conf_cgp :=
       fun conf => match pass conf with [] => None | _ => Some conf end;
     video_shader_resolve_relative := fun shader _ => shader;
     video_shader_resolve_current_parameters := fun _ shader => Some shader;
     image_texture_load := fun path => assoc path images;
     glslang_compile_shader := fun path => assoc path shaders;
     GFX_MAX_PARAMETERS := max_parameters;
     sizeof_id := 64;
     sizeof_desc := 64;
     opaque_vert := [119734787; 1];
     opaque_frag := [119734787; 2];
     chain_init := fun _ => history;
     create_default := fun _ => stock |}.

Definition demo_frontend : frontend :=
  {| math_matrix_4x4 := list float;
     matrix_zero := [];
     matrix_4x4_ortho_default := [];
     matrix_4x4_rotate_z := fun _ => [];
     matrix_4x4_multiply := fun a _ => a;
     matrix_negate_row1 := fun a => a;
     video_context_driver_translate_aspect := fun a _ _ => a;
     video_viewport_get_scaled_integer := fun v _ _ _ _ => v;
     video_driver_get_aspect_ratio := Float32.one;
     ASPECT_RATIO_CUSTOM := 23;
     retroarch_get_shader_preset := None;
     video_shader_parse_type := fun _ => RARCH_SHADER_NONE;
     HAVE_MENU := false;
     RARCH_MOBILE := false |}.

Definition empty_context : gl_context :=
  {| gl_next_name := 1; gl_calls := [] |}.

Definition demo_image (w h : Z) : texture_image :=
  {| image_width := w; image_height := h; image_pixels := [] |}.

Definition demo_lut (path : string) (mip : bool) : video_shader_lut :=
  {| lut_id := "LUT"; lut_path := path; lut_filter := RARCH_FILTER_LINEAR;
     lut_wrap := RARCH_WRAP_EDGE; lut_mipmap := mip |}.

Definition no_fbo : gfx_fbo_scale :=
  {| fp_fbo := false; srgb_fbo := false; type_x := RARCH_SCALE_INPUT;
     type_y := RARCH_SCALE_INPUT; fbo_scale_x := Float32.one;
     fbo_scale_y := Float32.one; abs_x := 0; abs_y := 0; valid := false |}.

Definition source_fbo (scale : float) : gfx_fbo_scale :=
  {| fp_fbo := false; srgb_fbo := false; type_x := RARCH_SCALE_INPUT;
     type_y := RARCH_SCALE_INPUT; fbo_scale_x := scale;
     fbo_scale_y := scale; abs_x := 0; abs_y := 0; valid := true |}.

Definition demo_pass (path : string) (f : gfx_fbo_scale) : video_shader_pass :=
  {| source_path := path; alias := ""; fbo := f;
     filter := RARCH_FILTER_UNSPEC; wrap := RARCH_WRAP_EDGE;
     frame_count_mod := 0; mipmap := false |}.

Definition demo_preset (ps : list video_shader_pass) : video_shader :=
  {| pass := ps; lut := []; parameters := [] |}.

Definition demo_parameter (name : string) (init : float) : glslang_parameter :=
  {| meta_id := name; meta_desc := "a parameter"; meta_initial := init;
     meta_minimum := Float32.zero; meta_maximum := Float32.one;
     meta_step := Float32.one |}.

(** Distinct two-letter parameter names: "Aa", "Ab", ... *)
Definition parameter_name (k : nat) : string :=
  String (ascii_of_nat (65 + k / 26))
    (String (ascii_of_nat (97 + k mod 26)) EmptyString).

Definition numbered_parameters (n : nat) : list glslang_parameter :=
  map (fun k => demo_parameter (parameter_name k) Float32.one) (seq 0 n).

Definition demo_output (ps : list glslang_parameter) : glslang_output :=
  {| vertex := [119734787; 10]; fragment := [119734787; 11];
     meta := {| meta_parameters := ps; meta_name := "";
                meta_rt_format := SLANG_FORMAT_UNKNOWN |} |}.

(** A chain of two configured passes with room for two history frames,
    and a driver handle holding it. *)
Definition demo_chain : gl_core_filter_chain :=
  let c := chain_set_shader new_gl_core_filter_chain 0 GL_VERTEX_SHADER [1] in
  let c := chain_set_shader c 0 GL_FRAGMENT_SHADER [2] in
  let c := chain_set_shader c 1 GL_VERTEX_SHADER [3] in
  let c := chain_set_shader c 1 GL_FRAGMENT_SHADER [4] in
  with_frame c {| input_texture := None; history_capacity := 2;
                  original_history := [] |}.

Definition demo_gl : gl_core_t demo_frontend :=
  let gl := gl_core_calloc demo_frontend in
  {| ctx_driver := true; filter_chain := Some demo_chain;
     video_info := {| smooth := true; rgb32 := true |};
     keep_aspect := false; vp := vp demo_frontend gl;
     filter_chain_vp := filter_chain_vp demo_frontend gl;
     vp_out_width := 0; vp_out_height := 0;
     mvp := mvp demo_frontend gl; mvp_yflip := mvp_yflip demo_frontend gl;
     mvp_no_rot := mvp_no_rot demo_frontend gl; rotation := 0;
     textures := textures demo_frontend gl; textures_index := 0 |}.

Definition demo_info : video_frame_info_t :=
  {| info_width := 1024; info_height := 768; scale_integer := false;
     aspect_ratio_idx := 0; custom_vp_x := 0; custom_vp_y := 0;
     custom_vp_width := 0; custom_vp_height := 0 |}.

Definition demo_args (data : pixels) : frame_args :=
  {| arg_frame := data; arg_width := 256; arg_height := 240;
     arg_frame_count := 0; arg_pitch := 1024; arg_msg := "";
     arg_info := demo_info |}.

(** A pass that renders to a framebuffer, not sized yet, under a 1024x768
    viewport; and the pass info "source size times [scale]". *)
Definition demo_pass_state : PassSizing.PassState :=
  {| PassSizing.final_pass := false;
     PassSizing.pass_info_of_pass := None;
     PassSizing.current_framebuffer_size := {| width := 0; height := 0 |};
     PassSizing.current_viewport :=
       {| vp_x := 0; vp_y := 0; vp_width := 1024; vp_height := 768 |};
     PassSizing.framebuffer := None |}.

Definition source_pass_info (scale : float) : gl_core_filter_chain_pass_info :=
  {| scale_type_x := GL_CORE_FILTER_CHAIN_SCALE_SOURCE;
     scale_type_y := GL_CORE_FILTER_CHAIN_SCALE_SOURCE;
     scale_x := scale; scale_y := scale; rt_format := GL_RGBA8;
     source_filter := GL_CORE_FILTER_CHAIN_LINEAR;
     mip_filter := GL_CORE_FILTER_CHAIN_NEAREST;
     address := GL_CORE_FILTER_CHAIN_ADDRESS_CLAMP_TO_EDGE;
     max_levels := 1 |}.

(** Further fixtures: the tracking of the ring of streamed textures by
    the GL log, a thread wrapper that runs its function on the caller, a
    frontend built with the menu and a handle that keeps the aspect, a
    custom viewport, and a frontend whose configured preset is a slang
    preset. *)

(** What ties the ring to the log: the live names are the non-zero names
    of the ring, no name sits in two slots, and every live name is older
    than the next fresh one. *)
Record ring_tracked (ts : list gl_core_streamed_texture) (names : gset Z)
    (next : Z) : Prop := {
  tracked_names :
    forall n, n ∈ names
              <-> n ≠ 0 /\ exists i t, ts !! i = Some t /\ tex t = n;
  tracked_once :
    forall i j ti tj,
      ts !! i = Some ti -> ts !! j = Some tj ->
      tex ti = tex tj -> tex ti ≠ 0 -> i = j;
  tracked_older : forall n, n ∈ names -> n < next;
  tracked_next : 0 < next
}.


Definition run_on_caller (data : option texture_image)
    (func : option texture_image -> GL Z) : GL Z := func data.


Definition menu_frontend : frontend :=
  {| math_matrix_4x4 := list float;
     matrix_zero := [];
     matrix_4x4_ortho_default := [];
     matrix_4x4_rotate_z := fun _ => [];
     matrix_4x4_multiply := fun a _ => a;
     matrix_negate_row1 := fun a => a;
     video_context_driver_translate_aspect := fun a _ _ => a;
     video_viewport_get_scaled_integer := fun v _ _ _ _ => v;
     video_driver_get_aspect_ratio := Float32.one;
     ASPECT_RATIO_CUSTOM := 23;
     retroarch_get_shader_preset := None;
     video_shader_parse_type := fun _ => RARCH_SHADER_NONE;
     HAVE_MENU := true;
     RARCH_MOBILE := false |}.

Definition menu_gl : gl_core_t menu_frontend :=
  let gl := gl_core_calloc menu_frontend in
  {| ctx_driver := true; filter_chain := Some demo_chain;
     video_info := {| smooth := true; rgb32 := true |};
     keep_aspect := true; vp := vp menu_frontend gl;
     filter_chain_vp := filter_chain_vp menu_frontend gl;
     vp_out_width := 0; vp_out_height := 0;
     mvp := mvp menu_frontend gl; mvp_yflip := mvp_yflip menu_frontend gl;
     mvp_no_rot := mvp_no_rot menu_frontend gl; rotation := 0;
     textures := textures menu_frontend gl; textures_index := 0 |}.

Definition custom_info : video_frame_info_t :=
  {| info_width := 1024; info_height := 768; scale_integer := false;
     aspect_ratio_idx := 23; custom_vp_x := 32; custom_vp_y := 24;
     custom_vp_width := 640; custom_vp_height := 480 |}.


Definition slang_frontend (path : option string) : frontend :=
  {| math_matrix_4x4 := list float;
     matrix_zero := [];
     matrix_4x4_ortho_default := [];
     matrix_4x4_rotate_z := fun _ => [];
     matrix_4x4_multiply := fun a _ => a;
     matrix_negate_row1 := fun a => a;
     video_context_driver_translate_aspect := fun a _ _ => a;
     video_viewport_get_scaled_integer := fun v _ _ _ _ => v;
     video_driver_get_aspect_ratio := Float32.one;
     ASPECT_RATIO_CUSTOM := 23;
     retroarch_get_shader_preset := path;
     video_shader_parse_type := fun _ => RARCH_SHADER_SLANG;
     HAVE_MENU := false;
     RARCH_MOBILE := false |}.

(** * Properties *)

(** ** Mip level counts *)

Lemma shiftr1_div2 (z : Z) : Z.shiftr z 1 = z / 2.
Proof. rewrite Z.shiftr_div_pow2 by lia. reflexivity. Qed.

Lemma log2_half (z : Z) : 2 <= z -> Z.log2 (z / 2) = Z.log2 z - 1.
Proof.
  intros Hz.
  replace (z / 2) with (Z.shiftr z 1) by apply shiftr1_div2.
  rewrite Z.log2_shiftr by lia.
  assert (1 <= Z.log2 z) by (apply Z.log2_le_pow2; simpl; lia).
  lia.
Qed.

Lemma wrap32_small (z : Z) : 0 <= z < UINT_MOD -> wrap32 z = z.
Proof. intros H. unfold wrap32. apply Z.mod_small. exact H. Qed.

(** The [while (size)] loop, given enough iterations for [size] to reach
    zero, counts the binary digits of [size]. *)
Lemma miplevels_loop_spec (fuel : nat) :
  forall size levels,
    0 <= size < 2 ^ Z.of_nat fuel ->
    0 <= levels ->
    (size <> 0 -> levels + Z.log2 size + 1 < UINT_MOD) ->
    miplevels_loop fuel size levels =
      if size =? 0 then levels else levels + Z.log2 size + 1.
Proof.
  induction fuel as [|fuel IH]; intros size levels Hsize Hlv Hfit.
  - simpl in *. assert (size = 0) by lia. subst. reflexivity.
  - cbn [miplevels_loop].
    destruct (size =? 0) eqn:Hz; [reflexivity|].
    apply Z.eqb_neq in Hz. specialize (Hfit Hz).
    pose proof (Z.log2_nonneg size) as Hlog.
    rewrite shiftr1_div2, wrap32_small by lia.
    assert (Hpow : 2 ^ Z.of_nat (S fuel) = 2 * 2 ^ Z.of_nat fuel).
    { rewrite Nat2Z.inj_succ, Z.pow_succ_r by lia. reflexivity. }
    destruct (Z_lt_le_dec size 2) as [Hone|Htwo].
    + assert (size = 1) by lia. subst size.
      change (1 / 2) with 0.
      rewrite IH; [simpl; lia | | lia | ].
      * split; [lia | apply Z.pow_pos_nonneg; lia].
      * intros Hne. exfalso. apply Hne. reflexivity.
    + rewrite IH; [| split; [apply Z.div_pos; lia|
                             apply Z.div_lt_upper_bound; lia] | lia | ].
      * assert (1 <= size / 2) by (apply Z.div_le_lower_bound; lia).
        destruct (size / 2 =? 0) eqn:Hh; [apply Z.eqb_eq in Hh; lia|].
        rewrite log2_half by assumption. lia.
      * intros _. rewrite log2_half by assumption. lia.
Qed.

Lemma miplevels_loop_gt1_spec (fuel : nat) :
  forall w levels,
    1 <= w < 2 ^ Z.of_nat fuel ->
    0 <= levels -> levels + Z.log2 w < UINT_MOD ->
    miplevels_loop_gt1 fuel w levels = levels + Z.log2 w.
Proof.
  induction fuel as [|fuel IH]; intros w levels Hw Hlv Hfit.
  - simpl in Hw. lia.
  - cbn [miplevels_loop_gt1].
    assert (Hpow : 2 ^ Z.of_nat (S fuel) = 2 * 2 ^ Z.of_nat fuel).
    { rewrite Nat2Z.inj_succ, Z.pow_succ_r by lia. reflexivity. }
    destruct (1 <? w) eqn:Hgt.
    + apply Z.ltb_lt in Hgt.
      assert (1 <= Z.log2 w) by (apply Z.log2_le_pow2; simpl; lia).
      rewrite shiftr1_div2, wrap32_small by lia.
      rewrite IH; [| split; [apply Z.div_le_lower_bound; lia|
                             apply Z.div_lt_upper_bound; lia] | lia | ].
      * rewrite log2_half by lia. lia.
      * rewrite log2_half by lia. lia.
    + apply Z.ltb_ge in Hgt. assert (w = 1) by lia. subst. simpl. lia.
Qed.

Lemma log2_unsigned (z : Z) : 1 <= z < UINT_MOD -> 0 <= Z.log2 z < 32.
Proof.
  intros Hz. split; [apply Z.log2_nonneg|].
  apply Z.log2_lt_pow2; [lia|]. exact (proj2 Hz).
Qed.

(** The bound on the iterations is never what ends the loops: any larger
    bound gives the same count. *)
Lemma miplevels_fuel (extra : nat) (size : Z) :
  1 <= size < UINT_MOD ->
  miplevels_loop (Z.to_nat UINT_BITS + extra) size 0
    = miplevels_loop (Z.to_nat UINT_BITS) size 0
  /\ miplevels_loop_gt1 (Z.to_nat UINT_BITS + extra) size 1
     = miplevels_loop_gt1 (Z.to_nat UINT_BITS) size 1.
Proof.
  intros Hsize. pose proof (log2_unsigned size Hsize) as Hlog.
  assert (Hpow : UINT_MOD <= 2 ^ Z.of_nat (Z.to_nat UINT_BITS + extra)).
  { rewrite Nat2Z.inj_add, Z.pow_add_r by lia.
    change (2 ^ Z.of_nat (Z.to_nat UINT_BITS)) with UINT_MOD.
    assert (1 <= 2 ^ Z.of_nat extra) by (apply Z.pow_le_mono_r with (b := 0); lia).
    unfold UINT_MOD, UINT_BITS in *. nia. }
  assert (Hmod : UINT_MOD = 4294967296) by reflexivity.
  split.
  - rewrite !miplevels_loop_spec; try lia.
    change (2 ^ Z.of_nat (Z.to_nat UINT_BITS)) with UINT_MOD. lia.
  - rewrite !miplevels_loop_gt1_spec; try lia.
    change (2 ^ Z.of_nat (Z.to_nat UINT_BITS)) with UINT_MOD. lia.
Qed.

Lemma num_miplevels_log2 (w h : Z) :
  1 <= w < UINT_MOD -> 1 <= h < UINT_MOD ->
  num_miplevels w h = Z.log2 (Z.max w h) + 1.
Proof.
  intros Hw Hh. unfold num_miplevels.
  assert (Hmax : 1 <= Z.max w h < UINT_MOD) by lia.
  pose proof (log2_unsigned _ Hmax) as Hlog.
  assert (Hmod : UINT_MOD = 4294967296) by reflexivity.
  rewrite miplevels_loop_spec.
  - destruct (Z.max w h =? 0) eqn:Hz; [apply Z.eqb_eq in Hz; lia | lia].
  - change (2 ^ Z.of_nat (Z.to_nat UINT_BITS)) with UINT_MOD. lia.
  - lia.
  - lia.
Qed.

Lemma driver_num_miplevels_log2 (w h : Z) :
  1 <= w < UINT_MOD -> 1 <= h < UINT_MOD ->
  driver_num_miplevels w h = Z.log2 (Z.max w h) + 1.
Proof.
  intros Hw Hh. unfold driver_num_miplevels.
  assert (Hmax : (if w <? h then h else w) = Z.max w h).
  { destruct (w <? h) eqn:E; [apply Z.ltb_lt in E | apply Z.ltb_ge in E]; lia. }
  assert (Hrange : 1 <= Z.max w h < UINT_MOD) by lia.
  pose proof (log2_unsigned _ Hrange) as Hlog.
  assert (Hmod : UINT_MOD = 4294967296) by reflexivity.
  rewrite Hmax, miplevels_loop_gt1_spec.
  - lia.
  - change (2 ^ Z.of_nat (Z.to_nat UINT_BITS)) with UINT_MOD. lia.
  - lia.
  - lia.
Qed.

(** C4 (as amended).  Every texture allocation with dimensions between 1
    and the largest [unsigned] asks [glTexStorage2D] for
    [floor(log2(max(w,h))) + 1] levels when mipmaps are requested and for
    one level otherwise: in [gl_core_filter_chain_load_lut] and in
    [video_texture_load_gl_core]. *)
Theorem mip_levels_allocated (E : collaborators) (shader : video_shader_lut)
    (image ti : texture_image) (filter_type : texture_filter_type)
    (c : gl_context) :
  image_texture_load E (lut_path shader) = Some image ->
  1 <= image_width image < UINT_MOD -> 1 <= image_height image < UINT_MOD ->
  1 <= image_width ti < UINT_MOD -> 1 <= image_height ti < UINT_MOD ->
  storage_levels (calls_of (gl_core_filter_chain_load_lut E shader) c) =
    [if lut_mipmap shader
     then Z.log2 (Z.max (image_width image) (image_height image)) + 1
     else 1]
  /\ storage_levels (calls_of (video_texture_load_gl_core ti filter_type) c) =
    [match filter_type with
     | TEXTURE_FILTER_MIPMAP_LINEAR | TEXTURE_FILTER_MIPMAP_NEAREST =>
         Z.log2 (Z.max (image_width ti) (image_height ti)) + 1
     | _ => 1
     end].
Proof.
  intros Hload Hw Hh Hw' Hh'. split.
  - unfold calls_of, gl_core_filter_chain_load_lut, gl_bind, gl_lift.
    rewrite Hload. unfold gl_ret, call, gen_texture.
    cbn [fst snd gl_calls gl_next_name].
    destruct (lut_mipmap shader).
    + rewrite num_miplevels_log2 by assumption.
      set (L := Z.log2 _ + 1).
      destruct (1 <? L); cbn [fst snd gl_calls gl_next_name];
        rewrite <- !app_assoc, drop_app_length; reflexivity.
    + cbn. rewrite <- !app_assoc, drop_app_length. reflexivity.
  - unfold calls_of, video_texture_load_gl_core, gl_bind, gl_ret, call,
      gen_texture.
    cbn [fst snd gl_calls gl_next_name].
    destruct filter_type;
      try rewrite driver_num_miplevels_log2 by assumption;
      try set (L := Z.log2 _ + 1);
      try destruct (1 <? L);
      cbn; rewrite <- !app_assoc, drop_app_length; reflexivity.
Qed.

Lemma mip_levels_allocated_witness :
  let E := demo_collaborators [] [] [("lut.png"%string, demo_image 5 3)]
             128 (Some 0%nat) None in
  storage_levels
    (calls_of (gl_core_filter_chain_load_lut E (demo_lut "lut.png" true))
       empty_context) = [3]
  /\ storage_levels
       (calls_of (video_texture_load_gl_core (demo_image 640 480)
                    TEXTURE_FILTER_MIPMAP_LINEAR) empty_context) = [10].
Proof.
  intros E.
  apply (mip_levels_allocated E (demo_lut "lut.png" true) (demo_image 5 3)
           (demo_image 640 480) TEXTURE_FILTER_MIPMAP_LINEAR empty_context).
  - reflexivity.
  - vm_compute. split; [discriminate | reflexivity].
  - vm_compute. split; [discriminate | reflexivity].
  - vm_compute. split; [discriminate | reflexivity].
  - vm_compute. split; [discriminate | reflexivity].
Defined.

(** C4 as the claim states it fails: a 3x3 lookup texture loaded with
    mipmaps gets 2 levels, where [ceil(log2(3)) + 1] is 3. *)
Lemma mip_levels_ceil_counterexample :
  let E := demo_collaborators [] [] [("lut.png"%string, demo_image 3 3)]
             128 (Some 0%nat) None in
  num_miplevels 3 3 = 2
  /\ Z.log2_up (Z.max 3 3) + 1 = 3
  /\ storage_levels
       (calls_of (gl_core_filter_chain_load_lut E (demo_lut "lut.png" true))
          empty_context) = [2]
  /\ storage_levels
       (calls_of (video_texture_load_gl_core (demo_image 3 3)
                    TEXTURE_FILTER_MIPMAP_LINEAR) empty_context) = [2].
Proof. vm_compute. repeat split; reflexivity. Qed.

(** ** Running the monad *)

Lemma gl_bind_Done {A B} (m : GL A) (k : A -> GL B) c b c' :
  gl_bind m k c = (Done b, c') ->
  exists a c1, m c = (Done a, c1) /\ k a c1 = (Done b, c').
Proof.
  unfold gl_bind. destruct (m c) as [[a| |] c1]; intros H;
    [eauto | discriminate | discriminate].
Qed.

Lemma gl_lift_Done {A} (o : option A) c a c' :
  gl_lift o c = (Done a, c') -> o = Some a /\ c' = c.
Proof.
  destruct o; unfold gl_lift, gl_ret, gl_fail; intros H; inversion H; auto.
Qed.

Lemma gl_ret_Done {A} (a b : A) c c' :
  gl_ret a c = (Done b, c') -> a = b /\ c' = c.
Proof. unfold gl_ret. intros H. inversion H. auto. Qed.

(** Take apart a hypothesis stating that a sequence of binds succeeded. *)
Ltac gl_inv H :=
  repeat match type of H with
  | gl_bind _ _ _ = (Done _, _) =>
      let a := fresh "a" in
      let c := fresh "c" in
      let H1 := fresh "Hrun" in
      apply gl_bind_Done in H; destruct H as (a & c & H1 & H)
  end.

(** ** The passes of the chain built from a preset *)

Section PassCount.
Context (E : collaborators).

Lemma dom_with_pass c i p :
  dom (chain_passes (with_pass c i p)) = {[i]} ∪ dom (chain_passes c).
Proof. unfold with_pass. simpl. apply dom_insert_L. Qed.

Lemma declare_parameter_passes i m s c s' c' :
  declare_parameter E i m (s, c) = Some (s', c') ->
  pass s' = pass s
  /\ dom (chain_passes c') = {[i]} ∪ dom (chain_passes c)
  /\ chain_pass_info c' = chain_pass_info c.
Proof.
  unfold declare_parameter.
  destruct (GFX_MAX_PARAMETERS E <=? _); [discriminate|].
  destruct (list_find _ _) as [[k itr]|].
  - destruct (parameter_mismatch _ _); [discriminate|].
    intros H. inversion H; subst.
    unfold chain_add_parameter. rewrite dom_with_pass. auto.
  - intros H. inversion H; subst.
    unfold chain_add_parameter. rewrite dom_with_pass. auto.
Qed.

Lemma declare_parameters_passes i ms :
  forall s c s' c',
    declare_parameters E i ms (s, c) = Some (s', c') ->
    pass s' = pass s
    /\ dom (chain_passes c) ⊆ dom (chain_passes c')
    /\ dom (chain_passes c') ⊆ {[i]} ∪ dom (chain_passes c)
    /\ chain_pass_info c' = chain_pass_info c.
Proof.
  induction ms as [|m ms IH]; intros s c s' c' H;
    cbn [declare_parameters] in H.
  - inversion H; subst. repeat split; set_solver.
  - destruct (declare_parameter E i m (s, c)) as [[s1 c1]|] eqn:H1;
      [|discriminate].
    apply declare_parameter_passes in H1 as (Hp1 & Hd1 & Hi1).
    apply IH in H as (Hp & Hsub & Hsup & Hi).
    repeat split; [congruence | set_solver | set_solver | congruence].
Qed.

Lemma configure_pass_passes filter0 i s c s' c' g g' :
  configure_pass E filter0 i (s, c) g = (Done (s', c'), g') ->
  pass s' = pass s
  /\ dom (chain_passes c') = {[i]} ∪ dom (chain_passes c)
  /\ forall j, j ≠ i -> chain_pass_info c' !! j = chain_pass_info c !! j.
Proof.
  unfold configure_pass. cbn [fst].
  destruct (pass s !! i) as [p|]; [|discriminate].
  intros H. gl_inv H.
  apply gl_lift_Done in Hrun as [_ ->].
  apply gl_lift_Done in Hrun0 as [Hdecl ->].
  destruct a0 as [s1 c1].
  apply declare_parameters_passes in Hdecl as (Hp & Hsub & Hsup & Hi).
  apply gl_ret_Done in H as [H _]. inversion H; subst; clear H.
  split; [assumption|]. split.
  - unfold chain_set_pass_info. cbn [chain_passes].
    repeat match goal with
    | |- context [if ?b then _ else _] => case b
    end;
    unfold chain_set_pass_name, chain_set_frame_count_period,
      chain_set_shader; rewrite ?dom_with_pass; set_solver.
  - intros j Hj. unfold chain_set_pass_info. cbn [chain_pass_info].
    rewrite lookup_insert_ne by congruence.
    repeat match goal with
    | |- context [if ?b then _ else _] => case b
    end; cbn; congruence.
Qed.

Lemma configure_passes_passes filter0 todo :
  forall i s c s' c' g g',
    configure_passes E filter0 todo i (s, c) g = (Done (s', c'), g') ->
    pass s' = pass s
    /\ dom (chain_passes c') = set_seq i todo ∪ dom (chain_passes c)
    /\ forall j, (j < i)%nat \/ (i + todo <= j)%nat ->
         chain_pass_info c' !! j = chain_pass_info c !! j.
Proof.
  induction todo as [|todo IH]; intros i s c s' c' g g' H;
    cbn [configure_passes] in H.
  - apply gl_ret_Done in H as [H _]. inversion H; subst.
    split; [reflexivity|]. split; [set_solver | auto].
  - gl_inv H. destruct a as [s1 c1].
    apply configure_pass_passes in Hrun as (Hp1 & Hd1 & Hi1).
    apply IH in H as (Hp & Hd & Hi).
    split; [congruence|]. split.
    + rewrite Hd, Hd1. set_solver.
    + intros j Hj. rewrite Hi by lia. apply Hi1. lia.
Qed.

Lemma load_luts_from_passes ls :
  forall c c' g g',
    load_luts_from E ls c g = (Done c', g') ->
    chain_passes c' = chain_passes c
    /\ chain_pass_info c' = chain_pass_info c.
Proof.
  induction ls as [|l ls IH]; intros c c' g g' H;
    cbn [load_luts_from] in H.
  - apply gl_ret_Done in H as [-> _]. auto.
  - gl_inv H. apply IH in H as [-> ->]. auto.
Qed.
End PassCount.

(** C3.  A preset that loads successfully yields a chain with exactly as
    many passes as the preset has when the last pass is not rendered to a
    framebuffer ([fbo.valid] false), and with exactly one more when it is;
    the extra pass has viewport scale type and scale 1.0 in both axes and
    runs the built-in opaque vertex and fragment shaders. *)
Theorem terminal_pass_appended (E : collaborators) (path : string)
    (filter0 : gl_core_filter_chain_filter) (conf : config_file_t E)
    (shader0 : video_shader) (lastp : video_shader_pass)
    (g g' : gl_context) (chain : gl_core_filter_chain) :
  config_file_new E path = Some conf ->
  video_shader_read_conf_cgp E conf = Some shader0 ->
  last (pass (video_shader_resolve_relative E shader0 path)) = Some lastp ->
  gl_core_filter_chain_create_from_preset E path filter0 g
    = (Done chain, g') ->
  let n := passes (video_shader_resolve_relative E shader0 path) in
  if valid (fbo lastp) then
    num_passes chain = S n
    /\ (exists info,
          chain_pass_info chain !! n = Some info
          /\ scale_type_x info = GL_CORE_FILTER_CHAIN_SCALE_VIEWPORT
          /\ scale_type_y info = GL_CORE_FILTER_CHAIN_SCALE_VIEWPORT
          /\ scale_x info = Float32.one /\ scale_y info = Float32.one)
    /\ (exists p,
          chain_passes chain !! n = Some p
          /\ vertex_shader p = opaque_vert E
          /\ fragment_shader p = opaque_frag E)
  else num_passes chain = n.
Proof.
  intros Hconf Hread Hlast Hrun n.
  unfold gl_core_filter_chain_create_from_preset in Hrun.
  apply gl_bind_Done in Hrun as (conf' & g1 & Hc & Hrun).
  apply gl_lift_Done in Hc as [Hc ->].
  rewrite Hconf in Hc. inversion Hc; subst conf'; clear Hc.
  apply gl_bind_Done in Hrun as (sh & g1 & Hs & Hrun).
  apply gl_lift_Done in Hs as [Hs ->].
  rewrite Hread in Hs. inversion Hs; subst sh; clear Hs.
  set (shader := video_shader_resolve_relative E shader0 path) in *.
  rewrite last_lookup in Hlast.
  replace (Init.Nat.pred (length (pass shader)))
    with (passes shader - 1)%nat in Hlast by (unfold passes; lia).
  rewrite Hlast in Hrun.
  apply gl_bind_Done in Hrun as (is_fbo & g1 & Hfbo & Hrun).
  assert (is_fbo = valid (fbo lastp)) as ->.
  { destruct (0 <? passes shader)%nat; [|discriminate].
    apply gl_ret_Done in Hfbo as [-> _]. reflexivity. }
  clear Hfbo.
  apply gl_bind_Done in Hrun as (ch0 & g2 & Hluts & Hrun).
  assert (chain_passes ch0 = ∅ /\ chain_pass_info ch0 = ∅) as [Hp0 Hi0].
  { destruct (0 <? luts shader)%nat.
    - unfold gl_core_filter_chain_load_luts in Hluts.
      apply load_luts_from_passes in Hluts as [-> ->]. auto.
    - apply gl_ret_Done in Hluts as [<- _]. auto. }
  clear Hluts.
  apply gl_bind_Done in Hrun as ([s1 ch1] & g3 & Hloop & Hrun).
  apply configure_passes_passes in Hloop as (Hpass & Hdom & Hinfo).
  change (passes (with_parameters shader [])) with (passes shader) in Hdom.
  rewrite Hp0, dom_empty_L, (right_id_L ∅ (∪)) in Hdom.
  apply gl_bind_Done in Hrun as (s2 & g4 & _ & Hrun).
  apply gl_bind_Done in Hrun as (ch2 & g5 & Hinit & Hrun).
  apply gl_lift_Done in Hinit as [Hinit ->].
  apply gl_ret_Done in Hrun as [<- _].
  unfold gl_core_filter_chain_init in Hinit.
  destruct (chain_init E _); [|discriminate].
  inversion Hinit; subst ch2; clear Hinit.
  assert (Hn : passes s1 = n).
  { unfold passes. rewrite Hpass. reflexivity. }
  unfold num_passes. cbn [with_frame chain_set_shader_preset chain_passes
                          chain_pass_info].
  rewrite Hn. fold n in Hdom.
  destruct (valid (fbo lastp)).
  - split; [|split].
    + rewrite <- size_dom.
      unfold chain_set_shader. rewrite !dom_with_pass.
      cbn [chain_set_pass_info chain_passes]. rewrite Hdom.
      replace ({[n]} ∪ ({[n]} ∪ set_seq 0 n))
        with (set_seq (C:=gset nat) 0 (S n))
        by (rewrite set_seq_S_end_union_L; set_solver).
      apply size_set_seq.
    + exists (viewport_pass_info filter0).
      split; [|repeat split].
      unfold chain_set_shader, with_pass, chain_set_pass_info.
      cbn [chain_pass_info]. apply lookup_insert_eq.
    + eexists. split.
      * unfold chain_set_shader at 1. unfold with_pass. cbn [chain_passes].
        apply lookup_insert_eq.
      * unfold pass_at, chain_set_shader, with_pass. cbn [chain_passes].
        rewrite lookup_insert_eq.
        cbn [default vertex_shader fragment_shader].
        repeat case_decide; try discriminate; try contradiction; auto.
  - rewrite <- size_dom, Hdom. apply size_set_seq.
Qed.

Lemma terminal_pass_appended_witness :
  let preset :=
    demo_preset [demo_pass "a.slang" no_fbo;
                 demo_pass "b.slang" (source_fbo Float32.one)] in
  let E :=
    demo_collaborators [("p.slangp"%string, preset)]
      [("a.slang"%string, demo_output []); ("b.slang"%string, demo_output [])]
      [] 128 (Some 0%nat) None in
  exists chain g',
    gl_core_filter_chain_create_from_preset E "p.slangp"
      GL_CORE_FILTER_CHAIN_LINEAR empty_context = (Done chain, g')
    /\ num_passes chain = 3%nat
    /\ (exists info,
          chain_pass_info chain !! 2%nat = Some info
          /\ scale_type_x info = GL_CORE_FILTER_CHAIN_SCALE_VIEWPORT
          /\ scale_type_y info = GL_CORE_FILTER_CHAIN_SCALE_VIEWPORT
          /\ scale_x info = Float32.one /\ scale_y info = Float32.one)
    /\ (exists p,
          chain_passes chain !! 2%nat = Some p
          /\ vertex_shader p = opaque_vert E
          /\ fragment_shader p = opaque_frag E).
Proof.
  intros preset E.
  destruct (gl_core_filter_chain_create_from_preset E "p.slangp"
              GL_CORE_FILTER_CHAIN_LINEAR empty_context)
    as [[chain| |] g'] eqn:Hrun.
  - exists chain, g'. split; [reflexivity|].
    exact (terminal_pass_appended E "p.slangp" GL_CORE_FILTER_CHAIN_LINEAR
             preset preset (demo_pass "b.slang" (source_fbo Float32.one))
             empty_context g' chain eq_refl eq_refl eq_refl Hrun).
  - vm_compute in Hrun. discriminate.
  - vm_compute in Hrun. discriminate.
Defined.

(** ** The parameter table across a preset *)

Section TableFacts.
Context (E : collaborators).

Lemma substring_whole (s : string) :
  forall n, (String.length s <= n)%nat -> substring 0 n s = s.
Proof.
  induction s as [|a s IH]; intros [|n] H; simpl in *;
    try reflexivity; try lia.
  rewrite IH by lia. reflexivity.
Qed.

Lemma strlcpy_fits (s : string) (size : nat) :
  (String.length s < size)%nat -> strlcpy s size = s.
Proof. intros H. unfold strlcpy. apply substring_whole. lia. Qed.

Lemma declare_parameter_table i m s c s' c' :
  declare_parameter E i m (s, c) = Some (s', c') ->
  table_step E (parameters s) m = Some (parameters s').
Proof.
  unfold declare_parameter, table_step, num_parameters.
  destruct (GFX_MAX_PARAMETERS E <=? _); [discriminate|].
  destruct (list_find _ _) as [[k itr]|].
  - destruct (parameter_mismatch m itr); [discriminate|].
    intros H. inversion H; subst. reflexivity.
  - intros H. inversion H; subst. reflexivity.
Qed.

Lemma declare_parameter_is_Some i m s c :
  is_Some (declare_parameter E i m (s, c))
  <-> is_Some (table_step E (parameters s) m).
Proof.
  unfold declare_parameter, table_step, num_parameters.
  destruct (GFX_MAX_PARAMETERS E <=? _).
  { split; intros [? H]; discriminate. }
  destruct (list_find _ _) as [[k itr]|].
  - destruct (parameter_mismatch m itr).
    + split; intros [? H]; discriminate.
    + split; intros _; eexists; reflexivity.
  - split; intros _; eexists; reflexivity.
Qed.

Lemma declare_parameters_table i ms :
  forall s c s' c',
    declare_parameters E i ms (s, c) = Some (s', c') ->
    table_run E (parameters s) ms = Some (parameters s').
Proof.
  induction ms as [|m ms IH]; intros s c s' c' H;
    cbn [declare_parameters table_run] in *.
  - inversion H; subst. reflexivity.
  - destruct (declare_parameter E i m (s, c)) as [[s1 c1]|] eqn:H1;
      [|discriminate].
    apply declare_parameter_table in H1. rewrite H1. eauto.
Qed.

Lemma table_run_app ms1 :
  forall table ms2,
    table_run E table (ms1 ++ ms2) =
      match table_run E table ms1 with
      | Some table' => table_run E table' ms2
      | None => None
      end.
Proof.
  induction ms1 as [|m ms1 IH]; intros table ms2; cbn [app table_run].
  - reflexivity.
  - destruct (table_step E table m); [apply IH | reflexivity].
Qed.

Lemma table_step_extends table m table' :
  table_step E table m = Some table' -> exists more, table' = table ++ more.
Proof.
  unfold table_step.
  destruct (GFX_MAX_PARAMETERS E <=? _); [discriminate|].
  destruct (list_find _ _) as [[k itr]|].
  - destruct (parameter_mismatch m itr); [discriminate|].
    intros H. inversion H; subst. exists []. symmetry. apply app_nil_r.
  - intros H. inversion H; subst. eauto.
Qed.

Lemma table_run_extends ms :
  forall table table',
    table_run E table ms = Some table' ->
    exists more, table' = table ++ more.
Proof.
  induction ms as [|m ms IH]; intros table table' H; cbn [table_run] in H.
  - inversion H; subst. exists []. symmetry. apply app_nil_r.
  - destruct (table_step E table m) as [t1|] eqn:H1; [|discriminate].
    apply table_step_extends in H1 as [more1 ->].
    apply IH in H as [more2 ->].
    exists (more1 ++ more2). symmetry. apply app_assoc.
Qed.

(** One step keeps the ids of the table distinct, adds exactly the id
    declared, and never grows the table past the limit. *)
Lemma table_step_ids table m table' :
  (String.length (meta_id m) < sizeof_id E)%nat ->
  table_step E table m = Some table' ->
  (NoDup (map id table) -> NoDup (map id table'))
  /\ (forall x, x ∈ map id table' <-> x ∈ map id table \/ x = meta_id m)
  /\ Z.of_nat (length table') <= GFX_MAX_PARAMETERS E.
Proof.
  intros Hfit. unfold table_step.
  destruct (GFX_MAX_PARAMETERS E <=? _) eqn:Hcap; [discriminate|].
  apply Z.leb_gt in Hcap.
  destruct (list_find _ _) as [[k itr]|] eqn:Hfind.
  - destruct (parameter_mismatch m itr); [discriminate|].
    intros H. inversion H; subst table'; clear H.
    apply list_find_Some in Hfind as (Hk & Hid & _).
    split; [auto|]. split; [|lia].
    intros x. split; [auto|]. intros [Hx| ->]; [assumption|].
    rewrite Hid. apply list_elem_of_fmap. exists itr. split; [reflexivity|].
    eapply list_elem_of_lookup_2. eassumption.
  - intros H. inversion H; subst table'; clear H.
    apply list_find_None in Hfind.
    assert (Hnew : id (new_parameter E m) = meta_id m).
    { unfold new_parameter. cbn [id]. apply strlcpy_fits. assumption. }
    rewrite map_app. cbn [map]. rewrite Hnew.
    split; [|split].
    + intros Hnd. apply NoDup_app. split; [assumption|].
      split; [|apply NoDup_singleton].
      intros x Hx Hx'. apply list_elem_of_singleton in Hx'. subst x.
      apply list_elem_of_fmap in Hx as (q & Hq & Hin).
      rewrite Forall_forall in Hfind. apply (Hfind q Hin). assumption.
    + intros x. rewrite elem_of_app, list_elem_of_singleton. reflexivity.
    + rewrite length_app. cbn [length]. lia.
Qed.

Lemma table_run_ids ms :
  forall table table',
    Forall (fun m => (String.length (meta_id m) < sizeof_id E)%nat) ms ->
    table_run E table ms = Some table' ->
    (NoDup (map id table) -> NoDup (map id table'))
    /\ (forall x, x ∈ map id table'
                  <-> x ∈ map id table \/ x ∈ map meta_id ms).
Proof.
  induction ms as [|m ms IH]; intros table table' Hfit H;
    cbn [table_run] in H.
  - inversion H; subst. split; [auto|].
    intros x. cbn [map]. rewrite elem_of_nil. tauto.
  - destruct (table_step E table m) as [t1|] eqn:H1; [|discriminate].
    inversion Hfit as [|? ? Hm Hms]; subst.
    apply table_step_ids in H1 as (Hnd1 & Hids1 & _); [|assumption].
    apply IH in H as (Hnd2 & Hids2); [|assumption].
    split; [auto|].
    intros x. rewrite Hids2, Hids1. cbn [map]. rewrite elem_of_cons. tauto.
Qed.

Lemma table_run_length ms :
  forall table table',
    Z.of_nat (length table) <= GFX_MAX_PARAMETERS E ->
    table_run E table ms = Some table' ->
    Z.of_nat (length table') <= GFX_MAX_PARAMETERS E.
Proof.
  induction ms as [|m ms IH]; intros table table' Hlen H;
    cbn [table_run] in H.
  - inversion H; subst. assumption.
  - destruct (table_step E table m) as [t1|] eqn:H1; [|discriminate].
    eapply IH; [|eassumption].
    revert H1. unfold table_step.
    destruct (GFX_MAX_PARAMETERS E <=? _) eqn:Hcap; [discriminate|].
    apply Z.leb_gt in Hcap.
    destruct (list_find _ _) as [[k itr]|].
    + destruct (parameter_mismatch m itr); [discriminate|].
      intros H1. inversion H1; subst. assumption.
    + intros H1. inversion H1; subst.
      rewrite length_app. cbn [length]. lia.
Qed.

(** A run that succeeds from the empty table ends with one entry per
    distinct id declared, and with no more entries than the limit. *)
Lemma table_run_counts ms table' :
  0 <= GFX_MAX_PARAMETERS E ->
  Forall (fun m => (String.length (meta_id m) < sizeof_id E)%nat) ms ->
  table_run E [] ms = Some table' ->
  length (remove_dups (map meta_id ms)) = length table'
  /\ Z.of_nat (length table') <= GFX_MAX_PARAMETERS E.
Proof.
  intros Hmax Hfit Hrun.
  pose proof (table_run_length ms [] table' Hmax Hrun) as Hlen.
  apply table_run_ids in Hrun as (Hnd & Hids); [|assumption].
  split; [|assumption].
  rewrite <- (length_map id table').
  apply Permutation_length, NoDup_Permutation;
    [apply NoDup_remove_dups | apply Hnd, NoDup_nil_2 |].
  intros x. rewrite elem_of_remove_dups, Hids. cbn [map].
  rewrite elem_of_nil. tauto.
Qed.
End TableFacts.

(** ** From a run of the loader to the parameter table *)

Section LoaderFacts.
Context (E : collaborators).

Lemma configure_pass_table filter0 i s c s' c' g g' :
  configure_pass E filter0 i (s, c) g = (Done (s', c'), g') ->
  exists p,
    pass s !! i = Some p
    /\ table_run E (parameters s) (declared_by E p) = Some (parameters s').
Proof.
  unfold configure_pass. cbn [fst].
  destruct (pass s !! i) as [p|]; [|discriminate].
  intros H. exists p. split; [reflexivity|].
  apply gl_bind_Done in H as (out & g1 & Hc & H).
  apply gl_lift_Done in Hc as [Hc ->].
  apply gl_bind_Done in H as ([s1 c1] & g2 & Hd & H).
  apply gl_lift_Done in Hd as [Hd ->].
  apply gl_ret_Done in H as [H _]. inversion H; subst; clear H.
  unfold declared_by. rewrite Hc.
  eapply declare_parameters_table. eassumption.
Qed.

Lemma configure_passes_table filter0 todo :
  forall i s c s' c' g g',
    configure_passes E filter0 todo i (s, c) g = (Done (s', c'), g') ->
    table_run E (parameters s)
      (flat_map (declared_by E) (take todo (drop i (pass s))))
    = Some (parameters s').
Proof.
  induction todo as [|todo IH]; intros i s c s' c' g g' H;
    cbn [configure_passes] in H.
  - apply gl_ret_Done in H as [H _]. inversion H; subst. reflexivity.
  - apply gl_bind_Done in H as ([s1 c1] & g1 & H1 & H).
    pose proof (configure_pass_passes _ _ _ _ _ _ _ _ _ H1) as (Hp & _).
    apply configure_pass_table in H1 as (p & Hi & Ht).
    apply IH in H. rewrite Hp in H.
    rewrite (drop_S _ _ _ Hi). cbn [take flat_map].
    rewrite table_run_app, Ht. exact H.
Qed.

(** A chain is only returned after every declaration of the preset went
    into the table. *)
Lemma create_table path filter0 conf shader0 g chain g' :
  config_file_new E path = Some conf ->
  video_shader_read_conf_cgp E conf = Some shader0 ->
  gl_core_filter_chain_create_from_preset E path filter0 g
    = (Done chain, g') ->
  is_Some (table_run E []
             (all_declared E (video_shader_resolve_relative E shader0 path))).
Proof.
  intros Hconf Hread Hrun.
  unfold gl_core_filter_chain_create_from_preset in Hrun.
  apply gl_bind_Done in Hrun as (conf' & g1 & Hc & Hrun).
  apply gl_lift_Done in Hc as [Hc ->].
  rewrite Hconf in Hc. inversion Hc; subst conf'; clear Hc.
  apply gl_bind_Done in Hrun as (sh & g1 & Hs & Hrun).
  apply gl_lift_Done in Hs as [Hs ->].
  rewrite Hread in Hs. inversion Hs; subst sh; clear Hs.
  set (shader := video_shader_resolve_relative E shader0 path) in *.
  apply gl_bind_Done in Hrun as (is_fbo & g1 & _ & Hrun).
  apply gl_bind_Done in Hrun as (ch0 & g2 & _ & Hrun).
  apply gl_bind_Done in Hrun as ([s1 ch1] & g3 & Hloop & _).
  apply configure_passes_table in Hloop.
  cbn [with_parameters pass parameters] in Hloop.
  unfold passes in Hloop. cbn [pass] in Hloop.
  rewrite drop_0, firstn_all in Hloop.
  unfold all_declared. rewrite Hloop. eexists. reflexivity.
Qed.

(** *** The loader's behaviour is defined on presets with a pass *)

Lemma load_luts_from_defined ls :
  forall c g, fst (load_luts_from E ls c g) ≠ Undefined.
Proof.
  induction ls as [|l ls IH]; intros c g; cbn [load_luts_from].
  - discriminate.
  - unfold gl_bind at 1.
    destruct (gl_core_filter_chain_load_lut E l g) as [[t| |] g1] eqn:Hl.
    + apply IH.
    + discriminate.
    + exfalso. revert Hl. unfold gl_core_filter_chain_load_lut, gl_bind.
      destruct (gl_lift _ g) as [[im| |] g0] eqn:Hi.
      * unfold gen_texture, call, gl_ret. cbn.
        destruct (1 <? _); cbn; discriminate.
      * discriminate.
      * destruct (image_texture_load E (lut_path l)); discriminate.
Qed.

Lemma configure_pass_defined filter0 i s c g :
  (i < length (pass s))%nat ->
  fst (configure_pass E filter0 i (s, c) g) ≠ Undefined.
Proof.
  intros Hi. unfold configure_pass. cbn [fst].
  destruct (lookup_lt_is_Some_2 (pass s) i Hi) as [p ->].
  unfold gl_bind, gl_lift.
  destruct (glslang_compile_shader E (source_path p)) as [out|];
    [|discriminate].
  cbn. destruct (declare_parameters E i _ (s, c)) as [[s1 c1]|];
    cbn; discriminate.
Qed.

Lemma configure_passes_defined filter0 todo :
  forall i s c g,
    (i + todo <= length (pass s))%nat ->
    fst (configure_passes E filter0 todo i (s, c) g) ≠ Undefined.
Proof.
  induction todo as [|todo IH]; intros i s c g Hi;
    cbn [configure_passes].
  - discriminate.
  - unfold gl_bind.
    destruct (configure_pass E filter0 i (s, c) g) as [[[s1 c1]| |] g1]
      eqn:H1.
    + apply configure_pass_passes in H1 as (Hp & _).
      apply IH. rewrite Hp. lia.
    + discriminate.
    + pose proof (configure_pass_defined filter0 i s c g) as Hd.
      rewrite H1 in Hd. exfalso. apply Hd; [lia | reflexivity].
Qed.

Lemma gl_bind_defined {A B} (m : GL A) (k : A -> GL B) g :
  fst (m g) ≠ Undefined ->
  (forall a g1, m g = (Done a, g1) -> fst (k a g1) ≠ Undefined) ->
  fst (gl_bind m k g) ≠ Undefined.
Proof.
  unfold gl_bind. destruct (m g) as [[a| |] g1]; cbn [fst]; intros Hm Hk.
  - apply Hk. reflexivity.
  - discriminate.
  - exfalso. apply Hm. reflexivity.
Qed.

Lemma gl_lift_defined {A} (o : option A) g : fst (gl_lift o g) ≠ Undefined.
Proof. destruct o; discriminate. Qed.

Lemma create_defined path filter0 conf shader0 g :
  config_file_new E path = Some conf ->
  video_shader_read_conf_cgp E conf = Some shader0 ->
  pass (video_shader_resolve_relative E shader0 path) ≠ [] ->
  fst (gl_core_filter_chain_create_from_preset E path filter0 g)
    ≠ Undefined.
Proof.
  intros Hconf Hread Hne.
  unfold gl_core_filter_chain_create_from_preset.
  apply gl_bind_defined; [apply gl_lift_defined|].
  intros conf' g1 Hc. apply gl_lift_Done in Hc as [Hc _].
  rewrite Hconf in Hc. inversion Hc; subst conf'; clear Hc.
  apply gl_bind_defined; [apply gl_lift_defined|].
  intros sh g2 Hs. apply gl_lift_Done in Hs as [Hs _].
  rewrite Hread in Hs. inversion Hs; subst sh; clear Hs.
  set (shader := video_shader_resolve_relative E shader0 path) in *.
  assert (Hpos : (0 < passes shader)%nat).
  { unfold passes. destruct (pass shader); [contradiction | simpl; lia]. }
  destruct (lookup_lt_is_Some_2 (pass shader) (passes shader - 1))
    as [lastp Hlast]; [unfold passes in *; lia|].
  apply gl_bind_defined.
  { rewrite Hlast. apply Nat.ltb_lt in Hpos. rewrite Hpos. discriminate. }
  intros is_fbo g3 _.
  apply gl_bind_defined.
  { destruct (0 <? luts shader)%nat; [|discriminate].
    apply load_luts_from_defined. }
  intros ch0 g4 _.
  apply gl_bind_defined.
  { apply configure_passes_defined. unfold passes. cbn. lia. }
  intros [s1 ch1] g5 _.
  apply gl_bind_defined; [apply gl_lift_defined|].
  intros s2 g6 _.
  apply gl_bind_defined; [apply gl_lift_defined|].
  intros ch2 g7 _. discriminate.
Qed.

(** Unless the loader returns a chain or meets undefined behaviour, it
    returns the null pointer. *)
Lemma create_Failed path filter0 g :
  fst (gl_core_filter_chain_create_from_preset E path filter0 g)
    ≠ Undefined ->
  (forall chain g',
      gl_core_filter_chain_create_from_preset E path filter0 g
        ≠ (Done chain, g')) ->
  exists g', gl_core_filter_chain_create_from_preset E path filter0 g
             = (Failed, g').
Proof.
  destruct (gl_core_filter_chain_create_from_preset E path filter0 g)
    as [[chain| |] g'].
  - intros _ H. exfalso. eapply H. reflexivity.
  - eauto.
  - intros H. exfalso. apply H. reflexivity.
Qed.
End LoaderFacts.

(** ** Duplicate declarations *)

Section Duplicates.
Context (E : collaborators).

(** Where the first declaration of an id sits in the table, a later
    declaration of the same id finds it. *)
Lemma find_first_declaration table0 rest d1 d2 :
  Forall (fun p => id p ≠ meta_id d1) table0 ->
  meta_id d2 = meta_id d1 ->
  (String.length (meta_id d1) < sizeof_id E)%nat ->
  list_find (fun param => meta_id d2 = id param)
            (table0 ++ new_parameter E d1 :: rest)
  = Some (length table0, new_parameter E d1).
Proof.
  intros Hpre Hid Hfit. apply list_find_Some. split; [|split].
  - apply list_lookup_middle. reflexivity.
  - rewrite Hid. unfold new_parameter. cbn [id].
    symmetry. apply strlcpy_fits. assumption.
  - intros j q Hj Hlt. rewrite lookup_app_l in Hj by assumption.
    rewrite Forall_forall in Hpre. rewrite Hid. intros Heq.
    eapply Hpre; [eapply list_elem_of_lookup_2; eassumption|].
    symmetry. assumption.
Qed.

Lemma neqb_false_iff (a b : float) :
  Float32.neqb a b = false <-> Float32.eqb a b = true.
Proof.
  unfold Float32.neqb, Float32.eqb. destruct (SFeqb a b); cbn; intuition.
Qed.

Lemma parameter_mismatch_false_iff d1 d2 :
  (String.length (meta_desc d1) < sizeof_desc E)%nat ->
  parameter_mismatch d2 (new_parameter E d1) = false
  <-> same_arguments d2 d1.
Proof.
  intros Hfit. unfold parameter_mismatch, same_arguments, new_parameter.
  cbn [desc initial minimum maximum step].
  rewrite (strlcpy_fits _ _ Hfit).
  rewrite !orb_false_iff, !neqb_false_iff.
  rewrite bool_decide_eq_false. split.
  - intros ((((Hd & Hi) & Hm) & Hx) & Hs). repeat split; try assumption.
    destruct (decide (meta_desc d2 = meta_desc d1)); [assumption|].
    contradiction.
  - intros (Hd & Hi & Hm & Hx & Hs). repeat split; try assumption.
    intros Hne. contradiction.
Qed.
End Duplicates.

(** C2 (as amended).  When a declaration repeats the id of an earlier one,
    whose id and description fit the table's buffers, and the table still
    has room, the loader carries on exactly when the five fields agree with
    the first declaration: same description, and [initial], [minimum],
    [maximum] and [step] equal under [float] comparison. *)
Theorem duplicate_parameter_accepted_iff (E : collaborators) (i : nat)
    (d1 d2 : glslang_parameter) (shader : video_shader)
    (chain : gl_core_filter_chain)
    (table0 rest : list video_shader_parameter) :
  parameters shader = table0 ++ new_parameter E d1 :: rest ->
  Forall (fun p => id p ≠ meta_id d1) table0 ->
  meta_id d2 = meta_id d1 ->
  fits E d1 ->
  Z.of_nat (num_parameters shader) < GFX_MAX_PARAMETERS E ->
  is_Some (declare_parameter E i d2 (shader, chain)) <-> same_arguments d2 d1.
Proof.
  intros Htable Hpre Hid [Hfit_id Hfit_desc] Hroom.
  rewrite declare_parameter_is_Some. unfold table_step.
  unfold num_parameters in Hroom.
  apply Z.leb_gt in Hroom. rewrite Hroom.
  rewrite Htable.
  rewrite (find_first_declaration E _ _ _ _ Hpre Hid Hfit_id).
  rewrite <- (parameter_mismatch_false_iff E d1 d2 Hfit_desc).
  destruct (parameter_mismatch d2 (new_parameter E d1)).
  - split; [intros [? H]; discriminate | discriminate].
  - split; [reflexivity | intros _; eexists; reflexivity].
Qed.

Lemma duplicate_parameter_accepted_iff_witness :
  let E := demo_collaborators [] [] [] 128 (Some 0%nat) None in
  let d := demo_parameter "GAMMA" Float32.one in
  let shader :=
    {| pass := []; lut := []; parameters := [new_parameter E d] |} in
  is_Some (declare_parameter E 1 d (shader, new_gl_core_filter_chain))
  <-> same_arguments d d.
Proof.
  intros E d shader.
  apply (duplicate_parameter_accepted_iff E 1 d d shader
           new_gl_core_filter_chain [] []).
  - reflexivity.
  - apply Forall_nil_2.
  - reflexivity.
  - split; vm_compute; lia.
  - vm_compute. reflexivity.
Defined.

(** C2 as the claim states it fails in both directions.  A declaration
    repeated with all five fields identical is rejected when a number is
    not-a-number, and when the table already holds [GFX_MAX_PARAMETERS]
    entries (the same preset without the repetition is accepted); and a
    repetition whose [minimum] is [-0.0] where the first has [0.0] is
    accepted although the fields are not identical. *)
Lemma duplicate_parameter_counterexample :
  let preset := [("p.slangp"%string, demo_preset [demo_pass "a.slang" no_fbo])] in
  let run ds :=
    gl_core_filter_chain_create_from_preset
      (demo_collaborators preset [("a.slang"%string, demo_output ds)] []
         128 (Some 0%nat) None)
      "p.slangp" GL_CORE_FILTER_CHAIN_LINEAR empty_context in
  let d_nan := demo_parameter "GAMMA" Float32.nan in
  let d_pos :=
    {| meta_id := "GAMMA"; meta_desc := "a parameter";
       meta_initial := Float32.one; meta_minimum := S754_zero false;
       meta_maximum := Float32.one; meta_step := Float32.one |} in
  let d_neg :=
    {| meta_id := "GAMMA"; meta_desc := "a parameter";
       meta_initial := Float32.one; meta_minimum := S754_zero true;
       meta_maximum := Float32.one; meta_step := Float32.one |} in
  returns_null (run [d_nan; d_nan]) = true
  /\ returns_value (run (numbered_parameters 128)) = true
  /\ returns_null (run (numbered_parameters 128
                          ++ [demo_parameter (parameter_name 0) Float32.one]))
     = true
  /\ d_neg ≠ d_pos
  /\ returns_value (run [d_pos; d_neg]) = true.
Proof.
  cbv zeta. split; [vm_compute; reflexivity|].
  split; [vm_compute; reflexivity|].
  split; [vm_compute; reflexivity|].
  split; [discriminate | vm_compute; reflexivity].
Qed.

(** ** Presets the loader turns down *)

(** C10.  When the passes of a preset together declare more distinct
    parameter ids than [GFX_MAX_PARAMETERS], chain creation returns the
    null pointer. *)
Theorem parameter_limit_enforced (E : collaborators) (path : string)
    (filter0 : gl_core_filter_chain_filter) (conf : config_file_t E)
    (shader0 : video_shader) (g : gl_context) :
  config_file_new E path = Some conf ->
  video_shader_read_conf_cgp E conf = Some shader0 ->
  0 <= GFX_MAX_PARAMETERS E ->
  Forall (fun m => (String.length (meta_id m) < sizeof_id E)%nat)
         (all_declared E (video_shader_resolve_relative E shader0 path)) ->
  GFX_MAX_PARAMETERS E
    < Z.of_nat
        (length
           (remove_dups
              (map meta_id
                 (all_declared E
                    (video_shader_resolve_relative E shader0 path))))) ->
  exists g',
    gl_core_filter_chain_create_from_preset E path filter0 g = (Failed, g').
Proof.
  intros Hconf Hread Hmax Hfit Hmany.
  apply create_Failed.
  - eapply create_defined; [eassumption | eassumption |].
    intros Hnil. unfold all_declared in Hmany. rewrite Hnil in Hmany.
    cbn in Hmany. lia.
  - intros chain g' Hrun.
    destruct (create_table E _ _ _ _ _ _ _ Hconf Hread Hrun) as [table Ht].
    apply table_run_counts in Ht as [Hcount Hlen]; [|assumption|assumption].
    rewrite Hcount in Hmany. lia.
Qed.

Lemma parameter_limit_enforced_witness :
  let E :=
    demo_collaborators
      [("p.slangp"%string,
        demo_preset [demo_pass "a.slang" (source_fbo Float32.one);
                     demo_pass "b.slang" no_fbo])]
      [("a.slang"%string, demo_output (numbered_parameters 100));
       ("b.slang"%string,
        demo_output (map (fun k => demo_parameter (parameter_name k)
                                     Float32.one) (seq 71 58)))]
      [] 128 (Some 0%nat) None in
  exists g',
    gl_core_filter_chain_create_from_preset E "p.slangp"
      GL_CORE_FILTER_CHAIN_LINEAR empty_context = (Failed, g').
Proof.
  intros E.
  apply (parameter_limit_enforced E "p.slangp" GL_CORE_FILTER_CHAIN_LINEAR
           (demo_preset [demo_pass "a.slang" (source_fbo Float32.one);
                         demo_pass "b.slang" no_fbo])
           (demo_preset [demo_pass "a.slang" (source_fbo Float32.one);
                         demo_pass "b.slang" no_fbo])
           empty_context).
  - reflexivity.
  - reflexivity.
  - vm_compute. discriminate.
  - apply (bool_decide_unpack _). vm_compute. exact I.
  - vm_compute. reflexivity.
Defined.

Section Rejection.
Context (E : collaborators).

Lemma configure_passes_compiled filter0 todo :
  forall i s c s' c' g g',
    configure_passes E filter0 todo i (s, c) g = (Done (s', c'), g') ->
    Forall (fun p => is_Some (glslang_compile_shader E (source_path p)))
           (take todo (drop i (pass s))).
Proof.
  induction todo as [|todo IH]; intros i s c s' c' g g' H;
    cbn [configure_passes] in H.
  - apply Forall_nil_2.
  - apply gl_bind_Done in H as ([s1 c1] & g1 & H1 & H).
    pose proof (configure_pass_passes _ _ _ _ _ _ _ _ _ H1) as (Hp & _).
    apply IH in H. rewrite Hp in H.
    unfold configure_pass in H1. cbn [fst] in H1.
    destruct (pass s !! i) as [p|] eqn:Hi; [|discriminate].
    apply gl_bind_Done in H1 as (out & g2 & Hc & _).
    apply gl_lift_Done in Hc as [Hc _].
    rewrite (drop_S _ _ _ Hi). cbn [take].
    apply Forall_cons. split; [eexists; eassumption | assumption].
Qed.

Lemma create_compiled path filter0 conf shader0 g chain g' :
  config_file_new E path = Some conf ->
  video_shader_read_conf_cgp E conf = Some shader0 ->
  gl_core_filter_chain_create_from_preset E path filter0 g
    = (Done chain, g') ->
  Forall (fun p => is_Some (glslang_compile_shader E (source_path p)))
         (pass (video_shader_resolve_relative E shader0 path)).
Proof.
  intros Hconf Hread Hrun.
  unfold gl_core_filter_chain_create_from_preset in Hrun.
  apply gl_bind_Done in Hrun as (conf' & g1 & Hc & Hrun).
  apply gl_lift_Done in Hc as [Hc ->].
  rewrite Hconf in Hc. inversion Hc; subst conf'; clear Hc.
  apply gl_bind_Done in Hrun as (sh & g1 & Hs & Hrun).
  apply gl_lift_Done in Hs as [Hs ->].
  rewrite Hread in Hs. inversion Hs; subst sh; clear Hs.
  apply gl_bind_Done in Hrun as (is_fbo & g1 & _ & Hrun).
  apply gl_bind_Done in Hrun as (ch0 & g2 & _ & Hrun).
  apply gl_bind_Done in Hrun as ([s1 ch1] & g3 & Hloop & _).
  apply configure_passes_compiled in Hloop.
  cbn [with_parameters pass] in Hloop.
  unfold passes in Hloop. cbn [pass] in Hloop.
  rewrite drop_0, firstn_all in Hloop. exact Hloop.
Qed.

(** A run of the table over declarations in which a later one repeats
    the id of a first one with a different [minimum] stops. *)
Lemma table_run_mismatch pre d1 mid d2 post :
  Forall (fun m => (String.length (meta_id m) < sizeof_id E)%nat)
         (pre ++ d1 :: mid ++ d2 :: post) ->
  Forall (fun d => meta_id d ≠ meta_id d1) pre ->
  meta_id d2 = meta_id d1 ->
  Float32.neqb (meta_minimum d2) (meta_minimum d1) = true ->
  table_run E [] (pre ++ d1 :: mid ++ d2 :: post) = None.
Proof.
  intros Hfit Hpre Hid Hmin.
  apply Forall_app in Hfit as [Hfit_pre Hfit].
  apply Forall_cons in Hfit as [Hfit1 _].
  rewrite table_run_app.
  destruct (table_run E [] pre) as [t0|] eqn:H0; [|reflexivity].
  apply table_run_ids in H0 as (_ & Hids); [|assumption].
  assert (Ht0 : Forall (fun p => id p ≠ meta_id d1) t0).
  { apply Forall_forall. intros q Hq Heq.
    assert (Hin : id q ∈ map id t0).
    { apply list_elem_of_fmap. eauto. }
    apply Hids in Hin as [Hin|Hin]; [cbn in Hin; set_solver|].
    apply list_elem_of_fmap in Hin as (d & Hd & Hin).
    rewrite Forall_forall in Hpre. apply (Hpre d Hin). congruence. }
  cbn [table_run].
  destruct (table_step E t0 d1) as [t1|] eqn:H1; [|reflexivity].
  assert (t1 = t0 ++ [new_parameter E d1]) as ->.
  { revert H1. unfold table_step.
    destruct (GFX_MAX_PARAMETERS E <=? _); [discriminate|].
    destruct (list_find _ _) as [[k itr]|] eqn:Hfind.
    - exfalso. apply list_find_Some in Hfind as (Hk & Heq & _).
      rewrite Forall_forall in Ht0.
      apply (Ht0 itr); [eapply list_elem_of_lookup_2; eassumption|].
      symmetry. assumption.
    - intros H1. inversion H1. reflexivity. }
  rewrite table_run_app.
  destruct (table_run E _ mid) as [t2|] eqn:H2; [|reflexivity].
  apply table_run_extends in H2 as [more ->].
  rewrite <- app_assoc. cbn [app table_run].
  unfold table_step at 1.
  destruct (GFX_MAX_PARAMETERS E <=? _); [reflexivity|].
  rewrite (find_first_declaration E _ _ _ _ Ht0 Hid Hfit1).
  assert (parameter_mismatch d2 (new_parameter E d1) = true) as ->.
  { unfold parameter_mismatch, new_parameter. cbn [minimum].
    rewrite Hmin. rewrite !orb_true_r. reflexivity. }
  reflexivity.
Qed.
End Rejection.



(** ** The frame callback *)

Section FrameFacts.
Context (F : frontend).

Lemma build_passes_run (ps : list nat) (g : gl_context) :
  build_passes ps g =
    (Done tt, mk_gl_context (gl_next_name g)
                (gl_calls g ++ map pass_build_commands ps)).
Proof.
  revert g. induction ps as [|i ps IH]; intros g; cbn [build_passes map].
  - rewrite app_nil_r. destruct g. reflexivity.
  - unfold gl_bind, call. rewrite IH. cbn. rewrite <- app_assoc. reflexivity.
Qed.

(** The upload always succeeds; it binds the texture of the slot it
    returns, and only then hands the frame to [glTexSubImage2D]. *)
Lemma update_cpu_texture_run (gl : gl_core_t F)
    (streamed : gl_core_streamed_texture) (frame : pixels)
    (w h pitch : Z) (g : gl_context) :
  exists streamed' g' pre mid fmt ty,
    gl_core_update_cpu_texture F gl streamed frame w h pitch g
      = (Done streamed', g')
    /\ gl_calls g'
       = gl_calls g ++ pre ++ [glBindTexture GL_TEXTURE_2D (tex streamed')]
           ++ mid ++ [glTexSubImage2D GL_TEXTURE_2D 0 0 0 w h fmt ty frame]
    /\ streamed_width streamed' = w /\ streamed_height streamed' = h
    /\ Forall (fun e => is_chain_call e = false /\ is_pass_call e = false
                        /\ is_bind_texture e = false) (pre ++ mid).
Proof.
  unfold gl_core_update_cpu_texture.
  set (p2 := Z.shiftr pitch 2). set (p1 := Z.shiftr pitch 1).
  set (n := gl_next_name g).
  pose (up32 := [glBindBuffer GL_PIXEL_UNPACK_BUFFER 0;
                 glPixelStorei GL_UNPACK_ROW_LENGTH p2;
                 glPixelStorei GL_UNPACK_ALIGNMENT 4]).
  pose (up16 := [glBindBuffer GL_PIXEL_UNPACK_BUFFER 0;
                 glPixelStorei GL_UNPACK_ROW_LENGTH p1;
                 glPixelStorei GL_UNPACK_ALIGNMENT 2]).
  pose (swz := [glTexParameteri GL_TEXTURE_2D GL_TEXTURE_SWIZZLE_R GL_BLUE;
                glTexParameteri GL_TEXTURE_2D GL_TEXTURE_SWIZZLE_B GL_RED]).
  destruct (bool_decide (w ≠ streamed_width streamed)
            || bool_decide (h ≠ streamed_height streamed)) eqn:Hsize.
  - exists {| tex := n; streamed_width := w; streamed_height := h |}.
    destruct (bool_decide (tex streamed ≠ 0));
      destruct (rgb32 (video_info F gl));
      cbv [gl_bind call gen_texture gl_ret]; cbn [gl_calls gl_next_name];
      fold n; eexists;
      [ exists [glDeleteTextures (tex streamed); glGenTextures n],
          (glTexStorage2D GL_TEXTURE_2D 1 GL_RGBA8 w h :: swz ++ up32),
          GL_RGBA, GL_UNSIGNED_BYTE
      | exists [glDeleteTextures (tex streamed); glGenTextures n],
          (glTexStorage2D GL_TEXTURE_2D 1 GL_RGB565 w h :: up16),
          GL_RGB, GL_UNSIGNED_SHORT_5_6_5
      | exists [glGenTextures n],
          (glTexStorage2D GL_TEXTURE_2D 1 GL_RGBA8 w h :: swz ++ up32),
          GL_RGBA, GL_UNSIGNED_BYTE
      | exists [glGenTextures n],
          (glTexStorage2D GL_TEXTURE_2D 1 GL_RGB565 w h :: up16),
          GL_RGB, GL_UNSIGNED_SHORT_5_6_5 ];
      (split; [reflexivity|]);
      (split; [cbn [gl_calls tex]; unfold swz, up32, up16;
               rewrite <- !app_assoc; reflexivity|]);
      (split; [reflexivity|]); (split; [reflexivity|]);
      unfold swz, up32, up16; cbn [app];
      repeat (apply Forall_cons; split; [repeat split|]); apply Forall_nil_2.
  - apply orb_false_iff in Hsize as [Hw Hh].
    apply bool_decide_eq_false in Hw, Hh.
    assert (streamed_width streamed = w) as Hw'.
    { destruct (decide (w = streamed_width streamed)); [auto|contradiction]. }
    assert (streamed_height streamed = h) as Hh'.
    { destruct (decide (h = streamed_height streamed)); [auto|contradiction]. }
    exists streamed.
    destruct (rgb32 (video_info F gl));
      cbv [gl_bind call gen_texture gl_ret]; cbn [gl_calls gl_next_name];
      eexists;
      [ exists [], up32, GL_RGBA, GL_UNSIGNED_BYTE
      | exists [], up16, GL_RGB, GL_UNSIGNED_SHORT_5_6_5 ];
      (split; [reflexivity|]);
      (split; [cbn [gl_calls]; unfold up32, up16;
               rewrite <- !app_assoc; reflexivity|]);
      (split; [assumption|]); (split; [assumption|]);
      unfold up32, up16; cbn [app];
      repeat (apply Forall_cons; split; [repeat split|]); apply Forall_nil_2.
Qed.

Lemma set_viewport_run (gl gl' : gl_core_t F) (info : video_frame_info_t)
    (w h : Z) (force_full allow_rotate : bool) (g g' : gl_context) :
  gl_core_set_viewport F gl info w h force_full allow_rotate g
    = (Done gl', g') ->
  (exists vx vy vw vh, gl_calls g' = gl_calls g ++ [glViewport vx vy vw vh])
  /\ filter_chain F gl' = filter_chain F gl
  /\ textures F gl' = textures F gl
  /\ textures_index F gl' = textures_index F gl
  /\ video_info F gl' = video_info F gl.
Proof.
  unfold gl_core_set_viewport.
  destruct (viewport_rect F gl info w h force_full) as [[v out]|];
    [|discriminate].
  unfold gl_bind, call, gl_ret. cbn. intros H. inversion H; subst; clear H.
  cbn. repeat split. eauto.
Qed.
(** What one successful call of the frame callback does: to the slot it
    streams into, to the ring index, to the chain, and the calls it makes,
    in order. *)
Lemma gl_core_frame_run (gl : gl_core_t F) (frame : pixels)
    (w h count pitch : Z) (msg : string) (info : video_frame_info_t)
    (g g' : gl_context) (r : bool * option (gl_core_t F)) :
  gl_core_frame F (Some gl) frame w h count pitch msg info g = (Done r, g') ->
  exists streamed streamed' chain gl' pre mid fmt ty vx vy vw vh,
    let slot := Z.to_nat (textures_index F gl) in
    let n := num_passes chain in
    let t := {| tex_image := tex streamed'; tex_width := w; tex_height := h;
                tex_format := if rgb32 (video_info F gl) then GL_RGBA8
                              else GL_RGB565 |} in
    r = (true, Some gl')
    /\ textures F gl !! slot = Some streamed
    /\ streamed_width streamed' = w /\ streamed_height streamed' = h
    /\ filter_chain F gl = Some chain
    /\ textures F gl' = <[slot := streamed']> (textures F gl)
    /\ textures_index F gl'
       = Z.land (wrap32 (textures_index F gl + 1)) (GL_CORE_NUM_TEXTURES - 1)
    /\ filter_chain F gl'
       = Some (with_frame chain (present (chain_frame chain) t))
    /\ gl_calls g'
       = gl_calls g
           ++ (pre ++ [glBindTexture GL_TEXTURE_2D (tex streamed')] ++ mid
                 ++ [glTexSubImage2D GL_TEXTURE_2D 0 0 0 w h fmt ty frame])
           ++ [glViewport vx vy vw vh;
               filter_chain_set_input_texture (tex streamed') w h
                 (tex_format t);
               filter_chain_build_offscreen_passes]
           ++ map pass_build_commands (seq 0 (n - 1))
           ++ [glBindFramebuffer GL_FRAMEBUFFER 0; glClearColor;
               glClear GL_COLOR_BUFFER_BIT; filter_chain_build_viewport_pass]
           ++ map pass_build_commands (seq (n - 1) (min 1 n))
           ++ [filter_chain_end_frame; cb_update_window_title;
               cb_swap_buffers]
    /\ Forall (fun e => is_chain_call e = false /\ is_pass_call e = false
                        /\ is_bind_texture e = false) (pre ++ mid).
Proof.
  intros H. unfold gl_core_frame in H.
  destruct (textures F gl !! Z.to_nat (textures_index F gl))
    as [streamed|] eqn:Hslot; [|discriminate].
  destruct (update_cpu_texture_run gl streamed frame w h pitch g)
    as (s' & g1 & pre & mid & fmt & ty & Hup & Hlog1 & Hw & Hh & Hpure).
  unfold gl_bind at 1 in H. rewrite Hup in H.
  unfold gl_bind at 1 in H.
  destruct (gl_core_set_viewport F _ info _ _ false true g1)
    as [[gl1| |] g2] eqn:Hvp; try discriminate.
  apply set_viewport_run in Hvp
    as ((vx & vy & vw & vh & Hlog2) & Hfc & Htex & Hidx & Hvi).
  cbn [filter_chain textures textures_index video_info set_textures]
    in Hfc, Htex, Hidx, Hvi.
  destruct (filter_chain F gl1) as [chain|] eqn:Hchain; [|discriminate].
  unfold chain_set_input_texture, chain_build_offscreen_passes,
    chain_build_viewport_pass, chain_end_frame in H.
  cbv [gl_bind call gl_ret] in H. rewrite !build_passes_run in H.
  cbn [gl_calls gl_next_name fst snd] in H.
  inversion H; subst r g'; clear H.
  exists streamed, s', chain. eexists. exists pre, mid, fmt, ty, vx, vy, vw, vh.
  cbv zeta.
  split; [reflexivity|]. split; [assumption|].
  split; [assumption|]. split; [assumption|].
  split; [symmetry; assumption|].
  cbn [textures textures_index filter_chain set_textures_index
         set_filter_chain].
  split; [assumption|]. split; [rewrite Hidx; reflexivity|].
  split.
  { unfold present, with_frame. cbn. rewrite Hw, Hh, Hvi. reflexivity. }
  split; [|assumption].
  cbn [num_passes with_frame chain_passes gl_calls]. unfold num_passes.
  cbn [with_frame chain_passes].
  rewrite Hlog2, Hlog1, Hw, Hh, Hvi. rewrite <- !app_assoc. reflexivity.
Qed.
End FrameFacts.

Lemma filter_none {A} (f : A -> bool) (l : list A) :
  Forall (fun e => f e = false) l -> List.filter f l = [].
Proof.
  induction 1 as [|e l He _ IH]; cbn [List.filter].
  - reflexivity.
  - rewrite He. exact IH.
Qed.

Lemma chain_calls_passes (ps : list nat) :
  chain_calls (map pass_build_commands ps) = [].
Proof. induction ps as [|i ps IH]; [reflexivity | exact IH]. Qed.

(** C7.  A frame callback that returns makes exactly four calls into the
    filter chain, in this order: [set_input_texture], then
    [build_offscreen_passes], then [build_viewport_pass], then
    [end_frame].  No pass has recorded a draw by the time
    [build_offscreen_passes] is entered, and [set_input_texture] on its own
    only records the texture. *)
Theorem frame_chain_call_order (F : frontend) (gl : gl_core_t F)
    (frame : pixels) (w h count pitch : Z) (msg : string)
    (info : video_frame_info_t) (g g' : gl_context)
    (r : bool * option (gl_core_t F)) :
  gl_core_frame F (Some gl) frame w h count pitch msg info g = (Done r, g') ->
  exists image fmt before after,
    chain_calls
      (calls_of (gl_core_frame F (Some gl) frame w h count pitch msg info) g)
    = [filter_chain_set_input_texture image w h fmt;
       filter_chain_build_offscreen_passes;
       filter_chain_build_viewport_pass;
       filter_chain_end_frame]
    /\ calls_of (gl_core_frame F (Some gl) frame w h count pitch msg info) g
       = before ++ [filter_chain_set_input_texture image w h fmt;
                    filter_chain_build_offscreen_passes] ++ after
    /\ Forall (fun e => is_pass_call e = false) before
    /\ forall c t g0,
         chain_set_input_texture c t g0
         = (Done (with_frame c
                    {| input_texture := Some t;
                       history_capacity := history_capacity (chain_frame c);
                       original_history := original_history (chain_frame c) |}),
            mk_gl_context (gl_next_name g0)
              (gl_calls g0 ++ [filter_chain_set_input_texture (tex_image t)
                                 (tex_width t) (tex_height t) (tex_format t)])).
Proof.
  intros Hrun.
  destruct (gl_core_frame_run F gl frame w h count pitch msg info g g' r Hrun)
    as (streamed & s' & chain & gl' & pre & mid & fmt & ty & vx & vy & vw & vh
        & Hr & _ & _ & _ & _ & _ & _ & _ & Hlog & Hpure).
  cbv zeta in Hlog.
  set (upload := pre ++ [glBindTexture GL_TEXTURE_2D (tex s')] ++ mid
                   ++ [glTexSubImage2D GL_TEXTURE_2D 0 0 0 w h fmt ty frame])
    in *.
  assert (Hupload : Forall (fun e => is_chain_call e = false
                                     /\ is_pass_call e = false) upload).
  { unfold upload. apply Forall_app in Hpure as [Hpre Hmid].
    repeat (apply Forall_app; split);
      try (eapply Forall_impl; [eassumption | cbn; tauto]);
      repeat (apply Forall_cons; split; [split; reflexivity|]);
      apply Forall_nil_2. }
  exists (tex s'), (if rgb32 (video_info F gl) then GL_RGBA8 else GL_RGB565).
  exists (upload ++ [glViewport vx vy vw vh]). eexists.
  unfold calls_of. rewrite Hrun. cbn [snd]. rewrite Hlog, drop_app_length.
  split; [|split; [|split]].
  - unfold chain_calls. rewrite !List.filter_app.
    rewrite (filter_none is_chain_call upload)
      by (eapply Forall_impl; [exact Hupload | cbn; tauto]).
    fold (chain_calls (map pass_build_commands (seq 0 (num_passes chain - 1)))).
    fold (chain_calls (map pass_build_commands
                         (seq (num_passes chain - 1)
                              (min 1 (num_passes chain))))).
    rewrite !chain_calls_passes. reflexivity.
  - rewrite <- !app_assoc. cbn [app tex_format]. reflexivity.
  - apply Forall_app. split.
    + eapply Forall_impl; [exact Hupload | cbn; tauto].
    + apply Forall_cons. split; [reflexivity | apply Forall_nil_2].
  - intros c t g0. reflexivity.
Qed.

Lemma frame_chain_call_order_witness :
  let run :=
    gl_core_frame demo_frontend (Some demo_gl) [7; 8; 9] 256 240 0 1024 ""
      demo_info in
  exists image fmt before after,
    chain_calls (calls_of run empty_context)
    = [filter_chain_set_input_texture image 256 240 fmt;
       filter_chain_build_offscreen_passes;
       filter_chain_build_viewport_pass;
       filter_chain_end_frame]
    /\ calls_of run empty_context
       = before ++ [filter_chain_set_input_texture image 256 240 fmt;
                    filter_chain_build_offscreen_passes] ++ after
    /\ Forall (fun e => is_pass_call e = false) before
    /\ forall c t g0,
         chain_set_input_texture c t g0
         = (Done (with_frame c
                    {| input_texture := Some t;
                       history_capacity := history_capacity (chain_frame c);
                       original_history := original_history (chain_frame c) |}),
            mk_gl_context (gl_next_name g0)
              (gl_calls g0 ++ [filter_chain_set_input_texture (tex_image t)
                                 (tex_width t) (tex_height t) (tex_format t)])).
Proof.
  intros run.
  destruct (run empty_context) as [[r| |] g'] eqn:Hrun.
  - exact (frame_chain_call_order demo_frontend demo_gl [7; 8; 9] 256 240 0
             1024 "" demo_info empty_context g' r Hrun).
  - vm_compute in Hrun. discriminate.
  - vm_compute in Hrun. discriminate.
Defined.

(** ** The ring of streamed textures *)

Section TextureRing.
Context (F : frontend).

Lemma next_index (i : Z) :
  0 <= i < GL_CORE_NUM_TEXTURES ->
  Z.land (wrap32 (i + 1)) (GL_CORE_NUM_TEXTURES - 1)
  = (i + 1) mod GL_CORE_NUM_TEXTURES.
Proof.
  unfold GL_CORE_NUM_TEXTURES. intros Hi.
  assert (i = 0 \/ i = 1 \/ i = 2 \/ i = 3) as [->|[->|[->| ->]]] by lia;
    reflexivity.
Qed.

(** One frame keeps the array of streamed textures at its length and the
    index inside it, and moves the index on by one. *)
Lemma gl_core_frame_index (gl : gl_core_t F) (frame : pixels)
    (w h count pitch : Z) (msg : string) (info : video_frame_info_t)
    (g g' : gl_context) (r : bool * option (gl_core_t F)) :
  length (textures F gl) = Z.to_nat GL_CORE_NUM_TEXTURES ->
  0 <= textures_index F gl ->
  gl_core_frame F (Some gl) frame w h count pitch msg info g = (Done r, g') ->
  exists gl',
    r = (true, Some gl')
    /\ 0 <= textures_index F gl < GL_CORE_NUM_TEXTURES
    /\ textures_index F gl'
       = (textures_index F gl + 1) mod GL_CORE_NUM_TEXTURES
    /\ length (textures F gl') = Z.to_nat GL_CORE_NUM_TEXTURES.
Proof.
  intros Hlen Hpos Hrun.
  destruct (gl_core_frame_run F gl frame w h count pitch msg info g g' r Hrun)
    as (streamed & s' & chain & gl' & pre & mid & fmt & ty & vx & vy & vw & vh
        & Hr & Hslot & _ & _ & _ & Htex & Hidx & _).
  cbv zeta in *. exists gl'.
  apply lookup_lt_Some in Hslot. rewrite Hlen in Hslot.
  assert (Hin : 0 <= textures_index F gl < GL_CORE_NUM_TEXTURES).
  { unfold GL_CORE_NUM_TEXTURES in *. lia. }
  split; [assumption|]. split; [assumption|]. split.
  - rewrite Hidx. apply next_index. assumption.
  - rewrite Htex, length_insert. assumption.
Qed.

Lemma gl_core_frames_slots (inputs : list frame_args) :
  forall (gl : gl_core_t F) g r g',
    length (textures F gl) = Z.to_nat GL_CORE_NUM_TEXTURES ->
    0 <= textures_index F gl ->
    gl_core_frames F gl inputs g = (Done r, g') ->
    fst r = map (fun k => Z.to_nat ((textures_index F gl + Z.of_nat k)
                                     mod GL_CORE_NUM_TEXTURES))
                (seq 0 (length inputs)).
Proof.
  induction inputs as [|a inputs IH]; intros gl g r g' Hlen Hpos Hrun;
    cbn [gl_core_frames] in Hrun.
  - apply gl_ret_Done in Hrun as [<- _]. reflexivity.
  - apply gl_bind_Done in Hrun as (r1 & g1 & H1 & Hrun).
    apply gl_core_frame_index in H1 as (gl1 & -> & Hin & Hidx & Hlen1);
      [|assumption|assumption].
    cbn [snd] in Hrun.
    apply gl_bind_Done in Hrun as (r2 & g2 & H2 & Hrun).
    apply gl_ret_Done in Hrun as [<- _].
    apply IH in H2; [|assumption|].
    2:{ rewrite Hidx. apply Z.mod_pos_bound. reflexivity. }
    cbn [fst length seq map]. f_equal.
    + rewrite Z.add_0_r, Z.mod_small by assumption. reflexivity.
    + rewrite H2, <- seq_shift, map_map. apply map_ext. intros k.
      rewrite Hidx, Zplus_mod_idemp_l. f_equal. f_equal. lia.
Qed.
End TextureRing.

(** C9.  A frame callback that returns streams the frame into the slot of
    [gl->textures] that [textures_index] selects (that slot's texture is
    bound, then the pixels are uploaded; no other slot changes) and leaves
    the index advanced by one modulo [GL_CORE_NUM_TEXTURES] = 4; four
    consecutive frames stream into four different slots. *)
Theorem streamed_texture_ring (F : frontend) (gl : gl_core_t F)
    (a : frame_args) (g g' : gl_context) (r : bool * option (gl_core_t F)) :
  length (textures F gl) = Z.to_nat GL_CORE_NUM_TEXTURES ->
  0 <= textures_index F gl ->
  gl_core_frame F (Some gl) (arg_frame a) (arg_width a) (arg_height a)
    (arg_frame_count a) (arg_pitch a) (arg_msg a) (arg_info a) g
  = (Done r, g') ->
  exists gl' streamed',
    let slot := Z.to_nat (textures_index F gl) in
    r = (true, Some gl')
    /\ 0 <= textures_index F gl < GL_CORE_NUM_TEXTURES
    /\ textures_index F gl'
       = (textures_index F gl + 1) mod GL_CORE_NUM_TEXTURES
    /\ textures F gl' = <[slot := streamed']> (textures F gl)
    /\ (exists l1 l2 l3 fmt ty,
          calls_of
            (gl_core_frame F (Some gl) (arg_frame a) (arg_width a)
               (arg_height a) (arg_frame_count a) (arg_pitch a) (arg_msg a)
               (arg_info a)) g
          = l1 ++ [glBindTexture GL_TEXTURE_2D (tex streamed')] ++ l2
              ++ [glTexSubImage2D GL_TEXTURE_2D 0 0 0 (arg_width a)
                    (arg_height a) fmt ty (arg_frame a)] ++ l3
          /\ Forall (fun e => is_bind_texture e = false) l2)
    /\ forall a2 a3 a4 r4 g4,
         gl_core_frames F gl [a; a2; a3; a4] g = (Done r4, g4) ->
         NoDup (fst r4).
Proof.
  intros Hlen Hpos Hrun.
  destruct (gl_core_frame_run F gl _ _ _ _ _ _ _ g g' r Hrun)
    as (streamed & s' & chain & gl' & pre & mid & fmt & ty & vx & vy & vw & vh
        & Hr & Hslot & _ & _ & _ & Htex & Hidx & _ & Hlog & Hpure).
  cbv zeta in *.
  destruct (gl_core_frame_index F gl _ _ _ _ _ _ _ g g' r Hlen Hpos Hrun)
    as (gl'' & Hr' & Hin & Hidx' & _).
  assert (gl'' = gl') as -> by congruence.
  exists gl', s'. cbv zeta.
  split; [assumption|]. split; [assumption|]. split; [assumption|].
  split; [assumption|]. split.
  - exists pre, mid. eexists. exists fmt, ty. split.
    + unfold calls_of. rewrite Hrun. cbn [snd].
      rewrite Hlog, drop_app_length, <- !app_assoc. reflexivity.
    + apply Forall_app in Hpure as [_ Hmid].
      eapply Forall_impl; [exact Hmid | cbn; tauto].
  - intros a2 a3 a4 r4 g4 H4.
    apply gl_core_frames_slots in H4; [|assumption|assumption].
    rewrite H4. cbn [length seq map]. unfold GL_CORE_NUM_TEXTURES in *.
    assert (textures_index F gl = 0 \/ textures_index F gl = 1
            \/ textures_index F gl = 2 \/ textures_index F gl = 3)
      as [->|[->|[->| ->]]] by lia;
      apply (bool_decide_unpack _); vm_compute; exact I.
Qed.

Lemma streamed_texture_ring_witness :
  let a := demo_args [7; 8; 9] in
  let run :=
    gl_core_frame demo_frontend (Some demo_gl) (arg_frame a) (arg_width a)
      (arg_height a) (arg_frame_count a) (arg_pitch a) (arg_msg a)
      (arg_info a) in
  exists gl' streamed',
    fst (run empty_context) = Done (true, Some gl')
    /\ textures_index demo_frontend gl' = 1
    /\ textures demo_frontend gl'
       = <[0%nat := streamed']> (textures demo_frontend demo_gl)
    /\ forall a2 a3 a4 r4 g4,
         gl_core_frames demo_frontend demo_gl [a; a2; a3; a4] empty_context
         = (Done r4, g4) ->
         NoDup (fst r4).
Proof.
  intros a run.
  destruct (run empty_context) as [[r| |] g'] eqn:Hrun.
  - assert (Hlen : length (textures demo_frontend demo_gl)
                   = Z.to_nat GL_CORE_NUM_TEXTURES) by reflexivity.
    assert (Hpos : 0 <= textures_index demo_frontend demo_gl)
      by (vm_compute; discriminate).
    destruct (streamed_texture_ring demo_frontend demo_gl a empty_context g'
                r Hlen Hpos Hrun)
      as (gl' & s' & Hr & _ & Hidx & Htex & _ & H4).
    exists gl', s'. cbn [fst].
    split; [f_equal; exact Hr|]. split; [exact Hidx|].
    split; [exact Htex | exact H4].
  - vm_compute in Hrun. discriminate.
  - vm_compute in Hrun. discriminate.
Defined.

(** ** The history of original frames *)

Lemma take_app_take {A} (k : nat) (l1 l2 : list A) :
  take k (l1 ++ take k l2) = take k (l1 ++ l2).
Proof.
  rewrite !take_app, take_take. f_equal. f_equal. lia.
Qed.

Lemma present_capacity (f : chain_frame_state)
    (t : gl_core_filter_chain_texture) :
  history_capacity (present f t) = history_capacity f.
Proof. reflexivity. Qed.

Lemma present_history (f : chain_frame_state)
    (t : gl_core_filter_chain_texture) :
  original_history (present f t)
  = take (history_capacity f) (t :: original_history f).
Proof. reflexivity. Qed.

Lemma presented_history (ts : list gl_core_filter_chain_texture) :
  forall f,
    (length (original_history f) <= history_capacity f)%nat ->
    history_capacity (foldl present f ts) = history_capacity f
    /\ original_history (foldl present f ts)
       = take (history_capacity f) (reverse ts ++ original_history f).
Proof.
  induction ts as [|t ts IH]; intros f Hwf; cbn [foldl].
  - split; [reflexivity|]. cbn [reverse rev_append app].
    symmetry. apply take_ge. assumption.
  - destruct (IH (present f t)) as [Hk Hring].
    { rewrite present_history, present_capacity, length_take. lia. }
    rewrite present_capacity in Hk, Hring. split; [assumption|].
    rewrite Hring, present_history, take_app_take, reverse_cons,
      <- app_assoc.
    reflexivity.
Qed.



(** ** Falling back to the stock chain *)

Lemma returns_null_Failed {A} (m : GL A) (g : gl_context) :
  returns_null (m g) = true -> exists g', m g = (Failed, g').
Proof.
  unfold returns_null. destruct (m g) as [[a| |] g']; cbn;
    [discriminate | eauto | discriminate].
Qed.

Section Fallback.
Context (E : collaborators) (F : frontend).

Lemma init_default_run (gl : gl_core_t F) (g : gl_context) :
  ctx_driver F gl = true ->
  gl_core_init_default_filter_chain E F gl g
  = (Done (bool_decide (is_Some (create_default E (filter_of_smooth F gl))),
           set_filter_chain F gl (create_default E (filter_of_smooth F gl))),
     g).
Proof.
  intros Hctx. unfold gl_core_init_default_filter_chain. rewrite Hctx.
  cbn [negb filter_chain set_filter_chain].
  destruct (create_default E (filter_of_smooth F gl)) as [stock|].
  - rewrite bool_decide_eq_true_2 by eauto. reflexivity.
  - rewrite bool_decide_eq_false_2 by (intros [? ?]; discriminate).
    reflexivity.
Qed.

Lemma init_preset_run (gl : gl_core_t F) (path : string) (g : gl_context) :
  returns_null
    (gl_core_filter_chain_create_from_preset E path (filter_of_smooth F gl) g)
  = true ->
  exists g',
    gl_core_init_filter_chain_preset E F gl path g
    = (Done (false, set_filter_chain F gl None), g').
Proof.
  intros Hnull. apply returns_null_Failed in Hnull as [g' Hg'].
  exists g'. unfold gl_core_init_filter_chain_preset. rewrite Hg'.
  reflexivity.
Qed.
End Fallback.

(** C5 (as amended).  When creating the chain from a preset fails, on a
    handle with a context driver (as [gl_core_init] makes them),
    [gl_core_set_shader] (and [gl_core_init_filter_chain] at start-up)
    falls back to [gl_core_filter_chain_create_default] and returns
    normally, [set_shader] reporting [false] for a slang preset; the
    handle then holds what that constructor returned, so whenever the
    stock chain can be built the handle holds it and is not left without
    a chain. *)
Theorem set_shader_falls_back_to_stock (E : collaborators) (F : frontend)
    (gl : gl_core_t F) (type : rarch_shader_type) (path : string)
    (g : gl_context) :
  ctx_driver F gl = true ->
  (forall g0,
      returns_null
        (gl_core_filter_chain_create_from_preset E path
           (filter_of_smooth F gl) g0) = true) ->
  (exists gl' g',
      gl_core_set_shader E F (Some gl) type (Some path) g
      = (Done (bool_decide (type ≠ RARCH_SHADER_SLANG), Some gl'), g')
      /\ filter_chain F gl' = create_default E (filter_of_smooth F gl))
  /\ (retroarch_get_shader_preset F = Some path ->
      video_shader_parse_type F (Some path) = RARCH_SHADER_SLANG ->
      exists gl' g',
        gl_core_init_filter_chain E F gl g = (Done (true, gl'), g')
        /\ filter_chain F gl' = create_default E (filter_of_smooth F gl))
  /\ forall stock,
       create_default E (filter_of_smooth F gl) = Some stock ->
       exists gl' g' ok,
         gl_core_set_shader E F (Some gl) type (Some path) g
         = (Done (ok, Some gl'), g')
         /\ filter_chain F gl' = Some stock.
Proof.
  intros Hctx Hfail.
  assert (Hset : exists gl' g',
      gl_core_set_shader E F (Some gl) type (Some path) g
      = (Done (bool_decide (type ≠ RARCH_SHADER_SLANG), Some gl'), g')
      /\ filter_chain F gl' = create_default E (filter_of_smooth F gl)).
  { unfold gl_core_set_shader.
    set (free := if bool_decide (is_Some (filter_chain F gl))
                 then call filter_chain_free else gl_ret tt).
    assert (Hfree : exists g1, free g = (Done tt, g1)).
    { unfold free. destruct (bool_decide _); eexists; reflexivity. }
    destruct Hfree as [g1 Hfree].
    unfold gl_bind at 1. rewrite Hfree.
    destruct (decide (type = RARCH_SHADER_SLANG)) as [->|Hne].
    - cbn [andb bool_decide decide_rel].
      rewrite bool_decide_eq_false_2 by (intros H; apply H; reflexivity).
      cbn [andb].
      destruct (init_preset_run E F (set_filter_chain F gl None) path g1
                  (Hfail g1)) as [g2 Hpre].
      unfold gl_bind at 1. rewrite Hpre. cbn [fst snd negb].
      unfold gl_bind. rewrite init_default_run by exact Hctx.
      do 2 eexists. split; reflexivity.
    - rewrite !bool_decide_eq_true_2 by eauto. cbn [andb].
      unfold gl_bind. rewrite init_default_run by exact Hctx.
      do 2 eexists. split; reflexivity. }
  split; [exact Hset|]. split.
  - intros Hpath Htype. unfold gl_core_init_filter_chain.
    rewrite Hpath, Htype.
    rewrite decide_False by discriminate.
    rewrite decide_False by (intros H; apply H; reflexivity).
    destruct (init_preset_run E F gl path g (Hfail g)) as [g2 Hpre].
    unfold gl_bind at 1. rewrite Hpre. cbn [fst snd].
    unfold gl_bind. rewrite init_default_run by exact Hctx.
    do 2 eexists. split; reflexivity.
  - intros stock Hstock. destruct Hset as (gl' & g' & Hrun & Hchain).
    exists gl', g'. eexists. split; [exact Hrun|]. congruence.
Qed.

Lemma set_shader_falls_back_to_stock_witness :
  let E := demo_collaborators [] [] [] 128 (Some 0%nat) (Some demo_chain) in
  exists gl' g',
    gl_core_set_shader E demo_frontend (Some demo_gl) RARCH_SHADER_SLANG
      (Some "missing.slangp"%string) empty_context
    = (Done (false, Some gl'), g')
    /\ filter_chain demo_frontend gl' = Some demo_chain.
Proof.
  intros E.
  assert (Hfail : forall g0,
             returns_null
               (gl_core_filter_chain_create_from_preset E "missing.slangp"
                  (filter_of_smooth demo_frontend demo_gl) g0) = true)
    by (intros g0; reflexivity).
  destruct (set_shader_falls_back_to_stock E demo_frontend demo_gl
              RARCH_SHADER_SLANG "missing.slangp" empty_context eq_refl Hfail)
    as ((gl' & g' & Hrun & Hchain) & _).
  exists gl', g'. split; [exact Hrun | exact Hchain].
Defined.

(** C5 as the claim states it fails: where the stock chain cannot be built
    ([gl_core_filter_chain_create_default] returns null), a slang preset
    that cannot be loaded costs the handle the chain it had.  The old
    chain is freed, the stock constructor's verdict is not looked at, the
    handle is left without a chain, and the next frame calls through the
    null chain. *)
Lemma stock_fallback_counterexample :
  let E := demo_collaborators [] [] [] 128 (Some 0%nat) None in
  let after :=
    gl_core_set_shader E demo_frontend (Some demo_gl) RARCH_SHADER_SLANG
      (Some "missing.slangp"%string) empty_context in
  returns_null
    (gl_core_filter_chain_create_from_preset E "missing.slangp"
       (filter_of_smooth demo_frontend demo_gl) empty_context) = true
  /\ ctx_driver demo_frontend demo_gl = true
  /\ filter_chain demo_frontend demo_gl = Some demo_chain
  /\ exists gl',
       fst after = Done (false, Some gl')
       /\ gl_calls (snd after) = [filter_chain_free]
       /\ filter_chain demo_frontend gl' = None
       /\ fst (gl_core_frame demo_frontend (Some gl') [7; 8; 9] 256 240 0
                 1024 "" demo_info (snd after))
          = Undefined.
Proof.
  cbv zeta. split; [reflexivity|]. split; [reflexivity|].
  split; [reflexivity|]. eexists. split; [vm_compute; reflexivity|].
  split; [vm_compute; reflexivity|]. split; vm_compute; reflexivity.
Qed.

(** ** Sizing a pass *)

Lemma Framebuffer_init_run (sz : Size2D) (fmt : GLenum) (max_lv : Z)
    (g : gl_context) :
  exists fb g',
    PassSizing.Framebuffer_init sz fmt max_lv g = (Done fb, g')
    /\ PassSizing.size fb = sz /\ PassSizing.format fb = fmt.
Proof.
  unfold PassSizing.Framebuffer_init.
  cbv [gl_bind call gen_texture gl_ret]. do 2 eexists.
  split; [reflexivity|]. split; reflexivity.
Qed.

Lemma Framebuffer_set_size_same (fb : PassSizing.Framebuffer) (sz : Size2D)
    (fmt : GLenum) (g : gl_context) :
  PassSizing.size fb = sz ->
  fmt = GL_ZERO_ENUM \/ fmt = PassSizing.format fb ->
  PassSizing.Framebuffer_set_size fb sz fmt g = (Done fb, g).
Proof.
  intros Hsz Hfmt. unfold PassSizing.Framebuffer_set_size.
  rewrite (bool_decide_eq_true_2 (sz = PassSizing.size fb)) by auto.
  destruct (decide (fmt = GL_ZERO_ENUM)) as [Hz|Hz].
  - rewrite bool_decide_eq_true_2 by reflexivity. reflexivity.
  - destruct Hfmt as [Hf|Hf]; [contradiction|].
    rewrite bool_decide_eq_true_2 by assumption. reflexivity.
Qed.

(** After [set_size], the framebuffer has the size asked for, and asking
    again for the same size and format changes nothing. *)
Lemma Framebuffer_set_size_settled (fb fb' : PassSizing.Framebuffer)
    (sz : Size2D) (fmt : GLenum) (g g' : gl_context) :
  PassSizing.Framebuffer_set_size fb sz fmt g = (Done fb', g') ->
  PassSizing.size fb' = sz
  /\ (fmt = GL_ZERO_ENUM \/ fmt = PassSizing.format fb').
Proof.
  unfold PassSizing.Framebuffer_set_size.
  destruct (decide (fmt = GL_ZERO_ENUM)) as [Hz|Hz].
  - destruct (bool_decide (sz = PassSizing.size fb) && _) eqn:Hsame.
    + apply andb_true_iff in Hsame as [Hs _].
      apply bool_decide_eq_true in Hs.
      intros H. apply gl_ret_Done in H as [<- _]. auto.
    + intros H. apply gl_bind_Done in H as (u & g1 & _ & H).
      destruct (Framebuffer_init_run sz (PassSizing.format fb)
                  (PassSizing.fb_max_levels fb) g1)
        as (fb1 & g2 & Hinit & Hs & Hf).
      rewrite Hinit in H. inversion H; subst. auto.
  - destruct (bool_decide (sz = PassSizing.size fb) && _) eqn:Hsame.
    + apply andb_true_iff in Hsame as [Hs Hf].
      apply bool_decide_eq_true in Hs, Hf.
      intros H. apply gl_ret_Done in H as [<- _]. auto.
    + intros H. apply gl_bind_Done in H as (u & g1 & _ & H).
      destruct (Framebuffer_init_run sz fmt (PassSizing.fb_max_levels fb) g1)
        as (fb1 & g2 & Hinit & Hs & Hf).
      rewrite Hinit in H. inversion H; subst. auto.
Qed.

(** C1.  For a pass info whose scale type is Source in both axes, where
    [round(source * scale)] is a value an [unsigned] can hold,
    [set_pass_info] returns that output size per axis, and calling it again
    with the same sizes and pass info returns the same size and leaves both
    the pass (its framebuffer included) and the GL context as they are:
    nothing is resized or reallocated. *)
Theorem source_scaled_size_idempotent (p : PassSizing.PassState)
    (max_original max_source : Size2D) (w h : Z)
    (info : gl_core_filter_chain_pass_info) (g : gl_context) :
  scale_type_x info = GL_CORE_FILTER_CHAIN_SCALE_SOURCE ->
  scale_type_y info = GL_CORE_FILTER_CHAIN_SCALE_SOURCE ->
  Float32.round_to_unsigned
    (Float32.mul (Float32.of_unsigned (width max_source)) (scale_x info))
    = Some w ->
  Float32.round_to_unsigned
    (Float32.mul (Float32.of_unsigned (height max_source)) (scale_y info))
    = Some h ->
  exists p' g',
    PassSizing.set_pass_info p max_original max_source info g
    = (Done ({| width := w; height := h |}, p'), g')
    /\ PassSizing.set_pass_info p' max_original max_source info g'
       = (Done ({| width := w; height := h |}, p'), g')
    /\ calls_of (PassSizing.set_pass_info p' max_original max_source info) g'
       = [].
Proof.
  intros Hx Hy Hw Hh.
  set (sz := {| width := w; height := h |}).
  assert (Hsize : forall q,
             PassSizing.current_viewport q = PassSizing.current_viewport p ->
             PassSizing.get_output_size q info max_original max_source
             = Some sz).
  { intros q _. unfold PassSizing.get_output_size. rewrite Hx, Hy.
    unfold PassSizing.scaled. rewrite Hw, Hh. reflexivity. }
  assert (Hfb : exists fb g',
             (if PassSizing.final_pass p then gl_ret None
              else
                match PassSizing.framebuffer p with
                | Some fb =>
                    gl_bind (PassSizing.Framebuffer_set_size fb sz
                               (rt_format info))
                            (fun fb' => gl_ret (Some fb'))
                | None =>
                    gl_bind (PassSizing.Framebuffer_init sz (rt_format info)
                               (max_levels info))
                            (fun fb' => gl_ret (Some fb'))
                end) g = (Done fb, g')
             /\ (PassSizing.final_pass p = true -> fb = None)
             /\ (PassSizing.final_pass p = false ->
                 exists fb1, fb = Some fb1
                   /\ PassSizing.size fb1 = sz
                   /\ (rt_format info = GL_ZERO_ENUM
                       \/ rt_format info = PassSizing.format fb1))).
  { destruct (PassSizing.final_pass p).
    - do 2 eexists. split; [reflexivity|]. split; [reflexivity|discriminate].
    - destruct (PassSizing.framebuffer p) as [fb0|].
      + destruct (PassSizing.Framebuffer_set_size fb0 sz (rt_format info) g)
          as [[fb1| |] g1] eqn:Hset.
        * exists (Some fb1), g1. unfold gl_bind. rewrite Hset.
          split; [reflexivity|]. split; [discriminate|]. intros _.
          apply Framebuffer_set_size_settled in Hset as [Hs Hf]. eauto.
        * exfalso. revert Hset. unfold PassSizing.Framebuffer_set_size.
          destruct (_ && _); [discriminate|].
          unfold gl_bind, call.
          destruct (Framebuffer_init_run sz
                      (if decide (rt_format info = GL_ZERO_ENUM)
                       then PassSizing.format fb0 else rt_format info)
                      (PassSizing.fb_max_levels fb0)
                      (mk_gl_context (gl_next_name g)
                         (gl_calls g
                            ++ [glDeleteTextures (PassSizing.image fb0)])))
            as (fb2 & g2 & -> & _). discriminate.
        * exfalso. revert Hset. unfold PassSizing.Framebuffer_set_size.
          destruct (_ && _); [discriminate|].
          unfold gl_bind, call.
          destruct (Framebuffer_init_run sz
                      (if decide (rt_format info = GL_ZERO_ENUM)
                       then PassSizing.format fb0 else rt_format info)
                      (PassSizing.fb_max_levels fb0)
                      (mk_gl_context (gl_next_name g)
                         (gl_calls g
                            ++ [glDeleteTextures (PassSizing.image fb0)])))
            as (fb2 & g2 & -> & _). discriminate.
      + destruct (Framebuffer_init_run sz (rt_format info) (max_levels info) g)
          as (fb1 & g1 & Hinit & Hs & Hf).
        exists (Some fb1), g1. unfold gl_bind. rewrite Hinit.
        split; [reflexivity|]. split; [discriminate|]. intros _.
        exists fb1. auto. }
  destruct Hfb as (fb & g' & Hrun & Hfinal & Hsized).
  set (p' := {| PassSizing.final_pass := PassSizing.final_pass p;
                PassSizing.pass_info_of_pass := Some info;
                PassSizing.current_framebuffer_size := sz;
                PassSizing.current_viewport := PassSizing.current_viewport p;
                PassSizing.framebuffer := fb |}).
  assert (Hfirst : PassSizing.set_pass_info p max_original max_source info g
                   = (Done (sz, p'), g')).
  { unfold PassSizing.set_pass_info. rewrite (Hsize p eq_refl).
    unfold gl_bind at 1. rewrite Hrun. reflexivity. }
  assert (Hagain : PassSizing.set_pass_info p' max_original max_source info g'
                   = (Done (sz, p'), g')).
  { unfold PassSizing.set_pass_info. rewrite (Hsize p' eq_refl).
    cbn [PassSizing.final_pass PassSizing.framebuffer p'].
    destruct (PassSizing.final_pass p) eqn:Hfp.
    - unfold p'. rewrite (Hfinal eq_refl). reflexivity.
    - destruct (Hsized eq_refl) as (fb1 & Hfb1 & Hs & Hf).
      rewrite Hfb1. unfold gl_bind.
      rewrite (Framebuffer_set_size_same fb1 sz (rt_format info) g' Hs Hf).
      unfold p'. rewrite Hfb1. reflexivity. }
  exists p', g'. split; [exact Hfirst|]. split; [exact Hagain|].
  unfold calls_of. rewrite Hagain. cbn [snd]. apply drop_all.
Qed.

Lemma source_scaled_size_idempotent_witness :
  let info := source_pass_info Float32.two in
  let source := {| width := 256; height := 240 |} in
  exists p' g',
    PassSizing.set_pass_info demo_pass_state source source info empty_context
    = (Done ({| width := 512; height := 480 |}, p'), g')
    /\ PassSizing.set_pass_info p' source source info g'
       = (Done ({| width := 512; height := 480 |}, p'), g')
    /\ calls_of (PassSizing.set_pass_info p' source source info) g' = [].
Proof.
  intros info source.
  apply (source_scaled_size_idempotent demo_pass_state source source 512 480
           info empty_context).
  - reflexivity.
  - reflexivity.
  - vm_compute. reflexivity.
  - vm_compute. reflexivity.
Defined.

(** ** A worked preset

    Two passes, the first scaled to twice its source and rendered to a
    framebuffer, the second drawn to the viewport: the loader records
    Source x 2.0 for pass 0 and Viewport x 1.0 for pass 1 and appends no
    further pass; for a 256x240 frame under a 1024x768 viewport the sizes
    are 512x480 and 1024x768. *)
Example two_pass_preset :
  let preset :=
    demo_preset [demo_pass "a.slang" (source_fbo Float32.two);
                 demo_pass "b.slang" no_fbo] in
  let E :=
    demo_collaborators [("p.slangp"%string, preset)]
      [("a.slang"%string, demo_output []); ("b.slang"%string, demo_output [])]
      [] 128 (Some 0%nat) None in
  let frame := {| width := 256; height := 240 |} in
  exists chain g' info0 info1,
    gl_core_filter_chain_create_from_preset E "p.slangp"
      GL_CORE_FILTER_CHAIN_NEAREST empty_context = (Done chain, g')
    /\ num_passes chain = 2%nat
    /\ chain_pass_info chain !! 0%nat = Some info0
    /\ chain_pass_info chain !! 1%nat = Some info1
    /\ (scale_type_x info0, scale_x info0)
       = (GL_CORE_FILTER_CHAIN_SCALE_SOURCE, Float32.two)
    /\ (scale_type_x info1, scale_x info1)
       = (GL_CORE_FILTER_CHAIN_SCALE_VIEWPORT, Float32.one)
    /\ PassSizing.get_output_size demo_pass_state info0 frame frame
       = Some {| width := 512; height := 480 |}
    /\ PassSizing.get_output_size demo_pass_state info1 frame
         {| width := 512; height := 480 |}
       = Some {| width := 1024; height := 768 |}.
Proof.
  intros preset E frame.
  destruct (gl_core_filter_chain_create_from_preset E "p.slangp"
              GL_CORE_FILTER_CHAIN_NEAREST empty_context)
    as [[chain| |] g'] eqn:Hrun; [|vm_compute in Hrun; discriminate..].
  exists chain, g'.
  assert (Hchain : fst (gl_core_filter_chain_create_from_preset E "p.slangp"
                          GL_CORE_FILTER_CHAIN_NEAREST empty_context)
                   = Done chain) by (rewrite Hrun; reflexivity).
  vm_compute in Hchain. inversion Hchain; subst chain; clear Hchain Hrun.
  do 2 eexists. split; [reflexivity|].
  split; [vm_compute; reflexivity|].
  split; [vm_compute; reflexivity|].
  split; [vm_compute; reflexivity|].
  repeat split; vm_compute; reflexivity.
Qed.

(** * Further properties of the code *)

(** ** The two level counters side by side *)

Lemma num_miplevels_max (w h : Z) :
  0 <= w < UINT_MOD -> 0 <= h < UINT_MOD ->
  num_miplevels w h
  = if Z.max w h =? 0 then 0 else Z.log2 (Z.max w h) + 1.
Proof.
  intros Hw Hh. unfold num_miplevels.
  assert (Hm : 0 <= Z.max w h < UINT_MOD) by lia.
  rewrite miplevels_loop_spec.
  - reflexivity.
  - rewrite Z2Nat.id by (unfold UINT_BITS; lia). exact Hm.
  - lia.
  - intros Hne. assert (1 <= Z.max w h < UINT_MOD) by lia.
    pose proof (log2_unsigned _ H). unfold UINT_MOD, UINT_BITS. simpl. lia.
Qed.

Lemma driver_num_miplevels_max (w h : Z) :
  0 <= w < UINT_MOD -> 0 <= h < UINT_MOD ->
  driver_num_miplevels w h
  = if Z.max w h =? 0 then 1 else Z.log2 (Z.max w h) + 1.
Proof.
  intros Hw Hh. unfold driver_num_miplevels.
  replace (if w <? h then h else w) with (Z.max w h)
    by (destruct (Z.ltb_spec w h); lia).
  destruct (Z.eqb_spec (Z.max w h) 0) as [H0 | Hne].
  - rewrite H0. reflexivity.
  - assert (H1 : 1 <= Z.max w h < UINT_MOD) by lia.
    pose proof (log2_unsigned _ H1).
    rewrite miplevels_loop_gt1_spec.
    + lia.
    + rewrite Z2Nat.id by (unfold UINT_BITS; lia). exact H1.
    + lia.
    + unfold UINT_MOD, UINT_BITS. simpl. lia.
Qed.

(** X1.  The two [num_miplevels] functions agree on every size that has a
    non-zero dimension; on 0x0 the filter chain's counts 0 levels and the
    driver's counts 1.  So the driver's count is the larger of 1 and the
    chain's, and the chain's is 0 only for 0x0. *)
Theorem miplevel_counters_agree (w h : Z) :
  0 <= w < UINT_MOD -> 0 <= h < UINT_MOD ->
  driver_num_miplevels w h = Z.max 1 (num_miplevels w h)
  /\ (num_miplevels w h = 0 <-> w = 0 /\ h = 0).
Proof.
  intros Hw Hh.
  rewrite driver_num_miplevels_max, num_miplevels_max by assumption.
  destruct (Z.eqb_spec (Z.max w h) 0) as [H0 | Hne].
  - split; [reflexivity | split; [lia | reflexivity]].
  - assert (H1 : 1 <= Z.max w h < UINT_MOD) by lia.
    pose proof (log2_unsigned _ H1). split; [lia | split; lia].
Qed.

Lemma miplevel_counters_agree_witness :
  (driver_num_miplevels 640 480 = Z.max 1 (num_miplevels 640 480)
   /\ (num_miplevels 640 480 = 0 <-> 640 = 0 /\ 480 = 0))
  /\ driver_num_miplevels 0 0 = 1 /\ num_miplevels 0 0 = 0.
Proof.
  split.
  - apply (miplevel_counters_agree 640 480);
      vm_compute; (split; [discriminate | reflexivity]).
  - split; reflexivity.
Defined.

(** X2.  For a size whose larger dimension is at least 1, [num_miplevels]
    gives between 1 and 32 levels; halving the larger dimension once per
    level after the first leaves exactly 1, and once more leaves 0: the
    chain of levels ends at a 1-texel level. *)
Theorem smallest_mip_level_is_one_texel (w h : Z) :
  0 <= w < UINT_MOD -> 0 <= h < UINT_MOD -> 1 <= Z.max w h ->
  1 <= num_miplevels w h <= UINT_BITS
  /\ Z.shiftr (Z.max w h) (num_miplevels w h - 1) = 1
  /\ Z.shiftr (Z.max w h) (num_miplevels w h) = 0.
Proof.
  intros Hw Hh H1.
  rewrite num_miplevels_max by assumption.
  destruct (Z.eqb_spec (Z.max w h) 0) as [H0 | Hne]; [lia |].
  assert (H2 : 1 <= Z.max w h < UINT_MOD) by lia.
  pose proof (log2_unsigned _ H2) as Hl.
  pose proof (Z.log2_spec (Z.max w h) ltac:(lia)) as [Hlo Hhi].
  set (m := Z.max w h) in *. set (k := Z.log2 m) in *.
  split; [unfold UINT_BITS; lia |].
  replace (k + 1 - 1) with k by lia.
  rewrite !Z.shiftr_div_pow2 by lia.
  split.
  - symmetry. apply Z.div_unique with (r := m - 2 ^ k).
    + left. rewrite Z.pow_succ_r in Hhi by lia. lia.
    + lia.
  - apply Z.div_small. replace (k + 1) with (Z.succ k) by lia. lia.
Qed.

Lemma smallest_mip_level_is_one_texel_witness :
  1 <= num_miplevels 640 480 <= UINT_BITS
  /\ Z.shiftr (Z.max 640 480) (num_miplevels 640 480 - 1) = 1
  /\ Z.shiftr (Z.max 640 480) (num_miplevels 640 480) = 0.
Proof.
  apply (smallest_mip_level_is_one_texel 640 480);
    vm_compute; first [discriminate | split; [discriminate | reflexivity]].
Defined.

(** X3.  [convert_glslang_format] returns 0 for [SLANG_FORMAT_UNKNOWN]
    and for no other format, and maps different formats to different GL
    formats; [address_to_gl] after [wrap_to_address] maps different wrap
    modes to different GL wrap modes. *)
Theorem conversions_lose_nothing (a b : glslang_format)
    (u v : gfx_wrap_type) :
  (convert_glslang_format a = GL_ZERO_ENUM <-> a = SLANG_FORMAT_UNKNOWN)
  /\ (convert_glslang_format a = convert_glslang_format b <-> a = b)
  /\ (address_to_gl (wrap_to_address u) = address_to_gl (wrap_to_address v)
      <-> u = v).
Proof.
  split; [|split].
  - split; [destruct a; (reflexivity || discriminate) | intros ->; reflexivity].
  - split; [|intros ->; reflexivity].
    destruct a; destruct b; (reflexivity || discriminate).
  - split; [|intros ->; reflexivity].
    destruct u; destruct v; (reflexivity || discriminate).
Qed.

(** ** Lookup textures *)

Section LutFacts.
Context (E : collaborators).

Lemma more_than_one_level (w h : Z) :
  0 <= w < UINT_MOD -> 0 <= h < UINT_MOD ->
  (1 <? num_miplevels w h) = (2 <=? Z.max w h).
Proof.
  intros Hw Hh. rewrite num_miplevels_max by assumption.
  destruct (Z.eqb_spec (Z.max w h) 0) as [H0 | Hne].
  - rewrite H0. reflexivity.
  - assert (H1 : 1 <= Z.max w h) by lia.
    destruct (Z.leb_spec 2 (Z.max w h)) as [H2 | H2].
    + pose proof (Z.log2_le_mono 2 _ H2) as Hl. change (Z.log2 2) with 1 in Hl.
      apply Z.ltb_lt. lia.
    + replace (Z.max w h) with 1 by lia. reflexivity.
Qed.

(** What one successful load does, call by call. *)
Lemma load_lut_run (shader : video_shader_lut) (image : texture_image)
    (g : gl_context) :
  image_texture_load E (lut_path shader) = Some image ->
  let levels :=
    if lut_mipmap shader
    then num_miplevels (image_width image) (image_height image) else 1 in
  let n := gl_next_name g in
  gl_core_filter_chain_load_lut E shader g
  = (Done {| st_id := lut_id shader; st_image := n;
             st_width := image_width image; st_height := image_height image;
             st_linear := bool_decide (lut_filter shader ≠ RARCH_FILTER_NEAREST);
             st_mipmap := 1 <? levels;
             st_address := address_to_gl (wrap_to_address (lut_wrap shader)) |},
     mk_gl_context (n + 1)
       (gl_calls g
          ++ [glGenTextures n; glBindTexture GL_TEXTURE_2D n;
              glTexStorage2D GL_TEXTURE_2D levels GL_RGBA8
                (image_width image) (image_height image);
              glTexSubImage2D GL_TEXTURE_2D 0 0 0
                (image_width image) (image_height image)
                GL_RGBA GL_UNSIGNED_BYTE (image_pixels image)]
          ++ (if 1 <? levels then [glGenerateMipmap GL_TEXTURE_2D] else [])
          ++ [glBindTexture GL_TEXTURE_2D 0])).
Proof.
  intros Hload levels n.
  unfold gl_core_filter_chain_load_lut, gl_bind, gl_lift.
  rewrite Hload. unfold gl_ret, call, gen_texture.
  cbn [fst snd gl_calls gl_next_name]. fold levels. fold n.
  destruct (1 <? levels); cbn [gl_calls gl_next_name];
    rewrite <- !app_assoc; reflexivity.
Qed.

Lemma load_lut_missing (shader : video_shader_lut) (g : gl_context) :
  image_texture_load E (lut_path shader) = None ->
  gl_core_filter_chain_load_lut E shader g = (Failed, g).
Proof.
  intros Hload. unfold gl_core_filter_chain_load_lut, gl_bind, gl_lift.
  rewrite Hload. reflexivity.
Qed.

Lemma calls_of_appended {A} (m : GL A) (g : gl_context) r n l :
  m g = (r, mk_gl_context n (gl_calls g ++ l)) -> calls_of m g = l.
Proof.
  intros H. unfold calls_of. rewrite H. cbn [snd gl_calls].
  apply drop_app_length.
Qed.
End LutFacts.

(** X4.  A lookup texture whose image loads gets the next fresh texture
    name.  It is recorded as mipmapped, and [glGenerateMipmap] is called,
    exactly when the preset asks for mipmaps and the image is larger than
    1x1.  The load ends with no texture bound. *)
Theorem lut_texture_mipmapped_iff (E : collaborators)
    (shader : video_shader_lut) (image : texture_image) (g : gl_context) :
  image_texture_load E (lut_path shader) = Some image ->
  0 <= image_width image < UINT_MOD -> 0 <= image_height image < UINT_MOD ->
  exists st g',
    gl_core_filter_chain_load_lut E shader g = (Done st, g')
    /\ st_image st = gl_next_name g
    /\ st_mipmap st
       = lut_mipmap shader
         && (2 <=? Z.max (image_width image) (image_height image))
    /\ (glGenerateMipmap GL_TEXTURE_2D
          ∈ calls_of (gl_core_filter_chain_load_lut E shader) g
        <-> st_mipmap st = true)
    /\ last (calls_of (gl_core_filter_chain_load_lut E shader) g)
       = Some (glBindTexture GL_TEXTURE_2D 0).
Proof.
  intros Hload Hw Hh.
  pose proof (load_lut_run E shader image g Hload) as Hrun. cbv zeta in Hrun.
  set (levels := if lut_mipmap shader
                 then num_miplevels (image_width image) (image_height image)
                 else 1) in *.
  eexists. eexists. split; [exact Hrun|].
  rewrite (calls_of_appended _ _ _ _ _ Hrun). cbn [st_image st_mipmap].
  assert (Hlv : (1 <? levels)
                = lut_mipmap shader
                  && (2 <=? Z.max (image_width image) (image_height image))).
  { unfold levels. destruct (lut_mipmap shader); [|reflexivity].
    cbn [andb]. apply more_than_one_level; assumption. }
  split; [reflexivity|]. split; [exact Hlv|]. split.
  - destruct (1 <? levels); cbn [app].
    + split; [reflexivity|]. intros _. set_solver.
    + split; [|discriminate]. intros Hin.
      repeat (apply elem_of_cons in Hin as [Hin | Hin]; [discriminate|]).
      inversion Hin.
  - destruct (1 <? levels); reflexivity.
Qed.

Lemma lut_texture_mipmapped_iff_witness :
  let E := demo_collaborators [] [] [("lut.png"%string, demo_image 1 1)]
             128 (Some 0%nat) None in
  exists st g',
    gl_core_filter_chain_load_lut E (demo_lut "lut.png" true) empty_context
    = (Done st, g')
    /\ st_image st = 1
    /\ st_mipmap st = false
    /\ (glGenerateMipmap GL_TEXTURE_2D
          ∈ calls_of (gl_core_filter_chain_load_lut E (demo_lut "lut.png" true))
              empty_context
        <-> st_mipmap st = true)
    /\ last (calls_of (gl_core_filter_chain_load_lut E (demo_lut "lut.png" true))
               empty_context)
       = Some (glBindTexture GL_TEXTURE_2D 0).
Proof.
  intros E.
  apply (lut_texture_mipmapped_iff E (demo_lut "lut.png" true) (demo_image 1 1)
           empty_context).
  - reflexivity.
  - vm_compute. split; [discriminate | reflexivity].
  - vm_compute. split; [discriminate | reflexivity].
Defined.

Section LutListFacts.
Context (E : collaborators).

Lemma load_luts_from_outcome (ls : list video_shader_lut) :
  forall chain g,
    (Forall (fun l => is_Some (image_texture_load E (lut_path l))) ls ->
     exists chain' g', load_luts_from E ls chain g = (Done chain', g'))
    /\ (~ Forall (fun l => is_Some (image_texture_load E (lut_path l))) ls ->
        exists g', load_luts_from E ls chain g = (Failed, g')).
Proof.
  induction ls as [|l ls IH]; intros chain g; cbn [load_luts_from].
  - split; [intros _; eauto | intros H; destruct H; constructor].
  - destruct (image_texture_load E (lut_path l)) as [image|] eqn:Hload.
    + pose proof (load_lut_run E l image g Hload) as Hrun. cbv zeta in Hrun.
      unfold gl_bind. rewrite Hrun. split.
      * intros Hall. apply Forall_cons in Hall as [_ Hall].
        apply IH. exact Hall.
      * intros Hnot. apply IH. intros Hall. apply Hnot.
        apply Forall_cons. split; [rewrite Hload; eauto | exact Hall].
    + unfold gl_bind. rewrite (load_lut_missing E l g Hload). split.
      * intros Hall. apply Forall_cons in Hall as [Hsome _].
        rewrite Hload in Hsome. destruct Hsome as [? Habs]. discriminate.
      * intros _. eauto.
Qed.

Lemma load_luts_from_order (ls : list video_shader_lut) :
  forall chain g chain' g',
    load_luts_from E ls chain g = (Done chain', g') ->
    exists new,
      chain_luts chain' = chain_luts chain ++ new
      /\ map st_id new = map lut_id ls
      /\ map st_image new
         = map (fun k => gl_next_name g + Z.of_nat k) (seq 0 (length ls))
      /\ gl_next_name g' = gl_next_name g + Z.of_nat (length ls).
Proof.
  induction ls as [|l ls IH]; intros chain g chain' g' H;
    cbn [load_luts_from] in H.
  - apply gl_ret_Done in H as [<- ->]. exists [].
    rewrite app_nil_r. cbn. repeat split; lia.
  - apply gl_bind_Done in H as (st & g1 & Hst & H).
    destruct (image_texture_load E (lut_path l)) as [image|] eqn:Hload.
    2:{ rewrite (load_lut_missing E l g Hload) in Hst. discriminate. }
    pose proof (load_lut_run E l image g Hload) as Hrun. cbv zeta in Hrun.
    rewrite Hrun in Hst. inversion Hst; subst st g1; clear Hst.
    apply IH in H as (new & Hluts & Hids & Himgs & Hnext).
    cbn [chain_add_static_texture chain_luts gl_next_name] in *.
    eexists (_ :: new). split; [rewrite Hluts, <- app_assoc; reflexivity|].
    cbn [map length seq st_id st_image]. rewrite Hids, Himgs.
    split; [reflexivity|]. split.
    + f_equal; [lia|]. rewrite <- seq_shift, map_map.
      apply map_ext. intros k. lia.
    + lia.
Qed.
End LutListFacts.

(** X5.  [gl_core_filter_chain_load_luts] returns true exactly when the
    image of every lookup texture of the preset loads; when it does not
    return true it returns false (there is no third outcome). *)
Theorem luts_load_all_or_nothing (E : collaborators)
    (chain : gl_core_filter_chain) (shader : video_shader) (g : gl_context) :
  (returns_value (gl_core_filter_chain_load_luts E chain shader g) = true
   <-> Forall (fun l => is_Some (image_texture_load E (lut_path l)))
              (lut shader))
  /\ (returns_value (gl_core_filter_chain_load_luts E chain shader g) = false
      -> returns_null (gl_core_filter_chain_load_luts E chain shader g)
         = true).
Proof.
  unfold gl_core_filter_chain_load_luts.
  destruct (load_luts_from_outcome E (lut shader) chain g) as [Hyes Hno].
  destruct (decide (Forall (fun l => is_Some (image_texture_load E (lut_path l)))
                      (lut shader))) as [Hall | Hnot].
  - destruct (Hyes Hall) as (chain' & g' & ->).
    split; [split; auto | discriminate].
  - destruct (Hno Hnot) as (g' & ->).
    split; [split; [discriminate | contradiction] | reflexivity].
Qed.

(** X6.  After a successful [gl_core_filter_chain_load_luts] the chain's
    static textures are the earlier ones followed by one per lookup texture
    of the preset, in the preset's order and under the preset's ids, each
    with a texture name of its own: the fresh names the GL handed out, in
    order. *)
Theorem luts_loaded_in_preset_order (E : collaborators)
    (chain chain' : gl_core_filter_chain) (shader : video_shader)
    (g g' : gl_context) :
  gl_core_filter_chain_load_luts E chain shader g = (Done chain', g') ->
  exists new,
    chain_luts chain' = chain_luts chain ++ new
    /\ map st_id new = map lut_id (lut shader)
    /\ map st_image new
       = map (fun k => gl_next_name g + Z.of_nat k) (seq 0 (luts shader))
    /\ NoDup (map st_image new).
Proof.
  intros H. unfold gl_core_filter_chain_load_luts in H.
  apply load_luts_from_order in H as (new & Hluts & Hids & Himgs & _).
  exists new. repeat split; try assumption.
  rewrite Himgs. apply NoDup_fmap_2; [|apply NoDup_seq].
  intros a b Hab. lia.
Qed.

Lemma luts_loaded_in_preset_order_witness :
  let E := demo_collaborators [] []
             [("a.png"%string, demo_image 4 4);
              ("b.png"%string, demo_image 8 2)] 128 (Some 0%nat) None in
  let shader :=
    {| pass := [];
       lut := [{| lut_id := "A"; lut_path := "a.png";
                  lut_filter := RARCH_FILTER_LINEAR;
                  lut_wrap := RARCH_WRAP_EDGE; lut_mipmap := false |};
               {| lut_id := "B"; lut_path := "b.png";
                  lut_filter := RARCH_FILTER_NEAREST;
                  lut_wrap := RARCH_WRAP_REPEAT; lut_mipmap := true |}];
       parameters := [] |} in
  exists chain' g' new,
    gl_core_filter_chain_load_luts E new_gl_core_filter_chain shader
      empty_context = (Done chain', g')
    /\ chain_luts chain' = [] ++ new
    /\ map st_id new = ["A"; "B"]%string
    /\ map st_image new = [1; 2]
    /\ NoDup (map st_image new).
Proof.
  intros E shader.
  destruct (gl_core_filter_chain_load_luts E new_gl_core_filter_chain shader
              empty_context) as [r g'] eqn:Hrun.
  assert (Hr : exists c, r = Done c).
  { vm_compute in Hrun. inversion Hrun. eauto. }
  destruct Hr as [c ->]. exists c, g'.
  destruct (luts_loaded_in_preset_order E new_gl_core_filter_chain c shader
              empty_context g' Hrun) as (new & H1 & H2 & H3 & H4).
  exists new. split; [reflexivity|]. repeat split; assumption.
Defined.

(** ** The parameter table a loaded chain carries *)

Section LoadedTable.
Context (E : collaborators).

Lemma declare_parameter_shader i m s c s' c' :
  declare_parameter E i m (s, c) = Some (s', c') ->
  s' = with_parameters s (parameters s') \/ s' = s.
Proof.
  unfold declare_parameter.
  destruct (GFX_MAX_PARAMETERS E <=? _); [discriminate|].
  destruct (list_find _ _) as [[k itr]|].
  - destruct (parameter_mismatch _ _); [discriminate|].
    intros H. inversion H; subst. right. reflexivity.
  - intros H. inversion H; subst. left. reflexivity.
Qed.

Lemma declare_parameters_lut i ms :
  forall s c s' c',
    declare_parameters E i ms (s, c) = Some (s', c') -> lut s' = lut s.
Proof.
  induction ms as [|m ms IH]; intros s c s' c' H; cbn [declare_parameters] in H.
  - inversion H; subst. reflexivity.
  - destruct (declare_parameter E i m (s, c)) as [[s1 c1]|] eqn:H1;
      [|discriminate].
    apply IH in H. rewrite H.
    apply declare_parameter_shader in H1 as [-> | ->]; reflexivity.
Qed.

Lemma configure_passes_lut filter0 todo :
  forall i s c s' c' g g',
    configure_passes E filter0 todo i (s, c) g = (Done (s', c'), g') ->
    lut s' = lut s.
Proof.
  induction todo as [|todo IH]; intros i s c s' c' g g' H;
    cbn [configure_passes] in H.
  - apply gl_ret_Done in H as [H _]. inversion H; subst. reflexivity.
  - apply gl_bind_Done in H as ([s1 c1] & g1 & H1 & H).
    apply IH in H. rewrite H. clear H.
    unfold configure_pass in H1. cbn [fst] in H1.
    destruct (pass s !! i) as [p|]; [|discriminate].
    apply gl_bind_Done in H1 as (out & g2 & _ & H1).
    apply gl_bind_Done in H1 as ([s2 c2] & g3 & Hd & H1).
    apply gl_lift_Done in Hd as [Hd ->].
    apply gl_ret_Done in H1 as [H1 _]. inversion H1; subst.
    eapply declare_parameters_lut. eassumption.
Qed.

(** The stages of a successful load, with the preset as it stands at each
    one. *)
Lemma create_stages path filter0 g chain g' :
  gl_core_filter_chain_create_from_preset E path filter0 g
    = (Done chain, g') ->
  exists conf shader0 table preset,
    let shader := video_shader_resolve_relative E shader0 path in
    config_file_new E path = Some conf
    /\ video_shader_read_conf_cgp E conf = Some shader0
    /\ pass shader ≠ []
    /\ table_run E [] (all_declared E shader) = Some table
    /\ video_shader_resolve_current_parameters E conf
         (with_parameters shader table) = Some preset
    /\ chain_shader_preset chain = Some preset.
Proof.
  intros Hrun.
  unfold gl_core_filter_chain_create_from_preset in Hrun.
  apply gl_bind_Done in Hrun as (conf & g1 & Hc & Hrun).
  apply gl_lift_Done in Hc as [Hc ->].
  apply gl_bind_Done in Hrun as (shader0 & g1 & Hs & Hrun).
  apply gl_lift_Done in Hs as [Hs ->].
  set (shader := video_shader_resolve_relative E shader0 path) in *.
  apply gl_bind_Done in Hrun as (is_fbo & g1 & Hlast & Hrun).
  apply gl_bind_Done in Hrun as (ch0 & g2 & _ & Hrun).
  apply gl_bind_Done in Hrun as ([s1 ch1] & g3 & Hloop & Hrun).
  apply gl_bind_Done in Hrun as (s2 & g4 & Hres & Hrun).
  apply gl_lift_Done in Hres as [Hres ->].
  apply gl_bind_Done in Hrun as (ch2 & g4 & Hinit & Hrun).
  apply gl_lift_Done in Hinit as [Hinit ->].
  apply gl_ret_Done in Hrun as [-> ->].
  pose proof (configure_passes_passes _ _ _ _ _ _ _ _ _ _ Hloop) as (Hp & _).
  pose proof (configure_passes_lut _ _ _ _ _ _ _ _ _ Hloop) as Hl.
  pose proof (configure_passes_table _ _ _ _ _ _ _ _ _ _ Hloop) as Ht.
  cbn [with_parameters pass lut parameters] in Hp, Hl, Ht.
  unfold passes in Ht. cbn [pass] in Ht.
  rewrite drop_0, firstn_all in Ht.
  exists conf, shader0, (parameters s1), s2. cbv zeta. fold shader.
  split; [assumption|]. split; [assumption|]. split.
  { intros Hnil. rewrite Hnil in Hlast. cbn in Hlast. discriminate. }
  split; [exact Ht|]. split.
  { replace (with_parameters shader (parameters s1)) with s1; [assumption|].
    destruct s1. unfold with_parameters. cbn in *. congruence. }
  unfold gl_core_filter_chain_init in Hinit.
  destruct (chain_init E _); [|discriminate].
  inversion Hinit as [Heq]. reflexivity.
Qed.

Lemma table_step_initial table m table' :
  table_step E table m = Some table' ->
  Forall (fun p => current p = initial p) table ->
  Forall (fun p => current p = initial p) table'.
Proof.
  unfold table_step.
  destruct (GFX_MAX_PARAMETERS E <=? _); [discriminate|].
  destruct (list_find _ _) as [[k itr]|].
  - destruct (parameter_mismatch _ _); [discriminate|].
    intros H. inversion H; subst. auto.
  - intros H Hall. inversion H; subst. apply Forall_app. split; [assumption|].
    apply Forall_singleton. reflexivity.
Qed.

Lemma table_run_initial ms :
  forall table table',
    table_run E table ms = Some table' ->
    Forall (fun p => current p = initial p) table ->
    Forall (fun p => current p = initial p) table'.
Proof.
  induction ms as [|m ms IH]; intros table table' H Hall;
    cbn [table_run] in H.
  - inversion H; subst. assumption.
  - destruct (table_step E table m) as [t1|] eqn:H1; [|discriminate].
    eapply IH; [eassumption|]. eapply table_step_initial; eassumption.
Qed.

Lemma substring_length (s : string) :
  forall n, String.length (substring 0 n s) = Nat.min n (String.length s).
Proof.
  induction s as [|a s IH]; intros [|n]; cbn; try reflexivity.
  rewrite IH. reflexivity.
Qed.
End LoadedTable.

(** X7.  A chain built from a preset carries the preset that
    [video_shader_resolve_current_parameters] returned for the table the
    loader built from the [#pragma parameter] lines.  That table holds at
    most [GFX_MAX_PARAMETERS] entries, and every entry starts with its
    current value equal to its initial value. *)
Theorem loaded_parameter_table_bounded (E : collaborators) (path : string)
    (filter0 : gl_core_filter_chain_filter) (g g' : gl_context)
    (chain : gl_core_filter_chain) :
  0 <= GFX_MAX_PARAMETERS E ->
  gl_core_filter_chain_create_from_preset E path filter0 g
    = (Done chain, g') ->
  exists conf shader0 table preset,
    let shader := video_shader_resolve_relative E shader0 path in
    config_file_new E path = Some conf
    /\ video_shader_read_conf_cgp E conf = Some shader0
    /\ table_run E [] (all_declared E shader) = Some table
    /\ video_shader_resolve_current_parameters E conf
         (with_parameters shader table) = Some preset
    /\ chain_shader_preset chain = Some preset
    /\ Z.of_nat (length table) <= GFX_MAX_PARAMETERS E
    /\ Forall (fun p => current p = initial p) table.
Proof.
  intros Hmax Hrun.
  apply create_stages in Hrun
    as (conf & shader0 & table & preset & Hc & Hs & _ & Ht & Hres & Hpre).
  exists conf, shader0, table, preset. cbv zeta.
  repeat (split; [assumption|]). split.
  - eapply table_run_length; [|exact Ht]. cbn. lia.
  - eapply table_run_initial; [exact Ht|]. constructor.
Qed.

Lemma loaded_parameter_table_bounded_witness :
  let E :=
    demo_collaborators
      [("p.slangp"%string, demo_preset [demo_pass "a.slang" no_fbo])]
      [("a.slang"%string,
        demo_output [demo_parameter "GAMMA" Float32.one;
                     demo_parameter "BLOOM" Float32.zero;
                     demo_parameter "GAMMA" Float32.one])]
      [] 128 (Some 0%nat) None in
  exists chain g' table preset,
    gl_core_filter_chain_create_from_preset E "p.slangp"
      GL_CORE_FILTER_CHAIN_LINEAR empty_context = (Done chain, g')
    /\ chain_shader_preset chain = Some preset
    /\ parameters preset = table
    /\ Z.of_nat (length table) <= 128
    /\ Forall (fun p => current p = initial p) table.
Proof.
  intros E.
  destruct (gl_core_filter_chain_create_from_preset E "p.slangp"
              GL_CORE_FILTER_CHAIN_LINEAR empty_context)
    as [[chain| |] g'] eqn:Hrun.
  - destruct (loaded_parameter_table_bounded E "p.slangp"
                GL_CORE_FILTER_CHAIN_LINEAR empty_context g' chain
                ltac:(discriminate) Hrun)
      as (conf & shader0 & table & preset & _ & _ & _ & Hres & Hpre & Hlen
          & Hinit).
    cbn in Hres. inversion Hres; subst preset; clear Hres.
    exists chain, g', table. eexists. split; [reflexivity|].
    split; [exact Hpre|]. split; [reflexivity|]. split; assumption.
  - vm_compute in Hrun. discriminate.
  - vm_compute in Hrun. discriminate.
Defined.

(** X8.  When every declared id fits the table's id buffer, the table a
    successful load built has pairwise distinct ids, and its ids are
    exactly the ids the shaders declare. *)
Theorem loaded_parameter_ids_distinct (E : collaborators) (path : string)
    (filter0 : gl_core_filter_chain_filter) (g g' : gl_context)
    (chain : gl_core_filter_chain) (conf : config_file_t E)
    (shader0 : video_shader) :
  config_file_new E path = Some conf ->
  video_shader_read_conf_cgp E conf = Some shader0 ->
  Forall (fun m => (String.length (meta_id m) < sizeof_id E)%nat)
         (all_declared E (video_shader_resolve_relative E shader0 path)) ->
  gl_core_filter_chain_create_from_preset E path filter0 g
    = (Done chain, g') ->
  exists table,
    table_run E [] (all_declared E (video_shader_resolve_relative E shader0 path))
      = Some table
    /\ NoDup (map id table)
    /\ forall name,
         name ∈ map id table
         <-> name ∈ map meta_id
                (all_declared E (video_shader_resolve_relative E shader0 path)).
Proof.
  intros Hconf Hread Hfit Hrun.
  apply create_stages in Hrun
    as (conf' & shader0' & table & preset & Hc & Hs & _ & Ht & _ & _).
  rewrite Hconf in Hc. inversion Hc; subst conf'; clear Hc.
  rewrite Hread in Hs. inversion Hs; subst shader0'; clear Hs.
  cbv zeta in Ht. exists table. split; [exact Ht|].
  destruct (table_run_ids E _ _ _ Hfit Ht) as [Hnd Hin].
  split; [apply Hnd; constructor|].
  intros name. rewrite Hin. cbn. split; [intros [H|H]; [inversion H | exact H]
                                        | auto].
Qed.

Lemma loaded_parameter_ids_distinct_witness :
  let preset := demo_preset [demo_pass "a.slang" (source_fbo Float32.one);
                             demo_pass "b.slang" no_fbo] in
  let E :=
    demo_collaborators [("p.slangp"%string, preset)]
      [("a.slang"%string,
        demo_output [demo_parameter "GAMMA" Float32.one;
                     demo_parameter "BLOOM" Float32.zero]);
       ("b.slang"%string,
        demo_output [demo_parameter "GAMMA" Float32.one])]
      [] 128 (Some 0%nat) None in
  exists table,
    table_run E [] (all_declared E preset) = Some table
    /\ NoDup (map id table)
    /\ forall name,
         name ∈ map id table
         <-> name ∈ ["GAMMA"; "BLOOM"; "GAMMA"]%string.
Proof.
  intros preset E.
  destruct (gl_core_filter_chain_create_from_preset E "p.slangp"
              GL_CORE_FILTER_CHAIN_LINEAR empty_context)
    as [[chain| |] g'] eqn:Hrun.
  - apply (loaded_parameter_ids_distinct E "p.slangp"
             GL_CORE_FILTER_CHAIN_LINEAR empty_context g' chain preset preset
             eq_refl eq_refl).
    + repeat (apply Forall_cons; split; [vm_compute; lia|]). apply Forall_nil_2.
    + exact Hrun.
  - vm_compute in Hrun. discriminate.
  - vm_compute in Hrun. discriminate.
Defined.

(** X9.  An id too long for the id buffer is never recognised as a
    repetition: the stored copy is cut short, so it differs from the
    declared id, and declaring the very same parameter twice adds two
    entries to the table. *)
Theorem overlong_parameter_id_never_matches (E : collaborators) (i : nat)
    (m : glslang_parameter) (shader : video_shader)
    (chain : gl_core_filter_chain) :
  (0 < sizeof_id E <= String.length (meta_id m))%nat ->
  Forall (fun p => id p ≠ meta_id m) (parameters shader) ->
  Z.of_nat (num_parameters shader) + 1 < GFX_MAX_PARAMETERS E ->
  exists shader' chain',
    declare_parameters E i [m; m] (shader, chain) = Some (shader', chain')
    /\ parameters shader'
       = parameters shader ++ [new_parameter E m; new_parameter E m]
    /\ id (new_parameter E m) ≠ meta_id m.
Proof.
  intros Hlong Hnew Hroom.
  assert (Hid : id (new_parameter E m) ≠ meta_id m).
  { cbn [new_parameter id]. unfold strlcpy. intros Heq.
    apply (f_equal String.length) in Heq.
    rewrite substring_length in Heq. lia. }
  assert (Hfind : forall table,
             Forall (fun p => id p ≠ meta_id m) table ->
             list_find (fun param => meta_id m = id param) table = None).
  { intros table Hall. apply list_find_None.
    eapply Forall_impl; [exact Hall|]. cbn. intros p Hp Heq. auto. }
  assert (Hstep : forall s c,
             Forall (fun p => id p ≠ meta_id m) (parameters s) ->
             Z.of_nat (num_parameters s) < GFX_MAX_PARAMETERS E ->
             declare_parameter E i m (s, c)
             = Some (with_parameters s (parameters s ++ [new_parameter E m]),
                     chain_add_parameter c i (num_parameters s) (meta_id m))).
  { intros s c Hall Hlt. unfold declare_parameter.
    destruct (Z.leb_spec (GFX_MAX_PARAMETERS E) (Z.of_nat (num_parameters s)))
      as [Hfull|_]; [lia|].
    rewrite (Hfind _ Hall). reflexivity. }
  cbn [declare_parameters].
  rewrite Hstep by (assumption || lia).
  rewrite Hstep.
  - eexists. eexists. split; [reflexivity|].
    cbn [parameters with_parameters]. rewrite <- app_assoc.
    split; [reflexivity | exact Hid].
  - cbn [parameters with_parameters]. apply Forall_app.
    split; [assumption|]. apply Forall_singleton. exact Hid.
  - unfold num_parameters in *. cbn [parameters with_parameters].
    rewrite length_app. cbn [length]. lia.
Qed.

Lemma overlong_parameter_id_never_matches_witness :
  let E := demo_collaborators [] [] [] 128 (Some 0%nat) None in
  let m :=
    demo_parameter
      "a_parameter_name_that_is_longer_than_the_sixty_three_characters_kept"
      Float32.one in
  exists shader' chain',
    declare_parameters E 0 [m; m] (demo_preset [], new_gl_core_filter_chain)
    = Some (shader', chain')
    /\ parameters shader' = [] ++ [new_parameter E m; new_parameter E m]
    /\ id (new_parameter E m) ≠ meta_id m.
Proof.
  intros E m.
  apply (overlong_parameter_id_never_matches E 0 m (demo_preset [])
           new_gl_core_filter_chain).
  - vm_compute. lia.
  - apply Forall_nil_2.
  - vm_compute. reflexivity.
Defined.

(** ** The render target of a pass *)

(** X10.  After a pass is configured its pass info has render target
    format 0 exactly when it is the last pass of the preset and the preset
    gives it no framebuffer; every other pass gets a GL format.  The last
    pass always has [max_levels] 1 and a nearest mip filter. *)
Theorem render_target_reserved_for_offscreen (E : collaborators)
    (filter0 : gl_core_filter_chain_filter) (i : nat)
    (s s' : video_shader) (c c' : gl_core_filter_chain) (g g' : gl_context)
    (p : video_shader_pass) :
  pass s !! i = Some p ->
  configure_pass E filter0 i (s, c) g = (Done (s', c'), g') ->
  exists info,
    chain_pass_info c' !! i = Some info
    /\ (rt_format info = GL_ZERO_ENUM
        <-> valid (fbo p) = false /\ S i = passes s)
    /\ (S i = passes s -> max_levels info = 1
                          /\ mip_filter info = GL_CORE_FILTER_CHAIN_NEAREST).
Proof.
  intros Hp H.
  pose proof (configure_pass_passes _ _ _ _ _ _ _ _ _ H) as (Hpass & _).
  unfold configure_pass in H. cbn [fst] in H. rewrite Hp in H.
  apply gl_bind_Done in H as (out & g1 & _ & H).
  apply gl_bind_Done in H as ([s1 c1] & g2 & Hd & H).
  apply gl_ret_Done in H as [H _]. inversion H; subst s' c'; clear H.
  eexists. split.
  { unfold chain_set_pass_info. cbn [chain_pass_info]. apply lookup_insert_eq. }
  assert (Hlen : passes s1 = passes s) by (unfold passes; congruence).
  unfold pass_info_of. rewrite Hlen.
  destruct (Nat.eqb_spec (i + 1) (passes s)) as [Hlast | Hnot].
  - assert (Hnext : (i + 1 <? passes s)%nat = false)
      by (apply Nat.ltb_ge; lia).
    rewrite Hnext.
    split.
    + destruct (valid (fbo p)); cbn [negb rt_format].
      * split; [|intros [? _]; discriminate].
        destruct (srgb_fbo (fbo p)); [discriminate|].
        destruct (fp_fbo (fbo p)); [discriminate|].
        case_decide as Hu; [discriminate|].
        intros H0. exfalso.
        destruct (meta_rt_format (meta out)); (discriminate || contradiction).
      * split; [intros _; split; [reflexivity | lia] | reflexivity].
    + intros _. destruct (valid (fbo p)); cbn [negb max_levels mip_filter];
        rewrite andb_false_r; split; reflexivity.
  - split; [|intros; lia].
    split; [|intros [_ ?]; lia].
    intros H0. exfalso. revert H0.
    destruct (valid (fbo p)); cbn [negb rt_format].
    + destruct (srgb_fbo (fbo p)); [discriminate|].
      destruct (fp_fbo (fbo p)); [discriminate|].
      case_decide as Hu; [discriminate|].
      destruct (meta_rt_format (meta out)); (discriminate || contradiction).
    + case_decide as Hu; [discriminate|].
      destruct (meta_rt_format (meta out)); (discriminate || contradiction).
Qed.

Lemma render_target_reserved_for_offscreen_witness :
  let E := demo_collaborators [] [("a.slang"%string, demo_output [])] []
             128 (Some 0%nat) None in
  let s := demo_preset [demo_pass "a.slang" no_fbo;
                        demo_pass "b.slang" no_fbo] in
  exists s' c' g' info,
    configure_pass E GL_CORE_FILTER_CHAIN_LINEAR 0
      (s, new_gl_core_filter_chain) empty_context = (Done (s', c'), g')
    /\ chain_pass_info c' !! 0%nat = Some info
    /\ rt_format info = GL_RGBA8
    /\ (rt_format info = GL_ZERO_ENUM
        <-> valid (fbo (demo_pass "a.slang" no_fbo)) = false
            /\ 1%nat = passes s).
Proof.
  intros E s.
  destruct (configure_pass E GL_CORE_FILTER_CHAIN_LINEAR 0
              (s, new_gl_core_filter_chain) empty_context)
    as [[[s' c']| |] g'] eqn:Hrun.
  - destruct (render_target_reserved_for_offscreen E
                GL_CORE_FILTER_CHAIN_LINEAR 0 s s' new_gl_core_filter_chain
                c' empty_context g' (demo_pass "a.slang" no_fbo) eq_refl Hrun)
      as (info & Hinfo & Hfmt & _).
    exists s', c', g', info. split; [reflexivity|]. split; [exact Hinfo|].
    split; [|exact Hfmt].
    vm_compute in Hrun. inversion Hrun; subst c'.
    vm_compute in Hinfo. inversion Hinfo. reflexivity.
  - vm_compute in Hrun. discriminate.
  - vm_compute in Hrun. discriminate.
Defined.

(** ** The viewport *)

Section ViewportFacts.
Context (F : frontend).

Lemma set_viewport_result (gl gl' : gl_core_t F) (info : video_frame_info_t)
    (w h : Z) (force_full allow_rotate : bool) (g g' : gl_context) :
  gl_core_set_viewport F gl info w h force_full allow_rotate g
    = (Done gl', g') ->
  exists v out,
    viewport_rect F gl info w h force_full = Some (v, out)
    /\ gl' = set_view F gl v
               (if negb force_full then out
                else (vp_out_width F gl, vp_out_height F gl))
               (gl_core_set_projection F gl allow_rotate)
    /\ g' = mk_gl_context (gl_next_name g)
              (gl_calls g ++ [glViewport (x v) (y v) (viewport_width v)
                                (viewport_height v)]).
Proof.
  unfold gl_core_set_viewport.
  destruct (viewport_rect F gl info w h force_full) as [[v out]|];
    [|discriminate].
  unfold gl_bind, call, gl_ret. cbn. intros H. inversion H; subst; clear H.
  exists v, out. repeat split.
Qed.

Lemma viewport_rect_forced (gl : gl_core_t F) (info : video_frame_info_t)
    (w h : Z) :
  viewport_rect F gl info w h true
  = Some ({| x := 0; y := 0; viewport_width := w; viewport_height := h |},
          (w, h)).
Proof.
  unfold viewport_rect. rewrite !andb_false_r. cbn.
  destruct (RARCH_MOBILE F && _); reflexivity.
Qed.
End ViewportFacts.

(** X11.  With [force_full] the viewport wrapper makes the whole window
    the viewport, whatever the aspect and integer-scaling settings: it
    issues [glViewport(0, 0, w, h)], copies the rectangle to
    [filter_chain_vp], and leaves [vp_out_width] and [vp_out_height] as
    they were. *)
Theorem forced_full_viewport (F : frontend) (gl : gl_core_t F)
    (info : video_frame_info_t) (w h : Z) (allow_rotate : bool)
    (g : gl_context) :
  exists gl',
    gl_core_set_viewport_wrapper F (Some gl) info w h true allow_rotate g
    = (Done gl',
       mk_gl_context (gl_next_name g) (gl_calls g ++ [glViewport 0 0 w h]))
    /\ vp F gl'
       = {| x := 0; y := 0; viewport_width := w; viewport_height := h |}
    /\ filter_chain_vp F gl'
       = {| vp_x := 0; vp_y := 0; vp_width := w; vp_height := h |}
    /\ vp_out_width F gl' = vp_out_width F gl
    /\ vp_out_height F gl' = vp_out_height F gl.
Proof.
  unfold gl_core_set_viewport_wrapper, gl_core_set_viewport.
  rewrite viewport_rect_forced.
  eexists. split; [reflexivity|]. repeat split.
Qed.

(** X12.  Without integer scaling and without the custom viewport, the
    rectangle [gl_core_set_viewport] settles on spans the window on at
    least one axis (x = 0 and the full width, or y = 0 and the full
    height), and the output size it returns is the rectangle's size. *)
Theorem viewport_spans_one_axis (F : frontend) (gl : gl_core_t F)
    (info : video_frame_info_t) (w h : Z) (force_full : bool)
    (v : video_viewport_t) (out : Z * Z) :
  scale_integer info = false ->
  HAVE_MENU F && (aspect_ratio_idx info =? ASPECT_RATIO_CUSTOM F) = false ->
  viewport_rect F gl info w h force_full = Some (v, out) ->
  out = (viewport_width v, viewport_height v)
  /\ ((x v = 0 /\ viewport_width v = w) \/ (y v = 0 /\ viewport_height v = h)).
Proof.
  intros Hint Hcustom. unfold viewport_rect.
  rewrite Hint, Hcustom. cbn [andb].
  set (device := video_context_driver_translate_aspect F _ w h).
  set (desired := video_driver_get_aspect_ratio F).
  assert (Hfin : forall (v0 : video_viewport_t) (out0 : Z * Z),
             out0 = (viewport_width v0, viewport_height v0) ->
             (x v0 = 0 /\ viewport_width v0 = w)
             \/ (y v0 = 0 /\ viewport_height v0 = h) ->
             (if RARCH_MOBILE F && Float32.ltb device Float32.one
              then
                if (- (UINT_MOD / 2) <=? 2 * y v0)
                   && (2 * y v0 <? UINT_MOD / 2)
                then Some ({| x := x v0; y := 2 * y v0;
                              viewport_width := viewport_width v0;
                              viewport_height := viewport_height v0 |}, out0)
                else None
              else Some (v0, out0)) = Some (v, out) ->
             out = (viewport_width v, viewport_height v)
             /\ ((x v = 0 /\ viewport_width v = w)
                 \/ (y v = 0 /\ viewport_height v = h))).
  { intros v0 out0 Hout Hax.
    destruct (RARCH_MOBILE F && _).
    - destruct ((_ <=? _) && _); [|discriminate].
      intros H. inversion H; subst; clear H. cbn. split; [reflexivity|].
      destruct Hax as [Hax | [Hy Hh]]; [left; exact Hax | right].
      split; [lia | exact Hh].
    - intros H. inversion H; subst; clear H. auto. }
  destruct (keep_aspect F gl && negb force_full).
  - destruct (Float32.ltb (Float32.fabsf _) _).
    + cbn [mbind option_bind]. apply Hfin; [reflexivity | left; auto].
    + destruct (Float32.ltb desired device).
      * destruct (Float32.round_to_int _) as [x'|]; [|discriminate].
        cbn [mbind option_bind].
        destruct (Float32.round_to_unsigned _) as [w'|]; [|discriminate].
        cbn [mbind option_bind]. apply Hfin; [reflexivity | right; auto].
      * destruct (Float32.round_to_int _) as [y'|]; [|discriminate].
        cbn [mbind option_bind].
        destruct (Float32.round_to_unsigned _) as [h'|]; [|discriminate].
        cbn [mbind option_bind]. apply Hfin; [reflexivity | left; auto].
  - cbn [mbind option_bind]. apply Hfin; [reflexivity | left; auto].
Qed.

Lemma viewport_spans_one_axis_witness :
  let gl :=
    {| ctx_driver := true; filter_chain := Some demo_chain;
       video_info := {| smooth := true; rgb32 := true |};
       keep_aspect := true; vp := vp demo_frontend demo_gl;
       filter_chain_vp := filter_chain_vp demo_frontend demo_gl;
       vp_out_width := 0; vp_out_height := 0;
       mvp := mvp demo_frontend demo_gl;
       mvp_yflip := mvp_yflip demo_frontend demo_gl;
       mvp_no_rot := mvp_no_rot demo_frontend demo_gl; rotation := 0;
       textures := textures demo_frontend demo_gl; textures_index := 0 |} in
  let v := {| x := 420; y := 0; viewport_width := 1080;
              viewport_height := 1080 |} in
  viewport_rect demo_frontend gl demo_info 1920 1080 false
  = Some (v, (1080, 1080))
  /\ (1080, 1080) = (viewport_width v, viewport_height v)
  /\ ((x v = 0 /\ viewport_width v = 1920)
      \/ (y v = 0 /\ viewport_height v = 1080)).
Proof.
  intros gl v.
  assert (Hrect : viewport_rect demo_frontend gl demo_info 1920 1080 false
                  = Some (v, (1080, 1080))) by (vm_compute; reflexivity).
  split; [exact Hrect|].
  exact (viewport_spans_one_axis demo_frontend gl demo_info 1920 1080 false v
           (1080, 1080) eq_refl eq_refl Hrect).
Defined.

(** ** Arithmetic of the bottom-up flip *)

Lemma to_int_wrap32 (z : Z) : to_int (wrap32 z) = to_int z.
Proof.
  unfold to_int, wrap32. rewrite Zplus_mod_idemp_l. reflexivity.
Qed.

Lemma wrap32_to_int_add (z k : Z) : wrap32 (to_int z + k) = wrap32 (z + k).
Proof.
  unfold to_int, wrap32.
  replace ((z + UINT_MOD / 2) mod UINT_MOD - UINT_MOD / 2 + k)
    with ((z + UINT_MOD / 2) mod UINT_MOD + (k - UINT_MOD / 2)) by lia.
  rewrite Zplus_mod_idemp_l. f_equal. lia.
Qed.

Lemma wrap32_sub_wrap32 (a b : Z) : wrap32 (a - wrap32 b) = wrap32 (a - b).
Proof. unfold wrap32. apply Zminus_mod_idemp_r. Qed.

Lemma to_int_small (z : Z) :
  - (UINT_MOD / 2) <= z < UINT_MOD / 2 -> to_int z = z.
Proof.
  intros Hz. unfold to_int.
  rewrite Z.mod_small; [lia|].
  change UINT_MOD with 4294967296 in *. change (4294967296 / 2) with 2147483648 in *.
  lia.
Qed.

(** X13.  A custom viewport comes back as it was given: after
    [gl_core_set_viewport_wrapper] with the custom aspect index (menu
    build, aspect kept, no integer scaling, not forced),
    [gl_core_viewport_info] under the same window height reports the
    custom x, y, width and height; the bottom-up y stored in between is
    flipped back. *)
Theorem custom_viewport_reported_back (F : frontend) (gl : gl_core_t F)
    (info : video_frame_info_t) (w h fw : Z) (allow_rotate : bool)
    (g : gl_context) :
  HAVE_MENU F = true -> RARCH_MOBILE F = false ->
  keep_aspect F gl = true -> scale_integer info = false ->
  aspect_ratio_idx info = ASPECT_RATIO_CUSTOM F ->
  - (UINT_MOD / 2) <= custom_vp_y info < UINT_MOD / 2 ->
  exists gl' g',
    gl_core_set_viewport_wrapper F (Some gl) info w h false allow_rotate g
    = (Done gl', g')
    /\ gl_core_viewport_info F gl' (fw, info_height info)
       = {| reported :=
              {| x := custom_vp_x info; y := custom_vp_y info;
                 viewport_width := custom_vp_width info;
                 viewport_height := custom_vp_height info |};
            full_width := fw;
            full_height := info_height info |}.
Proof.
  intros Hmenu Hmobile Hkeep Hint Hidx Hy.
  unfold gl_core_set_viewport_wrapper, gl_core_set_viewport.
  assert (Hrect :
      viewport_rect F gl info w h false
      = Some ({| x := custom_vp_x info;
                 y := to_int (info_height info - custom_vp_y info
                              - custom_vp_height info);
                 viewport_width := custom_vp_width info;
                 viewport_height := custom_vp_height info |},
              (custom_vp_width info, custom_vp_height info))).
  { unfold viewport_rect.
    rewrite Hint, Hkeep, Hmenu, Hmobile, Hidx, Z.eqb_refl. reflexivity. }
  rewrite Hrect. unfold gl_bind, call, gl_ret. cbn [fst snd].
  eexists. eexists. split; [reflexivity|].
  unfold gl_core_viewport_info.
  cbn [vp set_view x y viewport_width viewport_height fst snd].
  f_equal. f_equal.
  rewrite to_int_wrap32, wrap32_to_int_add.
  rewrite <- to_int_wrap32, wrap32_sub_wrap32, to_int_wrap32.
  replace (info_height info
           - (info_height info - custom_vp_y info - custom_vp_height info
              + custom_vp_height info)) with (custom_vp_y info) by lia.
  apply to_int_small. exact Hy.
Qed.

Lemma custom_viewport_reported_back_witness :
  exists gl' g',
    gl_core_set_viewport_wrapper menu_frontend (Some menu_gl) custom_info
      1024 768 false true empty_context = (Done gl', g')
    /\ gl_core_viewport_info menu_frontend gl' (1024, 768)
       = {| reported := {| x := 32; y := 24; viewport_width := 640;
                           viewport_height := 480 |};
            full_width := 1024; full_height := 768 |}.
Proof.
  apply (custom_viewport_reported_back menu_frontend menu_gl custom_info
           1024 768 1024 true empty_context);
    try reflexivity.
  vm_compute. split; [discriminate | reflexivity].
Defined.

(** ** A frame, stage by stage *)

Section FrameStages.
Context (F : frontend).

(** The upload when the slot already has the frame's size, and when it
    has not. *)
Lemma update_cpu_texture_same (gl : gl_core_t F)
    (streamed : gl_core_streamed_texture) (frame : pixels)
    (w h pitch : Z) (g : gl_context) :
  w = streamed_width streamed -> h = streamed_height streamed ->
  exists rest,
    gl_core_update_cpu_texture F gl streamed frame w h pitch g
    = (Done streamed, mk_gl_context (gl_next_name g) (gl_calls g ++ rest))
    /\ Forall (fun e => is_texture_allocation e = false) rest.
Proof.
  intros Hw Hh. unfold gl_core_update_cpu_texture.
  rewrite (bool_decide_eq_false_2 (w ≠ _)) by (intros Hne; contradiction).
  rewrite (bool_decide_eq_false_2 (h ≠ _)) by (intros Hne; contradiction).
  cbn [orb].
  destruct (rgb32 (video_info F gl));
    cbv [gl_bind call gen_texture gl_ret]; cbn [gl_calls gl_next_name];
    rewrite <- !app_assoc; eexists; (split; [reflexivity|]);
    cbn [app]; repeat (apply Forall_cons; split; [reflexivity|]);
    apply Forall_nil_2.
Qed.

Lemma update_cpu_texture_resized (gl : gl_core_t F)
    (streamed : gl_core_streamed_texture) (frame : pixels)
    (w h pitch : Z) (g : gl_context) :
  w ≠ streamed_width streamed \/ h ≠ streamed_height streamed ->
  exists rest,
    let n := gl_next_name g in
    gl_core_update_cpu_texture F gl streamed frame w h pitch g
    = (Done {| tex := n; streamed_width := w; streamed_height := h |},
       mk_gl_context (n + 1)
         (gl_calls g
            ++ (if bool_decide (tex streamed ≠ 0)
                then [glDeleteTextures (tex streamed)] else [])
            ++ [glGenTextures n; glBindTexture GL_TEXTURE_2D n;
                glTexStorage2D GL_TEXTURE_2D 1
                  (if rgb32 (video_info F gl) then GL_RGBA8 else GL_RGB565)
                  w h]
            ++ rest))
    /\ Forall (fun e => is_texture_allocation e = false) rest.
Proof.
  intros Hsize. unfold gl_core_update_cpu_texture.
  assert (Hb : bool_decide (w ≠ streamed_width streamed)
               || bool_decide (h ≠ streamed_height streamed) = true).
  { destruct Hsize as [H | H];
      rewrite (bool_decide_eq_true_2 _ H); [reflexivity | apply orb_true_r]. }
  rewrite Hb.
  destruct (bool_decide (tex streamed ≠ 0));
    destruct (rgb32 (video_info F gl));
    cbv [gl_bind call gen_texture gl_ret]; cbn [gl_calls gl_next_name];
    rewrite <- !app_assoc; cbn [app]; eexists; cbv zeta;
    (split; [reflexivity|]);
    repeat (apply Forall_cons; split; [reflexivity|]);
    apply Forall_nil_2.
Qed.

Lemma gl_core_frame_stages (gl : gl_core_t F) (frame : pixels)
    (w h count pitch : Z) (msg : string) (info : video_frame_info_t)
    (g g' : gl_context) (r : bool * option (gl_core_t F)) :
  gl_core_frame F (Some gl) frame w h count pitch msg info g = (Done r, g') ->
  exists streamed streamed' g1 gl1 g2 chain chain' rest,
    let slot := Z.to_nat (textures_index F gl) in
    textures F gl !! slot = Some streamed
    /\ gl_core_update_cpu_texture F gl streamed frame w h pitch g
       = (Done streamed', g1)
    /\ gl_core_set_viewport F
         (set_textures F gl (<[slot := streamed']> (textures F gl)))
         info (info_width info) (info_height info) false true g1
       = (Done gl1, g2)
    /\ filter_chain F gl = Some chain
    /\ r = (true,
            Some (set_textures_index F
                    (set_filter_chain F gl1 (Some chain'))
                    (Z.land (wrap32 (textures_index F gl + 1))
                            (GL_CORE_NUM_TEXTURES - 1))))
    /\ gl_calls g' = gl_calls g1 ++ rest
    /\ gl_next_name g' = gl_next_name g1
    /\ Forall (fun e => is_texture_allocation e = false) rest.
Proof.
  intros H. unfold gl_core_frame in H.
  destruct (textures F gl !! Z.to_nat (textures_index F gl))
    as [streamed|] eqn:Hslot; [|discriminate].
  apply gl_bind_Done in H as (s' & g1 & Hup & H).
  apply gl_bind_Done in H as (gl1 & g2 & Hvp & H).
  pose proof (set_viewport_run F _ _ _ _ _ _ _ _ _ Hvp)
    as (_ & Hfc & _ & Hidx & _).
  pose proof (set_viewport_result F _ _ _ _ _ _ _ _ _ Hvp)
    as (v & out & _ & _ & Hg2).
  cbn [filter_chain textures_index set_textures] in Hfc, Hidx.
  destruct (filter_chain F gl1) as [chain|] eqn:Hchain; [|discriminate].
  unfold chain_set_input_texture, chain_build_offscreen_passes,
    chain_build_viewport_pass, chain_end_frame in H.
  cbv [gl_bind call gl_ret] in H. rewrite !build_passes_run in H.
  cbn [gl_calls gl_next_name fst snd] in H.
  inversion H; subst r g'; clear H.
  exists streamed, s', g1, gl1, g2, chain. eexists. eexists. cbv zeta.
  split; [exact Hslot|]. split; [exact Hup|]. split; [exact Hvp|].
  split; [symmetry; assumption|].
  split; [rewrite Hidx; reflexivity|].
  subst g2. cbn [gl_calls gl_next_name].
  split; [rewrite <- !app_assoc; reflexivity|].
  split; [reflexivity|].
  repeat rewrite Forall_app. repeat rewrite Forall_cons.
  repeat split; try apply Forall_nil_2;
    apply Forall_forall; intros e He;
    apply list_elem_of_fmap in He as (k & -> & _); reflexivity.
Qed.
End FrameStages.

(** X14.  The rotation set by [gl_core_set_rotation] is what frames
    render with: after [gl_core_set_rotation(rot)] a successful
    [gl_core_frame] leaves [rotation] at [90 * rot] (as an [unsigned]),
    [mvp] at the rotation by that angle times the default projection,
    [mvp_yflip] at [mvp] with row 1 negated, and [mvp_no_rot] at the
    default projection. *)
Theorem rotation_applied_in_frames (F : frontend) (gl gl1 : gl_core_t F)
    (rot : Z) (frame : pixels) (w h count pitch : Z) (msg : string)
    (info : video_frame_info_t) (g g' : gl_context)
    (r : bool * option (gl_core_t F)) :
  gl_core_set_rotation F (Some gl) rot = Some gl1 ->
  gl_core_frame F (Some gl1) frame w h count pitch msg info g = (Done r, g') ->
  exists gl',
    r = (true, Some gl')
    /\ rotation F gl' = wrap32 (90 * rot)
    /\ mvp F gl'
       = matrix_4x4_multiply F (matrix_4x4_rotate_z F (wrap32 (90 * rot)))
           (matrix_4x4_ortho_default F)
    /\ mvp_yflip F gl' = matrix_negate_row1 F (mvp F gl')
    /\ mvp_no_rot F gl' = matrix_4x4_ortho_default F.
Proof.
  intros Hrot Hframe. cbn in Hrot. inversion Hrot; subst gl1; clear Hrot.
  apply gl_core_frame_stages in Hframe
    as (s & s' & g1 & gl2 & g2 & chain & chain' & rest & _ & _ & Hvp & _
        & -> & _).
  apply set_viewport_result in Hvp as (v & out & _ & -> & _).
  eexists. split; [reflexivity|]. repeat split.
Qed.

Lemma rotation_applied_in_frames_witness :
  exists gl',
    fst (gl_core_frame demo_frontend
           (gl_core_set_rotation demo_frontend (Some demo_gl) 3)
           [7; 8; 9] 256 240 0 1024 "" demo_info empty_context)
    = Done (true, Some gl')
    /\ rotation demo_frontend gl' = 270.
Proof.
  destruct (gl_core_frame demo_frontend
              (gl_core_set_rotation demo_frontend (Some demo_gl) 3)
              [7; 8; 9] 256 240 0 1024 "" demo_info empty_context)
    as [[r| |] g'] eqn:Hrun.
  - destruct (rotation_applied_in_frames demo_frontend demo_gl _ 3 [7; 8; 9]
                256 240 0 1024 "" demo_info empty_context g' r eq_refl Hrun)
      as (gl' & -> & Hr & _).
    exists gl'. split; [reflexivity | exact Hr].
  - vm_compute in Hrun. discriminate.
  - vm_compute in Hrun. discriminate.
Defined.

Lemma calls_of_suffix {A} (m : GL A) (g g' : gl_context) (r : result A)
    (l : list extern_call) :
  m g = (r, g') -> gl_calls g' = gl_calls g ++ l -> calls_of m g = l.
Proof.
  intros H Hl. unfold calls_of. rewrite H. cbn [snd]. rewrite Hl.
  apply drop_app_length.
Qed.

(** X15.  A frame of the size the current slot already has allocates
    nothing: it neither generates nor deletes a texture nor allocates
    storage, and the ring of streamed textures is left as it was. *)
Theorem steady_frames_allocate_nothing (F : frontend) (gl : gl_core_t F)
    (frame : pixels) (w h count pitch : Z) (msg : string)
    (info : video_frame_info_t) (g g' : gl_context)
    (r : bool * option (gl_core_t F)) (streamed : gl_core_streamed_texture) :
  textures F gl !! Z.to_nat (textures_index F gl) = Some streamed ->
  streamed_width streamed = w -> streamed_height streamed = h ->
  gl_core_frame F (Some gl) frame w h count pitch msg info g = (Done r, g') ->
  exists gl',
    r = (true, Some gl')
    /\ textures F gl' = textures F gl
    /\ gl_next_name g' = gl_next_name g
    /\ Forall (fun e => is_texture_allocation e = false)
         (calls_of (gl_core_frame F (Some gl) frame w h count pitch msg info)
            g).
Proof.
  intros Hslot Hw Hh Hframe.
  pose proof (gl_core_frame_stages F _ _ _ _ _ _ _ _ _ _ _ Hframe)
    as (s0 & s' & g1 & gl1 & g2 & chain & chain' & rest & Hs0 & Hup & Hvp & _
        & -> & Hlog & Hnext & Hrest).
  cbv zeta in Hs0. rewrite Hslot in Hs0. inversion Hs0; subst s0; clear Hs0.
  destruct (update_cpu_texture_same F gl streamed frame w h pitch g
              (eq_sym Hw) (eq_sym Hh)) as (up & Hup' & Hpure).
  rewrite Hup' in Hup. inversion Hup; subst s' g1; clear Hup.
  apply set_viewport_run in Hvp as (_ & _ & Htex & _ & _).
  eexists. split; [reflexivity|].
  cbn [textures set_textures_index set_filter_chain set_textures] in *.
  split; [rewrite Htex; apply list_insert_id; exact Hslot|].
  split; [exact Hnext|].
  cbn [gl_calls] in Hlog. rewrite <- app_assoc in Hlog.
  rewrite (calls_of_suffix _ _ _ _ _ Hframe Hlog).
  apply Forall_app. split; assumption.
Qed.

Lemma steady_frames_allocate_nothing_witness :
  let gl :=
    {| ctx_driver := true; filter_chain := Some demo_chain;
       video_info := {| smooth := true; rgb32 := false |};
       keep_aspect := false; vp := vp demo_frontend demo_gl;
       filter_chain_vp := filter_chain_vp demo_frontend demo_gl;
       vp_out_width := 0; vp_out_height := 0;
       mvp := mvp demo_frontend demo_gl;
       mvp_yflip := mvp_yflip demo_frontend demo_gl;
       mvp_no_rot := mvp_no_rot demo_frontend demo_gl; rotation := 0;
       textures :=
         replicate 4 {| tex := 5; streamed_width := 256;
                        streamed_height := 240 |};
       textures_index := 2 |} in
  let run := gl_core_frame demo_frontend (Some gl) [7; 8; 9] 256 240 0 512 ""
               demo_info in
  exists gl',
    fst (run empty_context) = Done (true, Some gl')
    /\ textures demo_frontend gl' = textures demo_frontend gl
    /\ Forall (fun e => is_texture_allocation e = false)
         (calls_of run empty_context).
Proof.
  intros gl run.
  destruct (run empty_context) as [[r| |] g'] eqn:Hrun.
  - destruct (steady_frames_allocate_nothing demo_frontend gl [7; 8; 9]
                256 240 0 512 "" demo_info empty_context g' r
                {| tex := 5; streamed_width := 256; streamed_height := 240 |}
                eq_refl eq_refl eq_refl Hrun)
      as (gl' & -> & Htex & _ & Hpure).
    exists gl'. split; [reflexivity|]. split; assumption.
  - vm_compute in Hrun. discriminate.
  - vm_compute in Hrun. discriminate.
Defined.

(** X16.  When the frame's size differs from the slot's,
    [gl_core_update_cpu_texture] replaces the slot's texture: it deletes
    the old texture if there is one, generates a fresh name, and allocates
    one level of storage of the frame's size (RGBA8 for 32-bit frames,
    RGB565 otherwise); these are its only allocation calls, and the slot
    ends with the fresh name and the frame's size. *)
Theorem resized_frame_replaces_texture (F : frontend) (gl : gl_core_t F)
    (streamed : gl_core_streamed_texture) (frame : pixels)
    (w h pitch : Z) (g : gl_context) :
  w ≠ streamed_width streamed \/ h ≠ streamed_height streamed ->
  exists g',
    gl_core_update_cpu_texture F gl streamed frame w h pitch g
    = (Done {| tex := gl_next_name g; streamed_width := w;
               streamed_height := h |}, g')
    /\ List.filter is_texture_allocation
         (calls_of (gl_core_update_cpu_texture F gl streamed frame w h pitch)
            g)
       = (if bool_decide (tex streamed ≠ 0)
          then [glDeleteTextures (tex streamed)] else [])
         ++ [glGenTextures (gl_next_name g);
             glTexStorage2D GL_TEXTURE_2D 1
               (if rgb32 (video_info F gl) then GL_RGBA8 else GL_RGB565)
               w h].
Proof.
  intros Hsize.
  destruct (update_cpu_texture_resized F gl streamed frame w h pitch g Hsize)
    as (rest & Hrun & Hpure).
  cbv zeta in Hrun. eexists. split; [exact Hrun|].
  rewrite (calls_of_suffix _ _ _ _ _ Hrun eq_refl).
  rewrite !List.filter_app, (filter_none _ rest) by exact Hpure.
  rewrite app_nil_r. f_equal.
  destruct (bool_decide (tex streamed ≠ 0)); reflexivity.
Qed.

Lemma resized_frame_replaces_texture_witness :
  let old := {| tex := 5; streamed_width := 256; streamed_height := 224 |} in
  exists g',
    gl_core_update_cpu_texture demo_frontend demo_gl old [7; 8; 9]
      256 240 1024 empty_context
    = (Done {| tex := 1; streamed_width := 256; streamed_height := 240 |}, g')
    /\ List.filter is_texture_allocation
         (calls_of (gl_core_update_cpu_texture demo_frontend demo_gl old
                      [7; 8; 9] 256 240 1024) empty_context)
       = [glDeleteTextures 5; glGenTextures 1;
          glTexStorage2D GL_TEXTURE_2D 1 GL_RGBA8 256 240].
Proof.
  intros old.
  apply (resized_frame_replaces_texture demo_frontend demo_gl old [7; 8; 9]
           256 240 1024 empty_context).
  right. cbn. discriminate.
Defined.

(** X17.  [gl_core_frame] on a handle with no filter chain has no defined
    behaviour: the chain's entry points are called through the null
    pointer. *)
Theorem frame_without_chain_undefined (F : frontend) (gl : gl_core_t F)
    (frame : pixels) (w h count pitch : Z) (msg : string)
    (info : video_frame_info_t) (g : gl_context) :
  filter_chain F gl = None ->
  fst (gl_core_frame F (Some gl) frame w h count pitch msg info g)
  = Undefined.
Proof.
  intros Hnone. unfold gl_core_frame.
  destruct (textures F gl !! Z.to_nat (textures_index F gl))
    as [streamed|]; [|reflexivity].
  destruct (update_cpu_texture_run F gl streamed frame w h pitch g)
    as (s' & g1 & pre & mid & fmt & ty & Hup & _).
  unfold gl_bind at 1. rewrite Hup.
  unfold gl_bind at 1.
  destruct (gl_core_set_viewport F _ info _ _ false true g1)
    as [[gl1| |] g2] eqn:Hvp.
  - apply set_viewport_run in Hvp as (_ & Hfc & _).
    cbn [filter_chain set_textures] in Hfc. rewrite Hfc, Hnone. reflexivity.
  - exfalso. unfold gl_core_set_viewport in Hvp.
    destruct (viewport_rect F _ info _ _ false) as [[v out]|];
      discriminate.
  - reflexivity.
Qed.

Lemma frame_without_chain_undefined_witness :
  fst (gl_core_frame demo_frontend (Some (gl_core_calloc demo_frontend))
         [7; 8; 9] 256 240 0 1024 "" demo_info empty_context)
  = Undefined.
Proof.
  apply (frame_without_chain_undefined demo_frontend
           (gl_core_calloc demo_frontend)).
  reflexivity.
Defined.

(** ** Choosing the chain *)

Section ChainChoice.
Context (E : collaborators) (F : frontend).

(** The stock chain, whether or not it could be built. *)
Lemma init_default_result (gl : gl_core_t F) (g : gl_context) :
  exists b,
    gl_core_init_default_filter_chain E F gl g
    = (Done (b,
             if ctx_driver F gl
             then set_filter_chain F gl
                    (create_default E (filter_of_smooth F gl))
             else gl), g)
    /\ (b = true ->
        ctx_driver F gl = true
        /\ is_Some (create_default E (filter_of_smooth F gl))).
Proof.
  unfold gl_core_init_default_filter_chain.
  destruct (ctx_driver F gl); cbn [negb].
  - cbn [filter_chain set_filter_chain].
    destruct (create_default E (filter_of_smooth F gl)) as [stock|];
      eexists; (split; [reflexivity|]); intros Hb;
      [split; [reflexivity | eauto] | discriminate].
  - eexists. split; [reflexivity | discriminate].
Qed.
End ChainChoice.

(** X18.  [gl_core_set_shader] with no path, or with a type other than
    slang, returns true without trying any preset: it frees the old chain
    if there is one, makes no other call, and leaves the stock chain, or no
    chain at all when the stock chain cannot be created. *)
Theorem set_shader_without_preset_reports_success (E : collaborators)
    (F : frontend) (gl : gl_core_t F) (type : rarch_shader_type)
    (path : option string) (g : gl_context) :
  type ≠ RARCH_SHADER_SLANG \/ path = None ->
  exists gl',
    gl_core_set_shader E F (Some gl) type path g
    = (Done (true, Some gl'),
       mk_gl_context (gl_next_name g)
         (gl_calls g ++ (if bool_decide (is_Some (filter_chain F gl))
                         then [filter_chain_free] else [])))
    /\ filter_chain F gl'
       = (if ctx_driver F gl then create_default E (filter_of_smooth F gl)
          else None).
Proof.
  intros Hwhy. unfold gl_core_set_shader.
  assert (Hpath : (if bool_decide (type ≠ RARCH_SHADER_SLANG)
                      && bool_decide (is_Some path)
                   then None else path) = None).
  { destruct Hwhy as [Hty | ->].
    - rewrite (bool_decide_eq_true_2 _ Hty). cbn [andb].
      destruct path; [|reflexivity].
      rewrite bool_decide_eq_true_2 by eauto. reflexivity.
    - destruct (_ && _); reflexivity. }
  rewrite Hpath.
  set (gl0 := set_filter_chain F gl None).
  destruct (init_default_result E F gl0 g) as (b & Hinit & _).
  assert (Hstart :
      (if bool_decide (is_Some (filter_chain F gl))
       then call filter_chain_free else gl_ret tt) g
      = (Done tt,
         mk_gl_context (gl_next_name g)
           (gl_calls g ++ (if bool_decide (is_Some (filter_chain F gl))
                           then [filter_chain_free] else [])))).
  { destruct (bool_decide (is_Some (filter_chain F gl))).
    - reflexivity.
    - unfold gl_ret. rewrite app_nil_r. destruct g. reflexivity. }
  unfold gl_bind at 1. rewrite Hstart.
  destruct (init_default_result E F gl0
              (mk_gl_context (gl_next_name g)
                 (gl_calls g ++ (if bool_decide (is_Some (filter_chain F gl))
                                 then [filter_chain_free] else []))))
    as (b' & Hinit' & _).
  unfold gl_bind. rewrite Hinit'. unfold gl_ret. cbn [snd].
  eexists. split; [reflexivity|].
  subst gl0. cbn [ctx_driver set_filter_chain].
  destruct (ctx_driver F gl); reflexivity.
Qed.

Lemma set_shader_without_preset_reports_success_witness :
  let E := demo_collaborators [] [] [] 128 (Some 0%nat) None in
  exists gl' g',
    gl_core_set_shader E demo_frontend (Some demo_gl) RARCH_SHADER_GLSL
      (Some "crt.glslp"%string) empty_context
    = (Done (true, Some gl'), g')
    /\ gl_calls g' = [filter_chain_free]
    /\ filter_chain demo_frontend gl' = None.
Proof.
  intros E.
  assert (Hty : RARCH_SHADER_GLSL ≠ RARCH_SHADER_SLANG) by discriminate.
  destruct (set_shader_without_preset_reports_success E demo_frontend demo_gl
              RARCH_SHADER_GLSL (Some "crt.glslp"%string) empty_context
              (or_introl Hty))
    as (gl' & Hrun & Hchain).
  exists gl'. eexists. split; [exact Hrun|]. split; [reflexivity|exact Hchain].
Defined.

(** X19.  [gl_core_init_filter_chain] returns true whenever the
    configured preset is of slang type, whether or not any chain could be
    created.  For every other type it makes no GL call and returns true
    only with a chain in place. *)
Theorem init_filter_chain_verdict (E : collaborators) (F : frontend)
    (gl gl' : gl_core_t F) (g g' : gl_context) (ok : bool) :
  gl_core_init_filter_chain E F gl g = (Done (ok, gl'), g') ->
  let type := video_shader_parse_type F (retroarch_get_shader_preset F) in
  (type = RARCH_SHADER_SLANG -> ok = true)
  /\ (type ≠ RARCH_SHADER_SLANG ->
      (ok = true -> is_Some (filter_chain F gl')) /\ g' = g).
Proof.
  unfold gl_core_init_filter_chain.
  set (type := video_shader_parse_type F (retroarch_get_shader_preset F)).
  intros H. cbv zeta.
  assert (Hdefault : forall gl0 g0 b gl1 g1,
             gl_core_init_default_filter_chain E F gl0 g0
             = (Done (b, gl1), g1) ->
             (b = true -> is_Some (filter_chain F gl1)) /\ g1 = g0).
  { intros gl0 g0 b gl1 g1 Hrun.
    destruct (init_default_result E F gl0 g0) as (b0 & Hinit & Hb).
    rewrite Hinit in Hrun. inversion Hrun; subst; clear Hrun.
    split; [|reflexivity]. intros Htrue.
    destruct (Hb Htrue) as [-> Hsome]. exact Hsome. }
  split.
  - intros Hslang. rewrite Hslang in H.
    destruct (decide (RARCH_SHADER_SLANG = RARCH_SHADER_NONE));
      [discriminate|].
    destruct (decide (RARCH_SHADER_SLANG ≠ RARCH_SHADER_SLANG));
      [contradiction|].
    destruct (retroarch_get_shader_preset F) as [path|].
    + apply gl_bind_Done in H as (r1 & g1 & _ & H).
      destruct (fst r1).
      * apply gl_ret_Done in H as [H _]. inversion H. reflexivity.
      * apply gl_bind_Done in H as (r2 & g2 & _ & H).
        apply gl_ret_Done in H as [H _]. inversion H. reflexivity.
    + apply gl_bind_Done in H as (r1 & g1 & _ & H).
      apply gl_ret_Done in H as [H _]. inversion H. reflexivity.
  - intros Hother. destruct (decide (type = RARCH_SHADER_NONE)).
    + eapply Hdefault. exact H.
    + destruct (decide (type ≠ RARCH_SHADER_SLANG)); [|contradiction].
      eapply Hdefault. exact H.
Qed.

Lemma init_filter_chain_verdict_witness :
  let E := demo_collaborators [] [] [] 128 (Some 0%nat) None in
  let F := slang_frontend (Some "missing.slangp"%string) in
  exists gl' g',
    gl_core_init_filter_chain E F (gl_core_calloc F) empty_context
    = (Done (true, gl'), g')
    /\ filter_chain F gl' = None.
Proof.
  intros E F.
  destruct (gl_core_init_filter_chain E F (gl_core_calloc F) empty_context)
    as [[[ok gl']| |] g'] eqn:Hrun.
  - pose proof (init_filter_chain_verdict E F (gl_core_calloc F) gl'
                  empty_context g' ok Hrun) as Hok.
    destruct Hok as [Hok _]. rewrite (Hok eq_refl) in *.
    exists gl', g'. split; [reflexivity|].
    vm_compute in Hrun. inversion Hrun. reflexivity.
  - vm_compute in Hrun. discriminate.
  - vm_compute in Hrun. discriminate.
Defined.

(** ** Polling the window *)

Lemma gl_core_alive_quitting (gl : gl_core_window) (is_shutdown : bool)
    (size : Z * Z) (check_window : Z * Z -> bool -> window_check) :
  let c := check_window size is_shutdown in
  let '(ret, gl', _) := gl_core_alive gl is_shutdown size check_window in
  quitting gl' = quitting gl || quit c
  /\ ret = negb (quitting gl || quit c)
  /\ should_resize gl' = should_resize gl || (negb (quit c) && resize c).
Proof.
  unfold gl_core_alive. cbv zeta.
  destruct (check_window size is_shutdown) as [q r tw th]. cbn [quit resize].
  destruct q, r; cbn; rewrite ?orb_true_r, ?orb_false_r; auto.
Qed.

(** X20.  A quit request is never forgotten: the k-th poll of
    [gl_core_alive] returns false exactly when the handle was already
    quitting or [check_window] has reported quit at that poll or an
    earlier one. *)
Theorem quit_request_is_latched (gl : gl_core_window)
    (checks : list window_check) :
  gl_core_alive_polls gl checks
  = map (fun k => negb (quitting gl || existsb quit (take (S k) checks)))
        (seq 0 (length checks)).
Proof.
  revert gl. induction checks as [|c checks IH]; intros gl; [reflexivity|].
  cbn [gl_core_alive_polls length seq map].
  pose proof (gl_core_alive_quitting gl false (0, 0) (fun _ _ => c)) as Hstep.
  cbv zeta in Hstep.
  destruct (gl_core_alive gl false (0, 0) (fun _ _ => c)) as [[ret gl'] sz].
  destruct Hstep as (Hq & Hret & _).
  rewrite IH, Hret. f_equal.
  - cbn. rewrite orb_false_r. reflexivity.
  - rewrite <- seq_shift, map_map. apply map_ext. intros k.
    rewrite Hq. cbn [take existsb]. rewrite orb_assoc. reflexivity.
Qed.

(** ** Loading and unloading textures *)

(** The filters and the level count the loader derives from the filter
    type, and what it does, call by call. *)
Lemma video_texture_load_run (ti : texture_image)
    (filter_type : texture_filter_type) (g : gl_context) :
  let n := gl_next_name g in
  let levels :=
    match filter_type with
    | TEXTURE_FILTER_MIPMAP_LINEAR | TEXTURE_FILTER_MIPMAP_NEAREST =>
        driver_num_miplevels (image_width ti) (image_height ti)
    | _ => 1
    end in
  let mag_filter :=
    match filter_type with
    | TEXTURE_FILTER_NEAREST => GL_NEAREST
    | _ => GL_LINEAR
    end in
  let min_filter :=
    match filter_type with
    | TEXTURE_FILTER_LINEAR => GL_LINEAR
    | TEXTURE_FILTER_NEAREST => GL_NEAREST
    | TEXTURE_FILTER_MIPMAP_NEAREST => GL_LINEAR_MIPMAP_NEAREST
    | TEXTURE_FILTER_MIPMAP_LINEAR => GL_LINEAR_MIPMAP_LINEAR
    end in
  video_texture_load_gl_core ti filter_type g
  = (Done n,
     mk_gl_context (n + 1)
       (gl_calls g
          ++ [glGenTextures n; glBindTexture GL_TEXTURE_2D n;
              glTexStorage2D GL_TEXTURE_2D levels GL_RGBA8
                (image_width ti) (image_height ti);
              glTexParameteri GL_TEXTURE_2D GL_TEXTURE_WRAP_S
                GL_CLAMP_TO_EDGE;
              glTexParameteri GL_TEXTURE_2D GL_TEXTURE_WRAP_T
                GL_CLAMP_TO_EDGE;
              glTexParameteri GL_TEXTURE_2D GL_TEXTURE_MAG_FILTER mag_filter;
              glTexParameteri GL_TEXTURE_2D GL_TEXTURE_MIN_FILTER min_filter;
              glPixelStorei GL_UNPACK_ALIGNMENT 4;
              glPixelStorei GL_UNPACK_ROW_LENGTH 0;
              glTexSubImage2D GL_TEXTURE_2D 0 0 0
                (image_width ti) (image_height ti)
                GL_RGBA GL_UNSIGNED_BYTE (image_pixels ti)]
          ++ (if 1 <? levels then [glGenerateMipmap GL_TEXTURE_2D] else [])
          ++ [glBindTexture GL_TEXTURE_2D 0])).
Proof.
  unfold video_texture_load_gl_core.
  destruct filter_type; cbv zeta;
    try change (1 <? 1) with false;
    try destruct (1 <? driver_num_miplevels _ _);
    cbv [gl_bind call gen_texture gl_ret]; cbn [gl_calls gl_next_name];
    rewrite <- !app_assoc; reflexivity.
Qed.

(** X21.  What [gl_core_load_texture] returns (not threaded) is the
    texture name it generated, and [gl_core_unload_texture] of that id
    deletes exactly that texture, so that a load followed by an unload
    leaves no texture behind; unloading id 0 does nothing. *)
Theorem unload_deletes_loaded_texture
    (video_thread_texture_load :
       option texture_image -> (option texture_image -> GL Z) -> GL Z)
    (HAVE_THREADS : bool) (ti : texture_image)
    (filter_type : texture_filter_type) (g : gl_context) :
  0 < gl_next_name g < UINT_MOD ->
  exists g1,
    gl_core_load_texture HAVE_THREADS video_thread_texture_load (Some ti)
      false filter_type g = (Done (gl_next_name g), g1)
    /\ calls_of (gl_core_unload_texture (gl_next_name g)) g1
       = [glDeleteTextures (gl_next_name g)]
    /\ live_textures
         (calls_of
            (gl_bind
               (gl_core_load_texture HAVE_THREADS video_thread_texture_load
                  (Some ti) false filter_type)
               gl_core_unload_texture) g) = ∅
    /\ gl_core_unload_texture 0 g = (Done tt, g).
Proof.
  intros Hname.
  pose proof (video_texture_load_run ti filter_type g) as Hload.
  cbv zeta in Hload.
  unfold gl_core_load_texture. rewrite andb_false_r.
  eexists. split; [exact Hload|].
  assert (Hun : gl_core_unload_texture (gl_next_name g)
                = call (glDeleteTextures (gl_next_name g))).
  { unfold gl_core_unload_texture.
    destruct (Z.eqb_spec (gl_next_name g) 0); [lia|].
    rewrite wrap32_small by lia. reflexivity. }
  split; [|split; [|reflexivity]].
  - rewrite Hun. unfold calls_of, call. cbn [snd gl_calls].
    apply drop_app_length.
  - unfold calls_of, gl_bind. rewrite Hload, Hun. unfold call.
    cbn [snd gl_calls]. rewrite <- !app_assoc, drop_app_length.
    destruct (1 <? _); cbn; set_solver.
Qed.

Lemma unload_deletes_loaded_texture_witness :
  exists g1,
    gl_core_load_texture true run_on_caller (Some (demo_image 64 64)) false
      TEXTURE_FILTER_MIPMAP_LINEAR empty_context = (Done 1, g1)
    /\ calls_of (gl_core_unload_texture 1) g1 = [glDeleteTextures 1]
    /\ live_textures
         (calls_of
            (gl_bind
               (gl_core_load_texture true run_on_caller
                  (Some (demo_image 64 64)) false
                  TEXTURE_FILTER_MIPMAP_LINEAR)
               gl_core_unload_texture) empty_context) = ∅
    /\ gl_core_unload_texture 0 empty_context = (Done tt, empty_context).
Proof.
  apply (unload_deletes_loaded_texture run_on_caller true (demo_image 64 64)
           TEXTURE_FILTER_MIPMAP_LINEAR empty_context).
  vm_compute. split; reflexivity.
Defined.

(** X22.  A threaded [gl_core_load_texture] does not tell nearest from
    linear: for [TEXTURE_FILTER_NEAREST] it hands the video thread the same
    loader as for [TEXTURE_FILTER_LINEAR], and for
    [TEXTURE_FILTER_MIPMAP_NEAREST] the same as for
    [TEXTURE_FILTER_MIPMAP_LINEAR].  Run on the caller, the threaded load
    of a nearest texture sets a linear magnification filter where the
    direct load sets nearest. *)
Theorem threaded_load_filters_linearly
    (video_thread_texture_load :
       option texture_image -> (option texture_image -> GL Z) -> GL Z)
    (data : option texture_image) (ti : texture_image) (g : gl_context) :
  gl_core_load_texture true video_thread_texture_load data true
    TEXTURE_FILTER_NEAREST
  = gl_core_load_texture true video_thread_texture_load data true
      TEXTURE_FILTER_LINEAR
  /\ gl_core_load_texture true video_thread_texture_load data true
       TEXTURE_FILTER_MIPMAP_NEAREST
     = gl_core_load_texture true video_thread_texture_load data true
         TEXTURE_FILTER_MIPMAP_LINEAR
  /\ glTexParameteri GL_TEXTURE_2D GL_TEXTURE_MAG_FILTER GL_LINEAR
       ∈ calls_of (gl_core_load_texture true run_on_caller (Some ti) true
                     TEXTURE_FILTER_NEAREST) g
  /\ glTexParameteri GL_TEXTURE_2D GL_TEXTURE_MAG_FILTER GL_NEAREST
       ∈ calls_of (gl_core_load_texture true run_on_caller (Some ti) false
                     TEXTURE_FILTER_NEAREST) g.
Proof.
  split; [reflexivity|]. split; [reflexivity|].
  unfold gl_core_load_texture, run_on_caller. cbn [andb].
  unfold video_texture_load_wrap_gl_core, calls_of, gl_bind.
  rewrite (video_texture_load_run ti TEXTURE_FILTER_LINEAR g).
  rewrite (video_texture_load_run ti TEXTURE_FILTER_NEAREST g).
  unfold gl_ret. cbn [snd gl_calls]. rewrite !drop_app_length.
  change (1 <? 1) with false. cbn [app]. split; set_solver.
Qed.

(** ** The textures of the ring from first frame to release *)

Lemma live_fold_pure (l : list extern_call) (names : gset Z) :
  Forall (fun e => is_texture_allocation e = false) l ->
  foldl live_step names l = names.
Proof.
  revert names. induction l as [|e l IH]; intros names Hl; [reflexivity|].
  apply Forall_cons in Hl as [He Hl]. cbn [foldl]. rewrite IH by exact Hl.
  destruct e; try reflexivity; discriminate.
Qed.

Section RingFacts.
Context (F : frontend).

Lemma update_keeps_ring_tracked (gl : gl_core_t F)
    (ts : list gl_core_streamed_texture) (slot : nat)
    (streamed streamed' : gl_core_streamed_texture) (frame : pixels)
    (w h pitch : Z) (g g1 : gl_context) (names : gset Z) :
  ts !! slot = Some streamed ->
  gl_core_update_cpu_texture F gl streamed frame w h pitch g
    = (Done streamed', g1) ->
  ring_tracked ts names (gl_next_name g) ->
  exists l,
    gl_calls g1 = gl_calls g ++ l
    /\ ring_tracked (<[slot := streamed']> ts) (foldl live_step names l)
         (gl_next_name g1).
Proof.
  intros Hslot Hup [Hnames Honce Holder Hnext].
  destruct (decide (w = streamed_width streamed
                    /\ h = streamed_height streamed)) as [[Hw Hh] | Hsize].
  - destruct (update_cpu_texture_same F gl streamed frame w h pitch g Hw Hh)
      as (rest & Hrun & Hpure).
    rewrite Hrun in Hup. inversion Hup; subst streamed' g1; clear Hup.
    exists rest. split; [reflexivity|].
    rewrite live_fold_pure by exact Hpure.
    rewrite list_insert_id by exact Hslot. cbn [gl_next_name].
    constructor; assumption.
  - assert (Hne : w ≠ streamed_width streamed
                  \/ h ≠ streamed_height streamed).
    { destruct (decide (w = streamed_width streamed)) as [Hw|Hw];
        [|left; exact Hw].
      right. intros Hh. apply Hsize. split; assumption. }
    destruct (update_cpu_texture_resized F gl streamed frame w h pitch g Hne)
      as (rest & Hrun & Hpure).
    cbv zeta in Hrun. set (n := gl_next_name g) in *.
    rewrite Hrun in Hup. inversion Hup; subst streamed' g1; clear Hup.
    eexists. split; [reflexivity|]. cbn [gl_next_name].
    rewrite foldl_app. cbn [foldl].
    rewrite (live_fold_pure rest) by exact Hpure.
    cbn [live_step].
    set (old := tex streamed).
    assert (Hslot_lt : (slot < length ts)%nat)
      by (eapply lookup_lt_Some; exact Hslot).
    assert (Hdel :
        forall m, m ∈ foldl live_step names
                        (if bool_decide (old ≠ 0)
                         then [glDeleteTextures old] else [])
                  <-> m ∈ names /\ m ≠ old).
    { intros m. destruct (bool_decide (old ≠ 0)) eqn:Hold; cbn.
      - set_solver.
      - apply bool_decide_eq_false in Hold.
        assert (old = 0) as Hz by (destruct (decide (old = 0)); tauto).
        split; [|tauto]. intros Hm. split; [exact Hm|].
        apply Hnames in Hm as [Hm0 _]. congruence. }
    constructor.
    + intros m. rewrite elem_of_union, elem_of_singleton, Hdel.
      split.
      * intros [-> | [Hm Hmold]].
        -- split; [lia|]. exists slot. eexists.
           split; [apply list_lookup_insert_eq; exact Hslot_lt | reflexivity].
        -- apply Hnames in Hm as [Hm0 (i & t & Hi & Ht)].
           split; [exact Hm0|]. exists i, t. split; [|exact Ht].
           rewrite list_lookup_insert_ne; [exact Hi|].
           intros <-. rewrite Hslot in Hi. inversion Hi; subst t.
           apply Hmold. symmetry. exact Ht.
      * intros [Hm0 (i & t & Hi & Ht)].
        destruct (decide (i = slot)) as [-> | Hi'].
        -- rewrite list_lookup_insert_eq in Hi by exact Hslot_lt.
           inversion Hi; subst t. cbn in Ht. left. symmetry. exact Ht.
        -- rewrite list_lookup_insert_ne in Hi by (intros Heq; auto).
           right. split.
           ++ apply Hnames. split; [exact Hm0|]. eauto.
           ++ intros ->. apply Hi'.
              eapply (Honce i slot t streamed); try eassumption.
              congruence.
    + intros i j ti tj Hi Hj Heq Hnz.
      destruct (decide (i = slot)) as [-> | Hi'];
        destruct (decide (j = slot)) as [-> | Hj']; [reflexivity| | |].
      * rewrite list_lookup_insert_eq in Hi by exact Hslot_lt.
        rewrite list_lookup_insert_ne in Hj by (intros Heq'; auto).
        inversion Hi; subst ti. cbn in Heq, Hnz. exfalso.
        assert (Hin : n ∈ names).
        { apply Hnames. split; [exact Hnz|]. exists j, tj. auto. }
        apply Holder in Hin. lia.
      * rewrite list_lookup_insert_ne in Hi by (intros Heq'; auto).
        rewrite list_lookup_insert_eq in Hj by exact Hslot_lt.
        inversion Hj; subst tj. cbn in Heq. exfalso.
        assert (Hin : n ∈ names).
        { apply Hnames. split; [congruence|]. exists i, ti. auto. }
        apply Holder in Hin. lia.
      * rewrite list_lookup_insert_ne in Hi by (intros Heq'; auto).
        rewrite list_lookup_insert_ne in Hj by (intros Heq'; auto).
        eapply Honce; eassumption.
    + intros m. rewrite elem_of_union, elem_of_singleton, Hdel.
      intros [-> | [Hm _]]; [lia|]. apply Holder in Hm. lia.
    + lia.
Qed.

Lemma frame_keeps_ring_tracked (gl : gl_core_t F) (frame : pixels)
    (w h count pitch : Z) (msg : string) (info : video_frame_info_t)
    (g g' : gl_context) (r : bool * option (gl_core_t F)) (names : gset Z) :
  gl_core_frame F (Some gl) frame w h count pitch msg info g = (Done r, g') ->
  ring_tracked (textures F gl) names (gl_next_name g) ->
  exists gl' l,
    snd r = Some gl'
    /\ gl_calls g' = gl_calls g ++ l
    /\ length (textures F gl') = length (textures F gl)
    /\ ring_tracked (textures F gl') (foldl live_step names l)
         (gl_next_name g').
Proof.
  intros Hframe Hinv.
  apply gl_core_frame_stages in Hframe
    as (s0 & s' & g1 & gl1 & g2 & chain & chain' & rest & Hs0 & Hup & Hvp & _
        & -> & Hlog & Hnext & Hrest).
  cbv zeta in Hs0.
  destruct (update_keeps_ring_tracked gl _ _ _ _ _ _ _ _ _ _ _ Hs0 Hup Hinv)
    as (l & Hl & Hinv1).
  apply set_viewport_run in Hvp as (_ & _ & Htex & _ & _).
  cbn [textures set_textures] in Htex.
  eexists. exists (l ++ rest). split; [reflexivity|].
  cbn [textures set_textures_index set_filter_chain].
  rewrite Htex, Hlog, Hl, <- app_assoc, foldl_app, length_insert, Hnext.
  rewrite (live_fold_pure rest) by exact Hrest.
  split; [reflexivity|]. split; [reflexivity | exact Hinv1].
Qed.

Lemma frames_keep_ring_tracked (inputs : list frame_args) :
  forall (gl : gl_core_t F) g r g' names,
    gl_core_frames F gl inputs g = (Done r, g') ->
    ring_tracked (textures F gl) names (gl_next_name g) ->
    exists l,
      gl_calls g' = gl_calls g ++ l
      /\ length (textures F (snd r)) = length (textures F gl)
      /\ ring_tracked (textures F (snd r)) (foldl live_step names l)
           (gl_next_name g').
Proof.
  induction inputs as [|a inputs IH]; intros gl g r g' names H Hinv;
    cbn [gl_core_frames] in H.
  - apply gl_ret_Done in H as [<- ->]. exists [].
    rewrite app_nil_r. cbn. auto.
  - apply gl_bind_Done in H as (r1 & g1 & Hframe & H).
    destruct (frame_keeps_ring_tracked _ _ _ _ _ _ _ _ _ _ _ _ Hframe Hinv)
      as (gl1 & l1 & Hr1 & Hl1 & Hlen1 & Hinv1).
    rewrite Hr1 in H.
    apply gl_bind_Done in H as (r2 & g2 & Hrest & H).
    apply gl_ret_Done in H as [<- ->].
    destruct (IH _ _ _ _ _ Hrest Hinv1) as (l2 & Hl2 & Hlen2 & Hinv2).
    exists (l1 ++ l2). cbn [snd].
    rewrite Hl2, Hl1, <- app_assoc, foldl_app, Hlen2, Hlen1.
    auto.
Qed.

Lemma release_ring (ts : list gl_core_streamed_texture) :
  forall names n,
    n ∈ foldl live_step names
          (logged_calls
             (flat_map
                (fun t => if bool_decide (tex t ≠ 0)
                          then [logged (glDeleteTextures (tex t))] else [])
                ts))
    <-> n ∈ names /\ ~ (n ≠ 0 /\ n ∈ map tex ts).
Proof.
  induction ts as [|t ts IH]; intros names n; cbn [flat_map map].
  - cbn. split; [intros Hn; split; [exact Hn|] | tauto].
    intros [_ Hin]. inversion Hin.
  - unfold logged_calls in *. rewrite omap_app, foldl_app.
    rewrite IH. rewrite elem_of_cons.
    destruct (bool_decide (tex t ≠ 0)) eqn:Hnz; cbn.
    + apply bool_decide_eq_true in Hnz. set_solver.
    + apply bool_decide_eq_false in Hnz.
      assert (tex t = 0) as Hz by (destruct (decide (tex t = 0)); tauto).
      split; [intros [Hn Hno]; split; [exact Hn|] | intros [Hn Hno]].
      * intros [Hn0 [-> | Hin]]; [congruence | tauto].
      * split; [exact Hn | tauto].
Qed.

Lemma logged_calls_app (l1 l2 : list teardown_call) :
  logged_calls (l1 ++ l2) = logged_calls l1 ++ logged_calls l2.
Proof. apply omap_app. Qed.

Lemma logged_calls_delete_program (program : GLuint) :
  logged_calls (delete_program program) = [].
Proof. unfold delete_program. destruct (bool_decide _); reflexivity. Qed.

(** The part of a release that reaches the GL log. *)
Lemma logged_calls_free (gl : gl_core_t F) (o : gl_core_objects) :
  logged_calls (gl_core_free F (Some (gl, o)))
  = (if bool_decide (is_Some (filter_chain F gl))
     then [filter_chain_free] else [])
    ++ logged_calls
         (flat_map
            (fun t => if bool_decide (tex t ≠ 0)
                      then [logged (glDeleteTextures (tex t))] else [])
            (take (Z.to_nat GL_CORE_NUM_TEXTURES) (textures F gl)))
    ++ (if bool_decide (menu_texture o ≠ 0)
        then [glDeleteTextures (menu_texture o)] else []).
Proof.
  unfold gl_core_free, gl_core_destroy_resources.
  rewrite !logged_calls_app, !logged_calls_delete_program.
  change (logged_calls [font_driver_free_osd; video_context_driver_free])
    with (@nil extern_call).
  change (logged_calls [glBindVertexArray 0]) with (@nil extern_call).
  change (logged_calls [free_gl]) with (@nil extern_call).
  rewrite !app_nil_r. cbn [app].
  destruct (bool_decide (is_Some (filter_chain F gl)));
    destruct (bool_decide (vao o ≠ 0));
    destruct (bool_decide (menu_texture o ≠ 0)); reflexivity.
Qed.
End RingFacts.

(** X23.  No streamed texture leaks.  Starting from a handle whose ring
    holds no texture, after any run of successful frames the textures
    generated and not yet deleted are exactly the non-zero names in the
    ring; [gl_core_free] then deletes every one of them. *)
Theorem streamed_textures_released (F : frontend) (gl : gl_core_t F)
    (o : gl_core_objects) (inputs : list frame_args) (g g' : gl_context)
    (r : list nat * gl_core_t F) :
  Forall (fun t => tex t = 0) (textures F gl) ->
  (length (textures F gl) <= Z.to_nat GL_CORE_NUM_TEXTURES)%nat ->
  0 < gl_next_name g ->
  gl_core_frames F gl inputs g = (Done r, g') ->
  let played := calls_of (gl_core_frames F gl inputs) g in
  (forall n, n ∈ live_textures played
             <-> n ≠ 0 /\ n ∈ map tex (textures F (snd r)))
  /\ live_textures
       (played ++ logged_calls (gl_core_free F (Some (snd r, o)))) = ∅.
Proof.
  intros Hfresh Hlen Hnext Hrun played.
  assert (Hinv : ring_tracked (textures F gl) ∅ (gl_next_name g)).
  { constructor.
    - intros n. split; [set_solver|].
      intros [Hn (i & t & Hi & Ht)]. exfalso. apply Hn. rewrite <- Ht.
      eapply Forall_lookup_1 in Hfresh; [exact Hfresh | exact Hi].
    - intros i j ti tj Hi _ _ Hnz. exfalso. apply Hnz.
      eapply Forall_lookup_1 in Hfresh; [exact Hfresh | exact Hi].
    - set_solver.
    - exact Hnext. }
  destruct (frames_keep_ring_tracked F inputs gl g r g' ∅ Hrun Hinv)
    as (l & Hl & Hlen' & [Hnames _ _ _]).
  assert (Hplayed : played = l).
  { unfold played. eapply calls_of_suffix; eassumption. }
  rewrite Hplayed. unfold live_textures.
  assert (Hin : forall n,
             n ∈ foldl live_step ∅ l
             <-> n ≠ 0 /\ n ∈ map tex (textures F (snd r))).
  { intros n. rewrite Hnames. split; intros [Hn Hex]; (split; [exact Hn|]).
    - destruct Hex as (i & t & Hi & <-).
      apply list_elem_of_fmap. exists t. split; [reflexivity|].
      eapply list_elem_of_lookup_2. exact Hi.
    - apply list_elem_of_fmap in Hex as (t & -> & Ht).
      apply list_elem_of_lookup_1 in Ht as [i Hi]. eauto. }
  split; [exact Hin|].
  rewrite logged_calls_free, firstn_all2 by lia.
  rewrite !foldl_app.
  set (S0 := foldl live_step (foldl live_step ∅ l) _).
  assert (HS0 : S0 = foldl live_step ∅ l).
  { unfold S0.
    destruct (bool_decide (is_Some (filter_chain F (snd r)))); reflexivity. }
  set (S1 := foldl live_step S0 _).
  assert (HS1 : S1 = ∅).
  { apply set_eq. intros n. unfold S1.
    rewrite (release_ring (textures F (snd r)) S0 n), HS0, Hin.
    set_solver. }
  rewrite HS1.
  destruct (bool_decide (menu_texture o ≠ 0)); cbn [foldl live_step];
    [set_solver | reflexivity].
Qed.

Lemma streamed_textures_released_witness :
  let o := {| vao := 1; menu_texture := 0;
              pipelines := {| alpha_blend := 0; font := 0; ribbon := 0;
                              ribbon_simple := 0; snow_simple := 0;
                              snow := 0; bokeh := 0 |} |} in
  let inputs := [demo_args [1]; demo_args [2]; demo_args [3]; demo_args [4];
                 demo_args [5]] in
  exists r g',
    gl_core_frames demo_frontend demo_gl inputs empty_context = (Done r, g')
    /\ (forall n,
          n ∈ live_textures
                (calls_of (gl_core_frames demo_frontend demo_gl inputs)
                   empty_context)
          <-> n ≠ 0 /\ n ∈ map tex (textures demo_frontend (snd r)))
    /\ live_textures
         (calls_of (gl_core_frames demo_frontend demo_gl inputs)
            empty_context
          ++ logged_calls (gl_core_free demo_frontend (Some (snd r, o))))
       = ∅.
Proof.
  intros o inputs.
  destruct (gl_core_frames demo_frontend demo_gl inputs empty_context)
    as [[r| |] g'] eqn:Hrun.
  - exists r, g'. split; [reflexivity|].
    apply (streamed_textures_released demo_frontend demo_gl o inputs
             empty_context g' r).
    + repeat (apply Forall_cons; split; [reflexivity|]). apply Forall_nil_2.
    + vm_compute. lia.
    + reflexivity.
    + exact Hrun.
  - vm_compute in Hrun. discriminate.
  - vm_compute in Hrun. discriminate.
Defined.

(** X24.  A viewport set with [allow_rotate] false leaves [mvp_yflip]
    untouched: [mvp] and [mvp_no_rot] become the default projection, while
    [mvp_yflip] and [rotation] keep their earlier values. *)
Theorem unrotated_viewport_keeps_flipped_matrix (F : frontend)
    (gl gl' : gl_core_t F) (info : video_frame_info_t) (w h : Z)
    (force_full : bool) (g g' : gl_context) :
  gl_core_set_viewport_wrapper F (Some gl) info w h force_full false g
    = (Done gl', g') ->
  mvp F gl' = matrix_4x4_ortho_default F
  /\ mvp_no_rot F gl' = matrix_4x4_ortho_default F
  /\ mvp_yflip F gl' = mvp_yflip F gl
  /\ rotation F gl' = rotation F gl.
Proof.
  unfold gl_core_set_viewport_wrapper. intros H.
  apply set_viewport_result in H as (v & out & _ & -> & _).
  repeat split.
Qed.

Lemma unrotated_viewport_keeps_flipped_matrix_witness :
  exists gl' g',
    gl_core_set_viewport_wrapper demo_frontend (Some demo_gl) demo_info
      1024 768 false false empty_context = (Done gl', g')
    /\ mvp_yflip demo_frontend gl' = mvp_yflip demo_frontend demo_gl.
Proof.
  destruct (gl_core_set_viewport_wrapper demo_frontend (Some demo_gl)
              demo_info 1024 768 false false empty_context)
    as [[gl'| |] g'] eqn:Hrun.
  - exists gl', g'. split; [reflexivity|].
    destruct (unrotated_viewport_keeps_flipped_matrix demo_frontend demo_gl
                gl' demo_info 1024 768 false empty_context g' Hrun)
      as (_ & _ & Hflip & _).
    exact Hflip.
  - vm_compute in Hrun. discriminate.
  - vm_compute in Hrun. discriminate.
Defined.

Lemma driver_more_than_one_level (w h : Z) :
  0 <= w < UINT_MOD -> 0 <= h < UINT_MOD ->
  (1 <? driver_num_miplevels w h) = (2 <=? Z.max w h).
Proof.
  intros Hw Hh. unfold driver_num_miplevels.
  replace (if w <? h then h else w) with (Z.max w h)
    by (destruct (Z.ltb_spec w h); lia).
  destruct (Z.leb_spec 2 (Z.max w h)) as [H2 | H2].
  - rewrite miplevels_loop_gt1_spec.
    + pose proof (Z.log2_le_mono 2 _ H2) as Hl. change (Z.log2 2) with 1 in Hl.
      apply Z.ltb_lt. lia.
    + rewrite Z2Nat.id by (unfold UINT_BITS; lia).
      unfold UINT_MOD in Hw, Hh. lia.
    + lia.
    + assert (H1 : 1 <= Z.max w h < UINT_MOD) by lia.
      pose proof (log2_unsigned _ H1). unfold UINT_MOD, UINT_BITS. simpl. lia.
  - assert (Hm : Z.max w h = 0 \/ Z.max w h = 1) by lia.
    destruct Hm as [-> | ->]; reflexivity.
Qed.

(** X25.  [video_texture_load_gl_core] returns the fresh texture name
    and ends with no texture bound.  It calls [glGenerateMipmap] exactly
    when a mipmap filter is asked for and the image is larger than 1x1,
    while the minification filter follows the filter type alone (a 1x1
    image loaded with [TEXTURE_FILTER_MIPMAP_LINEAR] gets a mipmap filter
    and a single level). *)
Theorem loaded_texture_mipmapped_iff (ti : texture_image)
    (filter_type : texture_filter_type) (g : gl_context) :
  0 <= image_width ti < UINT_MOD -> 0 <= image_height ti < UINT_MOD ->
  let run := video_texture_load_gl_core ti filter_type in
  let wants_mipmaps :=
    match filter_type with
    | TEXTURE_FILTER_MIPMAP_LINEAR | TEXTURE_FILTER_MIPMAP_NEAREST => true
    | _ => false
    end in
  fst (run g) = Done (gl_next_name g)
  /\ (glGenerateMipmap GL_TEXTURE_2D ∈ calls_of run g
      <-> wants_mipmaps = true
          /\ 2 <= Z.max (image_width ti) (image_height ti))
  /\ (glTexParameteri GL_TEXTURE_2D GL_TEXTURE_MIN_FILTER
        GL_LINEAR_MIPMAP_LINEAR ∈ calls_of run g
      <-> filter_type = TEXTURE_FILTER_MIPMAP_LINEAR)
  /\ last (calls_of run g) = Some (glBindTexture GL_TEXTURE_2D 0).
Proof.
  intros Hw Hh run wants_mipmaps.
  pose proof (video_texture_load_run ti filter_type g) as Hrun.
  cbv zeta in Hrun. fold run in Hrun.
  rewrite (calls_of_suffix _ _ _ _ _ Hrun eq_refl), Hrun.
  split; [reflexivity|].
  pose proof (driver_more_than_one_level _ _ Hw Hh) as Hlv.
  unfold wants_mipmaps.
  destruct filter_type; try change (1 <? 1) with false; try rewrite Hlv;
    try destruct (Z.leb_spec 2 (Z.max (image_width ti) (image_height ti)));
    cbn [app];
    (split; [split; [try (intros _; split; [reflexivity | lia]);
                     intros Hin;
                     repeat (apply elem_of_cons in Hin as [Hin | Hin];
                             [discriminate|]);
                     inversion Hin
                    | try (intros [? ?]; (discriminate || lia));
                      intros _; set_solver]|]);
    (split; [split; [try (intros _; reflexivity);
                     intros Hin;
                     repeat (apply elem_of_cons in Hin as [Hin | Hin];
                             [discriminate|]);
                     inversion Hin
                    | try discriminate; intros _; set_solver]
            | reflexivity]).
Qed.

Lemma loaded_texture_mipmapped_iff_witness :
  let run := video_texture_load_gl_core (demo_image 1 1)
               TEXTURE_FILTER_MIPMAP_LINEAR in
  fst (run empty_context) = Done 1
  /\ (glGenerateMipmap GL_TEXTURE_2D ∈ calls_of run empty_context
      <-> true = true /\ 2 <= Z.max 1 1)
  /\ (glTexParameteri GL_TEXTURE_2D GL_TEXTURE_MIN_FILTER
        GL_LINEAR_MIPMAP_LINEAR ∈ calls_of run empty_context
      <-> TEXTURE_FILTER_MIPMAP_LINEAR = TEXTURE_FILTER_MIPMAP_LINEAR)
  /\ last (calls_of run empty_context) = Some (glBindTexture GL_TEXTURE_2D 0).
Proof.
  apply (loaded_texture_mipmapped_iff (demo_image 1 1)
           TEXTURE_FILTER_MIPMAP_LINEAR empty_context);
    vm_compute; (split; [discriminate | reflexivity]).
Defined.

(** ** The menu pipelines *)

Lemma deleted_programs_app (l1 l2 : list teardown_call) :
  deleted_programs (l1 ++ l2) = deleted_programs l1 ++ deleted_programs l2.
Proof. apply omap_app. Qed.

Lemma deleted_programs_delete_program (program : GLuint) :
  deleted_programs (delete_program program)
  = List.filter (fun q => negb (q =? 0)) [program].
Proof.
  unfold delete_program. cbn [List.filter].
  destruct (Z.eqb_spec program 0) as [-> | Hne].
  - reflexivity.
  - rewrite bool_decide_eq_true_2 by exact Hne. reflexivity.
Qed.

Lemma deleted_programs_textures (ts : list gl_core_streamed_texture) :
  deleted_programs
    (flat_map (fun t => if bool_decide (tex t ≠ 0)
                        then [logged (glDeleteTextures (tex t))] else [])
       ts) = [].
Proof.
  induction ts as [|t ts IH]; [reflexivity|].
  cbn [flat_map]. rewrite deleted_programs_app, IH.
  destruct (bool_decide (tex t ≠ 0)); reflexivity.
Qed.

Lemma deleted_programs_destroy (F : frontend) (gl : gl_core_t F)
    (o : gl_core_objects) :
  deleted_programs (gl_core_destroy_resources F (Some (gl, o)))
  = List.filter (fun q => negb (q =? 0))
      [alpha_blend (pipelines o); font (pipelines o); ribbon (pipelines o);
       ribbon_simple (pipelines o); snow_simple (pipelines o);
       snow (pipelines o); bokeh (pipelines o)].
Proof.
  unfold gl_core_destroy_resources.
  rewrite !deleted_programs_app, deleted_programs_textures,
    !deleted_programs_delete_program.
  replace (deleted_programs
             (if bool_decide (is_Some (filter_chain F gl))
              then [logged filter_chain_free] else []))
    with (@nil GLuint) by (destruct (bool_decide _); reflexivity).
  replace (deleted_programs
             (if bool_decide (vao o ≠ 0)
              then [glDeleteVertexArrays (vao o)] else []))
    with (@nil GLuint) by (destruct (bool_decide _); reflexivity).
  replace (deleted_programs
             (if bool_decide (menu_texture o ≠ 0)
              then [logged (glDeleteTextures (menu_texture o))] else []))
    with (@nil GLuint) by (destruct (bool_decide _); reflexivity).
  change (deleted_programs [glBindVertexArray 0]) with (@nil GLuint).
  change (deleted_programs [free_gl]) with (@nil GLuint).
  rewrite !app_nil_r. cbn [app].
  rewrite <- !List.filter_app. reflexivity.
Qed.

Ltac program_case x :=
  let H := fresh "H" in destruct (Z.eqb_spec x 0) as [H | H].

Ltac failed_here :=
  split;
  [ split; [discriminate|];
    intros [Hall Hlen]; first [ discriminate Hlen | exfalso ];
    repeat (apply Forall_cons in Hall as [? Hall]); congruence
  | rewrite deleted_programs_destroy;
    cbn [pipelines alpha_blend font ribbon ribbon_simple snow_simple snow
           bokeh List.filter];
    repeat match goal with
           | H : ?x = 0 |- context [?x =? 0] => rewrite H
           | H : ?x ≠ 0 |- context [?x =? 0] =>
               rewrite (proj2 (Z.eqb_neq x 0) H)
           end;
    cbn [Z.eqb negb]; try reflexivity; solve_Permutation ].

(** X26.  [gl_core_init_pipelines] returns true exactly when all seven
    programs compiled.  Whatever it returns, the programs
    [gl_core_destroy_resources] then deletes are the programs that did
    compile, each once: a failed initialisation leaks no program. *)
Theorem compiled_pipelines_are_released (F : frontend)
    (compile : pipeline_shader -> pipeline_shader -> GLuint)
    (gl : gl_core_t F) (vao0 menu0 : GLuint) :
  let '(ok, p, compiled) := gl_core_init_pipelines compile no_pipelines in
  (ok = true <-> Forall (fun program => program ≠ 0) compiled
                 /\ length compiled = 7%nat)
  /\ deleted_programs
       (gl_core_destroy_resources F
          (Some (gl, {| vao := vao0; menu_texture := menu0;
                        pipelines := p |})))
     ≡ₚ List.filter (fun program => negb (program =? 0)) compiled.
Proof.
  unfold gl_core_init_pipelines, no_pipelines.
  cbn [alpha_blend font ribbon ribbon_simple snow_simple snow bokeh].
  set (a := compile alpha_blend_vert alpha_blend_frag).
  set (f := compile alpha_blend_vert font_frag).
  set (rs := compile pipeline_ribbon_simple_vert pipeline_ribbon_simple_frag).
  set (r := compile pipeline_ribbon_vert pipeline_ribbon_frag).
  set (b := compile alpha_blend_vert pipeline_bokeh_frag).
  set (ss := compile alpha_blend_vert pipeline_snow_simple_frag).
  set (s := compile alpha_blend_vert pipeline_snow_frag).
  program_case a; [failed_here|].
  program_case f; [failed_here|].
  program_case rs; [failed_here|].
  program_case r; [failed_here|].
  program_case b; [failed_here|].
  program_case ss; [failed_here|].
  program_case s; [failed_here|].
  split.
  - split; [|reflexivity]. intros _. split; [|reflexivity].
    repeat (apply Forall_cons; split; [assumption|]). apply Forall_nil_2.
  - rewrite deleted_programs_destroy.
    cbn [pipelines alpha_blend font ribbon ribbon_simple snow_simple snow
           bokeh List.filter].
    repeat match goal with
           | H : ?x ≠ 0 |- context [?x =? 0] =>
               rewrite (proj2 (Z.eqb_neq x 0) H)
           end.
    cbn [negb]. solve_Permutation.
Qed.
